(** * DwPort: the debugWIRE port of the Little-Wire host tools

    A shallow embedding of [software/examples/debugWIRE/src/dwire/DwPort.c]
    and the properties of its specification.

    The C file is a set of free functions over global variables (the USB
    handle [Port], the outbound buffer, the register shadow [R], [PC], [BP],
    ...).  Here the globals are the fields of a [State] record, and every C
    function is a computation in a state-and-abort monad [M]: a call either
    returns a value and a new state, or stops (through [Fail], a failed
    [Assert], or an access outside an array).

    The USB adapter is the environment.  It is an arbitrary function from the
    index of a control transfer to the reply that this transfer gets; every
    transfer is appended to a log kept in the state, so that the wire traffic
    of a call can be stated and proved. *)

From Stdlib Require Import ZArith List Lia Bool String Ascii.
Import ListNotations.
Local Open Scope Z_scope.

(** ** C integers and memory *)

Definition u8 (x : Z) : Z := x mod 256.
Definition u16 (x : Z) : Z := x mod 65536.
Definition u32 (x : Z) : Z := x mod 4294967296.

(** [sizeof] yields a [size_t]; an [int] compared with it is converted
    first.  The width (64 bits here) plays no role for values of type [int]:
    a negative [int] becomes a number far above 128 with 32 bits as well. *)
Definition size_t (x : Z) : Z := x mod 18446744073709551616.

Definition INT_MAX : Z := 2147483647.

(** [sizeof(OutBufBytes)] *)
Definition sizeof_OutBufBytes : Z := 128.

Definition zlen {A : Type} (l : list A) : Z := Z.of_nat (List.length l).
Definition take {A : Type} (n : Z) (l : list A) : list A := firstn (Z.to_nat n) l.
Definition drop {A : Type} (n : Z) (l : list A) : list A := skipn (Z.to_nat n) l.

(** [memcpy(dst+off, src, n)] on an array [dst]; [None] when the copy would
    leave the array or read past the end of [src] (a negative [n] is a huge
    [size_t]). *)
Definition memcpy (dst : list Z) (off : Z) (src : list Z) (n : Z) : option (list Z) :=
  if (0 <=? off) && (0 <=? n) && (off + n <=? zlen dst) && (n <=? zlen src)
  then Some (take off dst ++ take n src ++ drop (off + n) dst)
  else None.

(** An array element, [None] outside the array. *)
Definition load (a : list Z) (i : Z) : option Z :=
  if (0 <=? i) && (i <? zlen a) then Some (nth (Z.to_nat i) a 0) else None.

Definition store (a : list Z) (i : Z) (v : Z) : option (list Z) :=
  if (0 <=? i) && (i <? zlen a) then Some (take i a ++ v :: drop (i + 1) a) else None.

(** A 16-bit value as it lies in the memory of the (little-endian) host. *)
Definition le16_bytes (w : Z) : list Z := [Z.land w 255; Z.land (Z.shiftr w 8) 255].

(** ** The environment: USB adapter and console *)

(** What the adapter answers to one control transfer.  [rstatus] is the
    value [usb_control_msg] returns for an OUT transfer, and a negative
    [rstatus] is an error for an IN transfer; an IN transfer that is not in
    error delivers [rdata] (cut at the size asked for) and returns the
    number of bytes delivered. *)
Record reply : Type := Reply { rstatus : Z; rdata : list Z }.

(** One control transfer with request number 60, as seen on the bus. *)
Inductive event : Type :=
| Out (value : Z) (payload : list Z)
| In_ (value : Z) (size : Z).

(** What the host prints. *)
Inductive output : Type :=
| PutS (s : string)
| PutSL (s : string)
| PutD (n : Z) (width : Z)
| PutC (c : ascii)
| PutL
| PutFlush.

(** ** The session *)

Record State : Type := mkState {
  Port : bool;              (* the USB handle is open *)
  cyclesPerPulse : Z;       (* uint32_t *)
  OutBufBytes : list Z;     (* char OutBufBytes[128] *)
  OutBufLength : Z;         (* int *)
  R : list Z;               (* u8 R[32] *)
  PC : Z;                   (* int *)
  BP : Z;                   (* int *)
  TimerEnable : bool;
  Calls : nat;              (* control transfers made so far *)
  Log : list event;         (* the transfers, oldest first *)
  Console : list output;
  Elapsed : Z;              (* milliseconds spent in delay() *)
  BulkReads : list (Z * Z)  (* history: (addr, len) of every DwUnsafeReadAddr *)
}.

Definition set_Port (v : bool) (s : State) : State :=
  mkState v (cyclesPerPulse s) (OutBufBytes s) (OutBufLength s) (R s) (PC s) (BP s)
    (TimerEnable s) (Calls s) (Log s) (Console s) (Elapsed s) (BulkReads s).

Definition set_cyclesPerPulse (v : Z) (s : State) : State :=
  mkState (Port s) v (OutBufBytes s) (OutBufLength s) (R s) (PC s) (BP s)
    (TimerEnable s) (Calls s) (Log s) (Console s) (Elapsed s) (BulkReads s).

Definition set_OutBuf (bytes : list Z) (len : Z) (s : State) : State :=
  mkState (Port s) (cyclesPerPulse s) bytes len (R s) (PC s) (BP s)
    (TimerEnable s) (Calls s) (Log s) (Console s) (Elapsed s) (BulkReads s).

Definition set_R (v : list Z) (s : State) : State :=
  mkState (Port s) (cyclesPerPulse s) (OutBufBytes s) (OutBufLength s) v (PC s) (BP s)
    (TimerEnable s) (Calls s) (Log s) (Console s) (Elapsed s) (BulkReads s).

Definition set_PC (v : Z) (s : State) : State :=
  mkState (Port s) (cyclesPerPulse s) (OutBufBytes s) (OutBufLength s) (R s) v (BP s)
    (TimerEnable s) (Calls s) (Log s) (Console s) (Elapsed s) (BulkReads s).

Definition log_event (e : event) (s : State) : State :=
  mkState (Port s) (cyclesPerPulse s) (OutBufBytes s) (OutBufLength s) (R s) (PC s) (BP s)
    (TimerEnable s) (S (Calls s)) (Log s ++ [e]) (Console s) (Elapsed s) (BulkReads s).

Definition print (o : output) (s : State) : State :=
  mkState (Port s) (cyclesPerPulse s) (OutBufBytes s) (OutBufLength s) (R s) (PC s) (BP s)
    (TimerEnable s) (Calls s) (Log s) (Console s ++ [o]) (Elapsed s) (BulkReads s).

Definition add_Elapsed (ms : Z) (s : State) : State :=
  mkState (Port s) (cyclesPerPulse s) (OutBufBytes s) (OutBufLength s) (R s) (PC s) (BP s)
    (TimerEnable s) (Calls s) (Log s) (Console s) (Elapsed s + ms) (BulkReads s).

Definition note_BulkRead (addr len : Z) (s : State) : State :=
  mkState (Port s) (cyclesPerPulse s) (OutBufBytes s) (OutBufLength s) (R s) (PC s) (BP s)
    (TimerEnable s) (Calls s) (Log s) (Console s) (Elapsed s) (BulkReads s ++ [(addr, len)]).

(** The bytes waiting in the outbound buffer. *)
Definition buffered (s : State) : list Z := take (OutBufLength s) (OutBufBytes s).

(** ** The monad *)

Inductive stop : Type :=
| Failure (msg : string)   (* Fail(msg): the command is abandoned *)
| AssertFailed             (* Assert(false) *)
| OutOfBounds              (* an access outside an array: undefined in C *)
| NullPort                 (* usb_control_msg on a closed handle: undefined in C *)
| DivisionByZero           (* a remainder by 0: undefined in C *)
| OutOfFuel.               (* a loop of the model ran out of its bound *)

Inductive outcome (A : Type) : Type :=
| Ok (a : A) (s : State)
| Stop (why : stop) (s : State).
Arguments Ok {A} a s.
Arguments Stop {A} why s.

Definition M (A : Type) : Type := State -> outcome A.

Definition ret {A : Type} (a : A) : M A := fun s => Ok a s.

Definition bind {A B : Type} (m : M A) (f : A -> M B) : M B :=
  fun s => match m s with
           | Ok a s' => f a s'
           | Stop w s' => Stop w s'
           end.

Declare Scope dw_scope.
Delimit Scope dw_scope with dw.
Notation "x <- m ;; k" := (bind m (fun x => k))
  (at level 61, m at next level, right associativity) : dw_scope.
Notation "' pat <- m ;; k" := (bind m (fun x => match x with pat => k end))
  (at level 61, pat pattern, m at next level, right associativity) : dw_scope.
Notation "m ;; k" := (bind m (fun _ => k))
  (at level 61, right associativity) : dw_scope.
Local Open Scope dw_scope.

Definition stop_with {A : Type} (w : stop) : M A := fun s => Stop w s.
Definition modify (f : State -> State) : M unit := fun s => Ok tt (f s).
Definition read {A : Type} (f : State -> A) : M A := fun s => Ok (f s) s.

(** An [option] coming from an array access. *)
Definition in_bounds {A : Type} (o : option A) : M A :=
  match o with Some a => ret a | None => stop_with OutOfBounds end.

Definition final {A : Type} (o : outcome A) : State :=
  match o with Ok _ s => s | Stop _ s => s end.

(** External helpers of the host program. *)
Definition Fail {A : Type} (msg : string) : M A := stop_with (Failure msg).
Definition Assert (b : bool) : M unit := if b then ret tt else stop_with AssertFailed.
Definition delay (ms : Z) : M unit := modify (add_Elapsed ms).
Definition Ws (s : string) : M unit := modify (print (PutS s)).
Definition Wsl (s : string) : M unit := modify (print (PutSL s)).
Definition Wd (n width : Z) : M unit := modify (print (PutD n width)).
Definition Wc (c : ascii) : M unit := modify (print (PutC c)).
Definition Wl : M unit := modify (print PutL).
Definition Flush : M unit := modify (print PutFlush).

(** [Bytes(b0, b1, ...)] builds a [u8] array and passes it with its count. *)
Definition Bytes (l : list Z) : list Z * Z := (map u8 l, zlen l).

(** ** The program *)

Section DwPort.

(** The adapter: the reply to the n-th control transfer of the run. *)
Variable adapter : nat -> reply.

(** Whether [usbOpenDevice] finds the adapter. *)
Variable attached : bool.

(** Device characteristics, [DWDRreg()], [DWDRaddr()] and [FlashSize()] of
    the device table (values of type [int]). *)
Variables DWDRreg DWDRaddr FlashSize : Z.

(** [usb_control_msg(Port, OUT_TO_LW, 60, value, 0, bytes, size, USB_TIMEOUT)] *)
Definition usb_control_msg_out (value : Z) (bytes : list Z) (size : Z) : M Z :=
  fun s =>
    if Port s then
      if size <=? zlen bytes
      then Ok (rstatus (adapter (Calls s))) (log_event (Out value (take size bytes)) s)
      else Stop OutOfBounds s
    else Stop NullPort s.

(** [usb_control_msg(Port, IN_FROM_LW, 60, value, 0, bytes, size, USB_TIMEOUT)]:
    the status and the array after the transfer. *)
Definition usb_control_msg_in (value : Z) (bytes : list Z) (size : Z) : M (Z * list Z) :=
  fun s =>
    if Port s then
      let r := adapter (Calls s) in
      let s' := log_event (In_ value size) s in
      if rstatus r <? 0 then Ok (rstatus r, bytes) s'
      else
        let d := map u8 (take size (rdata r)) in
        if zlen d <=? zlen bytes
        then Ok (zlen d, d ++ drop (zlen d) bytes) s'
        else Stop OutOfBounds s'
    else Stop NullPort s.

Definition PortFail {A : Type} (msg : string) : M A :=
  modify (set_Port false);; Fail msg.

(** *** Clock recovery *)

(** [uint16_t times[i]] of the array read back as bytes. *)
Definition load16 (times : list Z) (i : Z) : option Z :=
  match load times (2 * i), load times (2 * i + 1) with
  | Some b0, Some b1 => Some (b0 + 256 * b1)
  | _, _ => None
  end.

(** The polling loop of [SetDwireBaud]; [n] is [5 - tries]. *)
Fixpoint read_timings (n : nat) (status : Z) (times : list Z) : M (Z * list Z) :=
  match n with
  | O => ret (status, times)
  | S n' =>
      if status <=? 0 then
        delay 20;;
        '(status', times') <- usb_control_msg_in 0 times 128;;
        read_timings n' status' times'
      else ret (status, times)
  end.

(** [for (i=...; i<measurementCount; i++) cyclesPerPulse += times[i];] *)
Fixpoint sum_times (fuel : nat) (i measurementCount : Z) (times : list Z) : M unit :=
  if u32 i <? measurementCount then
    match fuel with
    | O => stop_with OutOfFuel
    | S fuel' =>
        t <- in_bounds (load16 times i);;
        modify (fun s => set_cyclesPerPulse (u32 (cyclesPerPulse s + t)) s);;
        sum_times fuel' (i + 1) measurementCount times
    end
  else ret tt.

(** [SetDwireBaud] with the initial contents of its local array [times]
    (the array is not initialised in C). *)
Definition SetDwireBaud_on (times0 : list Z) : M Z :=
  '(status, times) <- read_timings 5 0 times0;;
  if status <? 18 then ret 0
  else
    let measurementCount := u32 (status / 2) in
    modify (set_cyclesPerPulse 0);;
    sum_times 9 (measurementCount - 9) measurementCount times;;
    modify (fun s => set_cyclesPerPulse (u32 (u32 (6 * cyclesPerPulse s) / 9 + 8)) s);;
    cpp <- read cyclesPerPulse;;
    let dwBitTime := u16 (u32 (cpp - 8) / 4) in
    times' <- in_bounds (memcpy times 0 (le16_bytes dwBitTime) 2);;
    status' <- usb_control_msg_out 2 times' 2;;
    (if status' <? 0
     then PortFail "Failed to set debugWIRE port baud rate"
     else ret tt);;
    ret 1.

Definition SetDwireBaud : M Z := SetDwireBaud_on (repeat 0 128).

(** The loop of [DwBreakAndSync]; [n] is [25 - tries]. *)
Fixpoint DwBreakAndSync_loop (n : nat) : M unit :=
  match n with
  | O =>
      Wl;;
      PortFail "Digispark/LittleWire could not capture pulse timings after 25 break attempts."
  | S n' =>
      status <- usb_control_msg_out 33 [] 0;;
      connected <-
        (if 0 <=? status then
           delay 120;;
           ok <- SetDwireBaud;;
           if ok =? 0 then ret false
           else
             cpp <- read cyclesPerPulse;;
             Ws "Connected at ";; Wd (16500000 / cpp) 1;; Wsl " baud.";;
             ret true
         else ret false);;
      if connected : bool then ret tt
      else Wc "."%char;; Flush;; DwBreakAndSync_loop n'
  end.

Definition DwBreakAndSync : M unit := DwBreakAndSync_loop 25.

Definition ConnectPort : M unit :=
  modify (set_Port attached);;
  port <- read Port;;
  (if port then ret tt else Fail "Couldn't connect to digispark.");;
  DwBreakAndSync.

(** [dwReachedBreakpoint] with the initial contents of its local array
    [dwBuf] (char[10], not initialised in C): 1 or 0 for
    [status >= 0 && dwBuf[0] != 0]. *)
Definition dwReachedBreakpoint_on (dwBuf0 : list Z) : M Z :=
  '(status, dwBuf) <- usb_control_msg_in 0 dwBuf0 10;;
  if 0 <=? status then
    b <- in_bounds (load dwBuf 0);;
    ret (if b =? 0 then 0 else 1)
  else ret 0.

(** *** Low level send *)

(** The retry loop of [dwUSBSendBytes]; [n] is [50 - tries]. *)
Fixpoint send_retry (n : nat) (state : Z) (out : list Z) (outlen : Z) (status : Z) : M Z :=
  match n with
  | O => ret status
  | S n' =>
      if status <=? 0 then
        delay 20;;
        status' <- usb_control_msg_out state out outlen;;
        send_retry n' state out outlen status'
      else ret status
  end.

Definition dwUSBSendBytes (state : Z) (out : list Z) (outlen : Z) : M unit :=
  port <- read Port;;
  (if port then ret tt else ConnectPort);;
  status <- usb_control_msg_out state out outlen;;
  status <- send_retry 50 state out outlen status;;
  (if status <? outlen
   then Ws "Failed to send bytes to AVR, status ";; Wd status 1;; PortFail ""
   else ret tt);;
  delay 3.

(** *** The outbound buffer *)

Definition dwBufferFlush (state : Z) : M unit :=
  len <- read OutBufLength;;
  if 0 <? len then
    bytes <- read OutBufBytes;;
    dwUSBSendBytes state bytes len;;
    modify (fun s => set_OutBuf (OutBufBytes s) 0 s)
  else ret tt.

(** The loop of [DwSend]; it returns the advanced [out] and [outlen]. *)
Fixpoint DwSend_loop (fuel : nat) (out : list Z) (outlen : Z) : M (list Z * Z) :=
  len <- read OutBufLength;;
  if size_t (len + outlen) >? sizeof_OutBufBytes then
    match fuel with
    | O => stop_with OutOfFuel
    | S fuel' =>
        let lenToCopy := sizeof_OutBufBytes - len in
        bytes <- read OutBufBytes;;
        bytes' <- in_bounds (memcpy bytes len out lenToCopy);;
        modify (set_OutBuf bytes' len);;
        dwUSBSendBytes 0x04 bytes' sizeof_OutBufBytes;;
        modify (fun s => set_OutBuf (OutBufBytes s) 0 s);;
        DwSend_loop fuel' (drop lenToCopy out) (outlen - lenToCopy)
    end
  else ret (out, outlen).

(** [DwSend(out, outlen)]: [out] is the memory at the pointer.  Every
    iteration but the first ships 128 bytes of [out], so the length of
    [out] bounds the loop. *)
Definition DwSend (out : list Z) (outlen : Z) : M unit :=
  '(out', outlen') <- DwSend_loop (S (List.length out)) out outlen;;
  len <- read OutBufLength;;
  Assert (size_t (len + outlen') <=? sizeof_OutBufBytes);;
  bytes <- read OutBufBytes;;
  bytes' <- in_bounds (memcpy bytes len out' outlen');;
  modify (set_OutBuf bytes' (len + outlen')).

(** [DwSend(Bytes(...))] *)
Definition DwSendBytes (b : list Z * Z) : M unit := DwSend (fst b) (snd b).

Definition DwFlush : M unit := dwBufferFlush 0x14.

(** The polling loop of [DwReceive]; [n] is [50 - tries]. *)
Fixpoint receive_retry (n : nat) (status : Z) (buf : list Z) (inlen : Z) : M (Z * list Z) :=
  match n with
  | O => ret (status, buf)
  | S n' =>
      if status <=? 0 then
        delay 20;;
        '(status', buf') <- usb_control_msg_in 0 buf inlen;;
        receive_retry n' status' buf' inlen
      else ret (status, buf)
  end.

(** [DwReceive(in, inlen)]: the status and the array [in] afterwards. *)
Definition DwReceive (buf : list Z) (inlen : Z) : M (Z * list Z) :=
  Assert (inlen <=? 128);;
  dwBufferFlush 0x14;;
  receive_retry 50 0 buf inlen.

Definition DwReadByte : M Z :=
  '(_, byte) <- DwReceive [0] 1;;
  ret (nth 0 byte 0).

Definition DwReadWord : M Z :=
  '(_, buf) <- DwReceive [0; 0] 2;;
  ret (Z.lor (Z.shiftl (nth 0 buf 0) 8) (nth 1 buf 0)).

Definition DwSync : M unit :=
  dwBufferFlush 0x24;;
  ok <- SetDwireBaud;;
  if ok =? 0
  then PortFail "Could not read back timings following transfer and sync command"
  else ret tt.

Definition DwWait : M unit := dwBufferFlush 0x0C.

(** *** The command encoder *)

Definition hi (w : Z) : Z := Z.land (Z.shiftr w 8) 0xff.
Definition lo (w : Z) : Z := Z.land w 0xff.

Definition DwSetPC (pc : Z) : M unit :=
  let pc := u16 pc in DwSendBytes (Bytes [0xD0; Z.lor (hi pc) 0x10; lo pc]).

Definition DwSetBP (bp : Z) : M unit :=
  let bp := u16 bp in DwSendBytes (Bytes [0xD1; Z.lor (hi bp) 0x10; lo bp]).

Definition DwInst (inst : Z) : M unit :=
  let inst := u16 inst in DwSendBytes (Bytes [0xD2; hi inst; lo inst; 0x23]).

(** The opcodes that [DwIn] and [DwOut] hand to [DwInst]. *)
Definition in_opcode (reg ioreg : Z) : Z :=
  Z.lor (Z.lor (Z.lor 0xB000 (Z.land (Z.shiftl ioreg 5) 0x600))
               (Z.land (Z.shiftl reg 4) 0x01F0))
        (Z.land ioreg 0x000F).

Definition out_opcode (ioreg reg : Z) : Z :=
  Z.lor (Z.lor (Z.lor 0xB800 (Z.land (Z.shiftl ioreg 5) 0x600))
               (Z.land (Z.shiftl reg 4) 0x01F0))
        (Z.land ioreg 0x000F).

Definition DwIn (reg ioreg : Z) : M unit := DwInst (in_opcode (u8 reg) (u16 ioreg)).
Definition DwOut (ioreg reg : Z) : M unit := DwInst (out_opcode (u16 ioreg) (u8 reg)).

(** *** Register access *)

Definition DwGetRegs (first : Z) (regs : list Z) (count : Z) : M (list Z) :=
  (if count =? 1 then DwOut DWDRreg first
   else
     DwSetPC first;;
     DwSetBP (first + count);;
     DwSendBytes (Bytes [0x66; 0xC2; 1; 0x20]));;
  '(_, regs') <- DwReceive regs count;;
  ret regs'.

Definition DwSetReg (reg val : Z) : M unit :=
  DwIn reg DWDRreg;; DwSendBytes (Bytes [val]).

(** [while (count > 0) {DwSetReg(first, *regs); first++; regs++; count--;}] *)
Fixpoint DwSetRegs_loop (fuel : nat) (first : Z) (regs : list Z) (count : Z) : M unit :=
  if 0 <? count then
    match fuel with
    | O => stop_with OutOfFuel
    | S fuel' =>
        val <- in_bounds (load regs 0);;
        DwSetReg first val;;
        DwSetRegs_loop fuel' (first + 1) (drop 1 regs) (count - 1)
    end
  else ret tt.

Definition DwSetRegs (first : Z) (regs : list Z) (count : Z) : M unit :=
  if count <=? 3 then DwSetRegs_loop 3 first regs count
  else
    DwSetPC first;;
    DwSetBP (first + count);;
    DwSendBytes (Bytes [0x66; 0xC2; 0x05; 0x20]);;
    DwSend regs count.

Definition DwSetZ (z : Z) : M unit :=
  let z := u16 z in DwSetRegs 30 (le16_bytes z) 2.

(** *** Data area access *)

(** A call [f(..., buf + pos)]: the callee works on the array from [pos]
    on, and what it stores there is seen through [buf]. *)
Definition at_offset (pos : Z) (buf : list Z) (f : list Z -> M (list Z)) : M (list Z) :=
  if (0 <=? pos) && (pos <=? zlen buf) then
    rest <- f (drop pos buf);;
    ret (take pos buf ++ rest)
  else stop_with OutOfBounds.

Definition DwUnsafeReadAddr (addr len : Z) (buf : list Z) : M (list Z) :=
  modify (note_BulkRead addr len);;
  DwSetZ addr;;
  DwSetPC 0;;
  DwSetBP (2 * len);;
  DwSendBytes (Bytes [0x66; 0xC2; 0x00; 0x20]);;
  '(_, buf') <- DwReceive buf len;;
  ret buf'.

(** The local variables [addr], [len], [buf] of [DwReadAddr]; the pointer
    [buf] is the caller's array and the position reached in it. *)
Definition cursor : Type := (Z * Z * Z * list Z)%type.

(** [while (addr >= 28 && addr <= 31 && len > 0) {*buf = R[addr]; ...}] *)
Fixpoint DwReadAddr_cached (fuel : nat) (addr len pos : Z) (buf : list Z) : M cursor :=
  if (28 <=? addr) && (addr <=? 31) && (0 <? len) then
    match fuel with
    | O => stop_with OutOfFuel
    | S fuel' =>
        r <- read R;;
        val <- in_bounds (load r addr);;
        buf' <- in_bounds (store buf pos val);;
        DwReadAddr_cached fuel' (addr + 1) (len - 1) (pos + 1) buf'
    end
  else ret (addr, len, pos, buf).

(** [while (len > 128) {DwUnsafeReadAddr(addr, 128, buf); ...}] *)
Fixpoint DwReadAddr_chunks (fuel : nat) (addr len pos : Z) (buf : list Z) : M cursor :=
  if 128 <? len then
    match fuel with
    | O => stop_with OutOfFuel
    | S fuel' =>
        buf' <- at_offset pos buf (DwUnsafeReadAddr addr 128);;
        DwReadAddr_chunks fuel' (addr + 128) (len - 128) (pos + 128) buf'
    end
  else ret (addr, len, pos, buf).

Definition DwReadAddr (addr len : Z) (buf : list Z) : M (list Z) :=
  let pos := 0 in
  (* Read range before r28 *)
  let len1 := Z.min len (28 - addr) in
  '(addr, len, pos, buf) <-
    (if 0 <? len1 then
       buf' <- at_offset pos buf (DwUnsafeReadAddr addr len1);;
       ret (addr + len1, len - len1, pos + len1, buf')
     else ret (addr, len, pos, buf));;
  (* Some registers are cached - use the cached values. *)
  '(addr, len, pos, buf) <- DwReadAddr_cached 4 addr len pos buf;;
  (* Read range from 32 to DWDR *)
  let len2 := Z.min len (DWDRaddr - addr) in
  '(addr, len, pos, buf) <-
    (if 0 <? len2 then
       buf' <- at_offset pos buf (DwUnsafeReadAddr addr len2);;
       ret (addr + len2, len - len2, pos + len2, buf')
     else ret (addr, len, pos, buf));;
  (* Provide dummy 0 value for DWDR *)
  '(addr, len, pos, buf) <-
    (if (addr =? DWDRaddr) && (0 <? len) then
       buf' <- in_bounds (store buf pos 0);;
       ret (addr + 1, len - 1, pos + 1, buf')
     else ret (addr, len, pos, buf));;
  (* Read anything beyond DWDR no more than 128 bytes at a time *)
  '(addr, len, pos, buf) <- DwReadAddr_chunks (Z.to_nat (len / 128)) addr len pos buf;;
  if 0 <? len then at_offset pos buf (DwUnsafeReadAddr addr len) else ret buf.

(** [while (addr < limit) {...}] of [DwWriteAddr] *)
Fixpoint DwWriteAddr_loop (fuel : nat) (addr limit : Z) (buf : list Z) : M unit :=
  if addr <? limit then
    match fuel with
    | O => stop_with OutOfFuel
    | S fuel' =>
        val <- in_bounds (load buf 0);;
        (if (addr <? 28) || ((31 <? addr) && negb (addr =? DWDRaddr)) then
           DwSetPC 1;;
           DwSendBytes (Bytes [0x20; val])
         else
           (if (28 <=? addr) && (addr <=? 31) then
              r <- read R;;
              r' <- in_bounds (store r addr val);;
              modify (set_R r')
            else ret tt);;
           DwSetZ (addr + 1));;
        DwWriteAddr_loop fuel' (addr + 1) limit (drop 1 buf)
    end
  else ret tt.

Definition DwWriteAddr (addr len : Z) (buf : list Z) : M unit :=
  DwSetZ addr;;
  DwSetBP 3;;
  DwSendBytes (Bytes [0x66; 0xC2; 0x04]);;
  let limit := addr + len in
  DwWriteAddr_loop (Z.to_nat len) addr limit buf.

(** *** Start / stop *)

(** [PC = (2 * (DwReadWord() - 1) % FlashSize())]: the remainder of C
    truncates towards zero ([Z.rem]), and it is undefined for a flash size
    of 0. *)
Definition DwReconnect : M unit :=
  DwSendBytes (Bytes [0xF0]);;
  w <- DwReadWord;;
  (if FlashSize =? 0 then stop_with DivisionByZero else ret tt);;
  modify (set_PC (Z.rem (2 * (w - 1)) FlashSize));;
  r <- read R;;
  regs <- DwGetRegs 28 (drop 28 r) 4;;
  modify (set_R (take 28 r ++ regs)).

Definition DwReset : M unit :=
  DwSendBytes (Bytes [0x07]);;
  DwSync;;
  DwReconnect.

Definition DwDisable : M unit :=
  DwSendBytes (Bytes [0x06]);;
  DwFlush.

Definition DwTrace : M unit :=
  r <- read R;;
  DwSetRegs 28 r 4;;
  pc <- read PC;;
  DwSetPC (Z.quot pc 2);;
  DwSendBytes (Bytes [0x60; 0x31]);;
  DwSync;;
  DwReconnect.

Definition DwGo : M unit :=
  r <- read R;;
  DwSetRegs 28 r 4;;
  pc <- read PC;;
  DwSetPC (Z.quot pc 2);;
  bp <- read BP;;
  te <- read TimerEnable;;
  (if bp <? 0 then
     DwSendBytes (Bytes [if te then 0x40 else 0x60])
   else
     DwSetBP (Z.quot bp 2);;
     DwSendBytes (Bytes [if te then 0x41 else 0x61]));;
  DwSendBytes (Bytes [0x30]);;
  DwWait.

End DwPort.

(** ** A session to run examples on *)

(** The program at its start has no handle and an empty buffer; the
    registers, [PC] and [BP] (no breakpoint) are a choice made here. *)
Definition initial : State :=
  mkState false 0 (repeat 0 128) 0 (repeat 0 32) 0 (-1) false 0 [] [] 0 [].

(** An adapter that takes every transfer at once and has nothing to say. *)
Definition prompt : nat -> reply := fun _ => Reply 128 [].

(** A connected session halted at 0x0100, with a breakpoint at 0x0200,
    timers enabled, and the registers r0..r31 holding 1..32. *)
Definition halted : State :=
  mkState true 0 (repeat 0 128) 0 (map Z.of_nat (seq 1 32)) 0x0100 0x0200 true
    0 [] [] 0 [].

(** ** Vocabulary of the properties *)

(** Hoare triples with a postcondition for each way a call can end. *)
Definition triple {A : Type} (P : State -> Prop) (m : M A)
    (Q : A -> State -> Prop) (E : stop -> State -> Prop) : Prop :=
  forall s, P s ->
    match m s with
    | Ok a s' => Q a s'
    | Stop w s' => E w s'
    end.

(** [I] holds in the state a call ends in, whichever way it ends. *)
Definition preserves {A : Type} (I : State -> Prop) (m : M A) : Prop :=
  forall s, I s -> I (final (m s)).

(** What a call returns, when it returns. *)
Definition returns {A : Type} (m : M A) (Q : A -> Prop) : Prop :=
  forall s, match m s with Ok a _ => Q a | Stop _ _ => True end.

(** The outbound buffer is an array of 128 bytes with its cursor inside. *)
Definition wf (s : State) : Prop :=
  zlen (OutBufBytes s) = 128 /\ 0 <= OutBufLength s <= 128.

(** A send-then-read transfer (mode 0x14) has something to send. *)
Definition carries (e : event) : Prop :=
  match e with
  | Out value payload => value = 0x14 -> payload <> []
  | In_ _ _ => True
  end.

(** The properties of the state that the transport leaves alone: they do
    not depend on the clock, the console, the handle or [cyclesPerPulse],
    and they allow every transfer that [carries]. *)
Record tframe (I : State -> Prop) : Prop := TFrame {
  frame_elapsed : forall ms s, I s -> I (add_Elapsed ms s);
  frame_print : forall o s, I s -> I (print o s);
  frame_port : forall b s, I s -> I (set_Port b s);
  frame_cpp : forall v s, I s -> I (set_cyclesPerPulse v s);
  frame_log : forall e s, carries e -> I s -> I (log_event e s)
}.

(** Those that the outbound buffer leaves alone as well: they allow every
    update of the buffer that keeps it well formed. *)
Record frame (I : State -> Prop) : Prop := Frame {
  frame_transport : tframe I;
  frame_buf : forall b l s,
      (wf s -> zlen b = 128 /\ 0 <= l <= 128) -> I s -> I (set_OutBuf b l s)
}.

(** The part of the state that only the session commands change. *)
Definition same_session (s0 s : State) : Prop :=
  R s = R s0 /\ PC s = PC s0 /\ BP s = BP s0 /\ TimerEnable s = TimerEnable s0 /\
  BulkReads s = BulkReads s0.

(** The part of the state that the transport does not change. *)
Definition same_buffer (s0 s : State) : Prop :=
  OutBufBytes s = OutBufBytes s0 /\ OutBufLength s = OutBufLength s0.

(** The state with [data] appended to the outbound buffer. *)
Definition push (data : list Z) (s : State) : State :=
  set_OutBuf
    (take (OutBufLength s) (OutBufBytes s) ++ data ++
     drop (OutBufLength s + zlen data) (OutBufBytes s))
    (OutBufLength s + zlen data) s.

(** A function that only appends [data] to the outbound buffer, when
    there is room for it, in the states where [P] holds. *)
Definition queues (P : State -> Prop) (m : M unit) (data : list Z) : Prop :=
  forall s, P s -> wf s -> OutBufLength s + zlen data <= 128 ->
    m s = Ok tt (push data s).

(** A property that does not depend on the outbound buffer. *)
Definition push_stable (P : State -> Prop) : Prop :=
  forall data s, P s -> P (push data s).

(** No condition on the state. *)
Definition always : State -> Prop := fun _ => True.

(** The first [k] blocks of 128 bytes of [out]. *)
Fixpoint chunks (k : nat) (out : list Z) : list (list Z) :=
  match k with
  | O => []
  | S k' => take 128 out :: chunks k' (drop 128 out)
  end.

(** [transports es l]: the log [l] is that of the transports [es] made in
    this order, each of them showing as one attempt or more (the retries of
    [dwUSBSendBytes] repeat the transfer). *)
Inductive transports : list event -> list event -> Prop :=
| transports_nil : transports [] []
| transports_cons e es n l :
    transports es l -> transports (e :: es) (repeat e (S n) ++ l).

(** A stop that is a call of [Fail]: the C program has a defined behaviour. *)
Definition failed (w : stop) : Prop := exists msg, w = Failure msg.

(** Modelled from the spec: the AVR instruction decoder through which the
    encodings of IN and OUT round-trip (section 8, property 1); the
    disassembler is not part of DwPort.c.  The layout is the one of the AVR
    instruction set, [IN Rd,A] = 1011 0AAd dddd AAAA and
    [OUT A,Rr] = 1011 1AAr rrrr AAAA. *)
Inductive avr_io : Type :=
| AvrIn (reg ioreg : Z)
| AvrOut (ioreg reg : Z).

Definition avr_decode (w : Z) : option avr_io :=
  let reg := Z.land (Z.shiftr w 4) 0x1F in
  let ioreg := Z.lor (Z.shiftl (Z.land (Z.shiftr w 9) 3) 4) (Z.land w 0xF) in
  if Z.shiftr w 11 =? 22 then Some (AvrIn reg ioreg)
  else if Z.shiftr w 11 =? 23 then Some (AvrOut ioreg reg)
  else None.

(** The round trip of one pair, as a test. *)
Definition roundtrip_test (reg ioreg : Z) : bool :=
  match avr_decode (in_opcode reg ioreg), avr_decode (out_opcode ioreg reg) with
  | Some (AvrIn r a), Some (AvrOut a' r') =>
      (r =? reg) && (a =? ioreg) && (r' =? reg) && (a' =? ioreg)
  | _, _ => false
  end.

(** The numbers below [n]. *)
Definition below (n : nat) : list Z := map Z.of_nat (seq 0 n).

(** An adapter that never delivers a byte: every IN transfer is in error
    or empty. *)
Definition silent (adapter : nat -> reply) : Prop :=
  forall i, rstatus (adapter i) < 0 \/ rdata (adapter i) = [].

(** A reply that delivers no byte to an IN transfer. *)
Definition quiet (r : reply) : Prop := rstatus r < 0 \/ rdata r = [].

(** The bytes that a reply delivers to a read-back of the timings. *)
Definition readback (r : reply) : list Z := map u8 (take 128 (rdata r)).

(** The 16-bit little-endian sample number [i] of a read-back. *)
Definition sample (d : list Z) (i : Z) : Z :=
  nth (Z.to_nat (2 * i)) d 0 + 256 * nth (Z.to_nat (2 * i + 1)) d 0.

(** The sum of the [n] samples from number [i] on. *)
Fixpoint samples_sum (d : list Z) (i : Z) (n : nat) : Z :=
  match n with
  | O => 0
  | S n' => sample d i + samples_sum d (i + 1) n'
  end.

(** The sum of the last nine samples of a read-back. *)
Definition last9 (d : list Z) : Z := samples_sum d (zlen d / 2 - 9) 9.

(** The state after [m] polls of the adapter, 20 ms apart. *)
Fixpoint polled (size : Z) (m : nat) (s : State) : State :=
  match m with
  | O => s
  | S m' => polled size m' (log_event (In_ 0 size) (add_Elapsed 20 s))
  end.

(** The state in which [DwBreakAndSync] calls [SetDwireBaud]: the break has
    been sent and 120 ms have passed. *)
Definition broke (s : State) : State := add_Elapsed 120 (log_event (Out 33 []) s).

(** Nine samples of 82, as the adapter delivers them. *)
Definition nine_82 : list Z := List.concat (repeat [82; 0] 9).

(** An adapter for the connection: it takes the break, delivers nine
    samples of 82 to the first poll, and takes the timing. *)
Definition adapter_82 (i : nat) : reply :=
  match i with
  | 1%nat => Reply 0 nine_82
  | _ => Reply 0 []
  end.

(** An adapter whose first read-back is nine samples of 0xFFFF. *)
Definition adapter_ffff (i : nat) : reply :=
  match i with
  | 0%nat => Reply 0 (repeat 255 18)
  | _ => Reply 0 []
  end.

(** The program at its start, with the handle open. *)
Definition opened : State := set_Port true initial.

(** The addresses of the data area that the read loop of the target must
    not touch: r28..r31 (the cached registers, r30 and r31 being the pointer
    Z of the loop) and DWDR. *)
Definition hazard (DWDRaddr x : Z) : Prop := 28 <= x <= 31 \/ x = DWDRaddr.

(** A bulk read of [len] bytes from [addr] that touches no such address. *)
Definition clear_of (DWDRaddr : Z) (read : Z * Z) : Prop :=
  forall x, fst read <= x < fst read + snd read -> ~ hazard DWDRaddr x.

(** The shadow is [r], and the bulk reads made since the history was [l0]
    are all clear. *)
Definition reads_clear (DWDRaddr : Z) (r : list Z) (l0 : list (Z * Z)) (s : State) : Prop :=
  R s = r /\
  exists new, BulkReads s = l0 ++ new /\ Forall (clear_of DWDRaddr) new.

(** [buf'] is [buf] below the position [pos]. *)
Definition keeps_below (pos : Z) (buf buf' : list Z) : Prop :=
  forall i, 0 <= i < pos -> nth (Z.to_nat i) buf' 0 = nth (Z.to_nat i) buf 0.

(** An adapter for [DwReconnect]: it takes the request, answers the word
    00 00, takes the register read and answers 0A 0B 0C 0D. *)
Definition adapter_pc0 (i : nat) : reply :=
  match i with
  | 1%nat => Reply 0 [0x00; 0x00]
  | 3%nat => Reply 0 [0x0A; 0x0B; 0x0C; 0x0D]
  | _ => Reply 128 []
  end.

(** A byte. *)
Definition is_byte (b : Z) : Prop := 0 <= b <= 255.

(** An adapter that takes every transfer at once. *)
Definition accepts (adapter : nat -> reply) : Prop :=
  forall i, 128 <= rstatus (adapter i).

(** A connected session with nothing left to send and the shadow [r]. *)
Definition ready (r : list Z) (s : State) : Prop :=
  Port s = true /\ wf s /\ OutBufLength s = 0 /\ R s = r.

(** The postcondition on stops of a call that returns. *)
Definition never : stop -> State -> Prop := fun _ _ => False.

(** A stop through [Fail] that leaves the USB handle closed. *)
Definition abandoned (w : stop) (s : State) : Prop := failed w /\ Port s = false.

(** The values that [SetDwireBaud] leaves in [cyclesPerPulse]. *)
Definition calibrated (s : State) : Prop := 8 <= cyclesPerPulse s <= 393218.

(** The number of breaks (mode 33) in a log. *)
Fixpoint breaks (l : list event) : nat :=
  match l with
  | [] => O
  | Out 33 _ :: l' => S (breaks l')
  | _ :: l' => breaks l'
  end.

(** The progress dots of [DwBreakAndSync]. *)
Definition dots (k : nat) : list output := List.concat (repeat [PutC "."%char; PutFlush] k).

(** A session whose arrays have their sizes: the outbound buffer is well
    formed and the shadow has its 32 registers. *)
Definition live (s : State) : Prop := wf s /\ zlen (R s) = 32.

(** A session on which a read may follow: the handle is open, or there is
    something to flush (the flush opens the handle). *)
Definition primed (s : State) : Prop := Port s = true \/ 0 < OutBufLength s.

(** [m] is defined on the live sessions that satisfy [P]: it returns in a
    live session that satisfies [Q], or it stops through [Fail] with the
    handle closed, in a live session. *)
Definition defined {A : Type} (P : State -> Prop) (m : M A) (Q : A -> State -> Prop) : Prop :=
  triple (fun s => live s /\ P s) m (fun a s => live s /\ Q a s)
    (fun w s => abandoned w s /\ live s).

(** [m] only adds to the outbound buffer, shipping full blocks when it
    overflows: run on a well-formed buffer it returns with a well-formed
    buffer, not empty if the buffer was not or if [some] bytes are sent,
    and with the handle open if it was; or it stops through [Fail] with the
    handle closed. *)
Definition sends (m : M unit) (some : Prop) : Prop :=
  forall s, wf s ->
    match m s with
    | Ok _ s' =>
        wf s' /\ (some \/ 0 < OutBufLength s -> 0 < OutBufLength s') /\
        (Port s = true -> Port s' = true)
    | Stop w s' => abandoned w s'
    end.

(** How a call may end: it returns in a live session with [Q], or it stops
    through [Fail] with the handle closed, in a live session. *)
Definition ends_well {A : Type} (o : outcome A) (Q : A -> State -> Prop) : Prop :=
  match o with
  | Ok a s' => live s' /\ Q a s'
  | Stop w s' => (failed w /\ Port s' = false) /\ live s'
  end.

(** The shadow after [DwWriteAddr] has handled the addresses from [addr]
    up to [cur]: the bytes for r28..r31 are in it, the rest is [r0]. *)
Definition shadow_written (r0 : list Z) (addr : Z) (buf : list Z) (cur : Z) (r : list Z) : Prop :=
  zlen r = 32 /\
  forall a, 0 <= a < 32 ->
    nth (Z.to_nat a) r 0 =
    if (28 <=? a) && (addr <=? a) && (a <? cur)
    then nth (Z.to_nat (a - addr)) buf 0
    else nth (Z.to_nat a) r0 0.

(** Bulk reads that follow one another from [a] up to [b], with no gap and
    no overlap. *)
Fixpoint tiles (a b : Z) (l : list (Z * Z)) : Prop :=
  match l with
  | [] => a = b
  | (x, n) :: l' => x = a /\ tiles (a + n) b l'
  end.

(** The address bytes of [DwSetPC] and [DwSetBP] for a 16-bit address. *)
Definition address_bytes (a : Z) : list Z := [Z.lor (hi (u16 a)) 0x10; lo (u16 a)].

(** The bytes that a reply delivers to an IN transfer of [inlen] bytes:
    none when the reply is an error. *)
Definition delivery (inlen : Z) (r : reply) : list Z :=
  if rstatus r <? 0 then [] else map u8 (take inlen (rdata r)).

(** The status of an IN transfer that delivers nothing: the error of the
    adapter, or 0. *)
Definition poll_status (r : reply) : Z := if rstatus r <? 0 then rstatus r else 0.

(** An adapter that answers its first transfer with nothing, the second
    with an error and the third with the bytes AB CD. *)
Definition adapter_late (i : nat) : reply :=
  match i with
  | 1%nat => Reply (-1) []
  | 2%nat => Reply 0 [0xAB; 0xCD]
  | _ => Reply 0 []
  end.

(** How an operation of the pipeline may end, as far as the outbound
    buffer goes: it returns or it stops through [Fail], and the buffer is
    well formed either way.  No access went outside an array and no
    [Assert] failed. *)
Definition bounded {A : Type} (o : outcome A) : Prop :=
  wf (final o) /\
  match o with
  | Ok _ _ => True
  | Stop w _ => failed w
  end.

(** ** Lists, arrays and C conversions *)

Lemma zlen_nonneg {A : Type} (l : list A) : 0 <= zlen l.
Proof. unfold zlen. lia. Qed.

Lemma zlen_app {A : Type} (l1 l2 : list A) : zlen (l1 ++ l2) = zlen l1 + zlen l2.
Proof. unfold zlen. rewrite length_app. lia. Qed.

Lemma zlen_cons {A : Type} (a : A) (l : list A) : zlen (a :: l) = 1 + zlen l.
Proof. unfold zlen. simpl List.length. lia. Qed.

Lemma zlen_map {A B : Type} (f : A -> B) (l : list A) : zlen (map f l) = zlen l.
Proof. unfold zlen. now rewrite length_map. Qed.

Lemma zlen_take {A : Type} (n : Z) (l : list A) : zlen (take n l) = Z.max 0 (Z.min n (zlen l)).
Proof. unfold zlen, take. rewrite length_firstn. lia. Qed.

Lemma zlen_drop {A : Type} (n : Z) (l : list A) : zlen (drop n l) = zlen l - Z.max 0 (Z.min n (zlen l)).
Proof. unfold zlen, drop. rewrite length_skipn. lia. Qed.

Lemma zlen_repeat {A : Type} (a : A) (n : nat) : zlen (repeat a n) = Z.of_nat n.
Proof. unfold zlen. now rewrite repeat_length. Qed.

Lemma take_drop {A : Type} (n : Z) (l : list A) : take n l ++ drop n l = l.
Proof. apply firstn_skipn. Qed.

Lemma In_drop {A : Type} (n : Z) (l : list A) (a : A) : In a (drop n l) -> In a l.
Proof. intros H. rewrite <- (take_drop n l). apply in_or_app. now right. Qed.

Lemma take_all {A : Type} (n : Z) (l : list A) : zlen l <= n -> take n l = l.
Proof. unfold zlen, take. intros H. apply firstn_all2. lia. Qed.

Lemma take_app_exact {A : Type} (n : Z) (l1 l2 : list A) :
  zlen l1 = n -> take n (l1 ++ l2) = l1.
Proof.
  unfold zlen, take. intros H. rewrite firstn_app.
  replace (Z.to_nat n - List.length l1)%nat with 0%nat by lia.
  rewrite firstn_all2 by lia. simpl. apply app_nil_r.
Qed.

Lemma drop_app_exact {A : Type} (n : Z) (l1 l2 : list A) :
  zlen l1 = n -> drop n (l1 ++ l2) = l2.
Proof.
  unfold zlen, drop. intros H. rewrite skipn_app.
  replace (Z.to_nat n - List.length l1)%nat with 0%nat by lia.
  rewrite skipn_all2 by lia. reflexivity.
Qed.

Lemma drop_drop {A : Type} (n m : Z) (l : list A) :
  0 <= n -> 0 <= m -> drop n (drop m l) = drop (m + n) l.
Proof.
  unfold drop. intros Hn Hm. rewrite skipn_skipn. f_equal. lia.
Qed.

Lemma take_nonempty {A : Type} (n : Z) (l : list A) :
  0 < n -> n <= zlen l -> take n l <> [].
Proof.
  intros Hn Hl H. assert (E : zlen (take n l) = 0) by now rewrite H.
  rewrite zlen_take in E. lia.
Qed.

Lemma memcpy_Some (dst : list Z) (off : Z) (src : list Z) (n : Z) (dst' : list Z) :
  memcpy dst off src n = Some dst' ->
  0 <= off /\ 0 <= n /\ off + n <= zlen dst /\ n <= zlen src /\
  dst' = take off dst ++ take n src ++ drop (off + n) dst /\
  zlen dst' = zlen dst.
Proof.
  unfold memcpy. intros H.
  destruct ((0 <=? off) && (0 <=? n) && (off + n <=? zlen dst) && (n <=? zlen src)) eqn:E;
    [|discriminate].
  rewrite !andb_true_iff in E. destruct E as [[[E1 E2] E3] E4].
  injection H as <-. repeat split; try lia.
  rewrite !zlen_app, !zlen_take, zlen_drop. lia.
Qed.

Lemma memcpy_fits (dst : list Z) (off : Z) (src : list Z) (n : Z) :
  0 <= off -> 0 <= n -> off + n <= zlen dst -> n <= zlen src ->
  memcpy dst off src n = Some (take off dst ++ take n src ++ drop (off + n) dst).
Proof.
  intros H1 H2 H3 H4. unfold memcpy.
  replace (0 <=? off) with true by (symmetry; lia).
  replace (0 <=? n) with true by (symmetry; lia).
  replace (off + n <=? zlen dst) with true by (symmetry; lia).
  replace (n <=? zlen src) with true by (symmetry; lia).
  reflexivity.
Qed.

Lemma size_t_small (x : Z) : 0 <= x <= INT_MAX + 128 -> size_t x = x.
Proof. unfold size_t, INT_MAX. intros H. apply Z.mod_small. lia. Qed.

(** ** The monad and the triples *)

Lemma preserves_ret {A : Type} (I : State -> Prop) (a : A) : preserves I (ret a).
Proof. intros s H. exact H. Qed.

Lemma preserves_bind {A B : Type} (I : State -> Prop) (m : M A) (f : A -> M B) :
  preserves I m -> (forall a, preserves I (f a)) -> preserves I (bind m f).
Proof.
  intros Hm Hf s H. unfold bind. specialize (Hm s H).
  destruct (m s) as [a s'|w s']; simpl in *.
  - apply Hf, Hm.
  - exact Hm.
Qed.

Lemma preserves_stop {A : Type} (I : State -> Prop) (w : stop) :
  preserves I (@stop_with A w).
Proof. intros s H. exact H. Qed.

Lemma preserves_read {A : Type} (I : State -> Prop) (g : State -> A) :
  preserves I (read g).
Proof. intros s H. exact H. Qed.

Lemma preserves_modify (I : State -> Prop) (g : State -> State) :
  (forall s, I s -> I (g s)) -> preserves I (modify g).
Proof. intros Hg s H. apply Hg, H. Qed.

Lemma preserves_in_bounds {A : Type} (I : State -> Prop) (o : option A) :
  preserves I (in_bounds o).
Proof. destruct o; intros s H; exact H. Qed.

Lemma preserves_Assert (I : State -> Prop) (b : bool) : preserves I (Assert b).
Proof. destruct b; intros s H; exact H. Qed.

(** A value read from the state may be used to reason on what follows. *)
Lemma preserves_read_bind {A B : Type} (I : State -> Prop) (g : State -> A) (f : A -> M B) :
  (forall s, I s -> I (final (f (g s) s))) -> preserves I (bind (read g) f).
Proof. intros Hf s H. unfold bind, read. apply Hf, H. Qed.

Lemma preserves_in_bounds_bind {A B : Type} (I : State -> Prop) (o : option A) (f : A -> M B) :
  (forall a, o = Some a -> preserves I (f a)) -> preserves I (bind (in_bounds o) f).
Proof.
  intros Hf s H. destruct o as [a|]; unfold bind; simpl.
  - now apply Hf.
  - exact H.
Qed.

Lemma preserves_at {A : Type} (I : State -> Prop) (m : M A) (s : State) :
  preserves I m -> I s -> I (final (m s)).
Proof. intros H. apply H. Qed.

Lemma bind_read {A B : Type} (g : State -> A) (f : A -> M B) (s : State) :
  bind (read g) f s = f (g s) s.
Proof. reflexivity. Qed.

Lemma bind_modify {B : Type} (g : State -> State) (f : unit -> M B) (s : State) :
  bind (modify g) f s = f tt (g s).
Proof. reflexivity. Qed.

Lemma bind_ret {A B : Type} (a : A) (f : A -> M B) (s : State) :
  bind (ret a) f s = f a s.
Proof. reflexivity. Qed.

Lemma bind_in_bounds {A B : Type} (o : option A) (f : A -> M B) (s : State) :
  bind (in_bounds o) f s =
  match o with Some a => f a s | None => Stop OutOfBounds s end.
Proof. destruct o; reflexivity. Qed.

Lemma bind_Assert {B : Type} (b : bool) (f : unit -> M B) (s : State) :
  bind (Assert b) f s = if b then f tt s else Stop AssertFailed s.
Proof. destruct b; reflexivity. Qed.

Lemma bind_Ok {A B : Type} (m : M A) (f : A -> M B) (s s' : State) (a : A) :
  m s = Ok a s' -> bind m f s = f a s'.
Proof. intros H. unfold bind. now rewrite H. Qed.

Lemma bind_Stop {A B : Type} (m : M A) (f : A -> M B) (s s' : State) (w : stop) :
  m s = Stop w s' -> bind m f s = Stop w s'.
Proof. intros H. unfold bind. now rewrite H. Qed.

Lemma bind_bind {A B C : Type} (m : M A) (f : A -> M B) (g : B -> M C) (s : State) :
  bind (bind m f) g s = bind m (fun a => bind (f a) g) s.
Proof. unfold bind. destruct (m s); reflexivity. Qed.

Lemma triple_ret {A : Type} (P : State -> Prop) (a : A)
    (Q : A -> State -> Prop) (E : stop -> State -> Prop) :
  (forall s, P s -> Q a s) -> triple P (ret a) Q E.
Proof. intros H s Hs. apply H, Hs. Qed.

Lemma triple_bind {A B : Type} (P : State -> Prop) (m : M A) (f : A -> M B)
    (Q1 : A -> State -> Prop) (Q : B -> State -> Prop) (E : stop -> State -> Prop) :
  triple P m Q1 E -> (forall a, triple (Q1 a) (f a) Q E) -> triple P (bind m f) Q E.
Proof.
  intros Hm Hf s Hs. unfold bind. specialize (Hm s Hs).
  destruct (m s) as [a s'|w s'].
  - apply Hf, Hm.
  - exact Hm.
Qed.

Lemma triple_weaken {A : Type} (P P' : State -> Prop) (m : M A)
    (Q Q' : A -> State -> Prop) (E E' : stop -> State -> Prop) :
  triple P' m Q' E' ->
  (forall s, P s -> P' s) -> (forall a s, Q' a s -> Q a s) -> (forall w s, E' w s -> E w s) ->
  triple P m Q E.
Proof.
  intros Hm HP HQ HE s Hs. specialize (Hm s (HP s Hs)).
  destruct (m s); auto.
Qed.

(** An invariant and a fact on the result combine. *)
Lemma triple_of_preserves {A : Type} (I : State -> Prop) (m : M A) (Q : A -> Prop) :
  preserves I m -> returns m Q ->
  triple I m (fun a s => I s /\ Q a) (fun _ s => I s).
Proof.
  intros Hp Hr s Hs. specialize (Hp s Hs). specialize (Hr s).
  destruct (m s); simpl in *; auto.
Qed.

(** ** What the transport and the buffer leave alone

    One proof per function, for every property that is a [frame]; the
    invariants of the specification are instances. *)

Ltac frame_step :=
  match goal with
  | |- preserves _ (bind _ _) => apply preserves_bind; [|intros]
  | |- preserves _ (ret _) => apply preserves_ret
  | |- preserves _ (stop_with _) => apply preserves_stop
  | |- preserves _ (Fail _) => apply preserves_stop
  | |- preserves _ (read _) => apply preserves_read
  | |- preserves _ (in_bounds _) => apply preserves_in_bounds
  | |- preserves _ (Assert _) => apply preserves_Assert
  | |- preserves _ (if ?b then _ else _) => destruct b
  | |- preserves _ (match ?x with _ => _ end) => destruct x
  end.

Create HintDb frame.

Section TransportFrames.

Variable adapter : nat -> reply.
Variable attached : bool.
Variable I : State -> Prop.
Hypothesis HT : tframe I.

Lemma delay_frame ms : preserves I (delay ms).
Proof. apply preserves_modify. intros. now apply frame_elapsed. Qed.

Lemma print_frame o : preserves I (modify (print o)).
Proof. apply preserves_modify. intros. now apply frame_print. Qed.

Lemma cpp_frame (g : State -> Z) :
  preserves I (modify (fun s => set_cyclesPerPulse (g s) s)).
Proof. apply preserves_modify. intros. now apply frame_cpp. Qed.

Lemma PortFail_frame {A : Type} msg : preserves I (@PortFail A msg).
Proof.
  unfold PortFail. frame_step; [|frame_step].
  apply preserves_modify. intros. now apply frame_port.
Qed.

Lemma usb_control_msg_out_frame value bytes size :
  (size <= zlen bytes -> carries (Out value (take size bytes))) ->
  preserves I (usb_control_msg_out adapter value bytes size).
Proof.
  intros Hc s H. unfold usb_control_msg_out.
  destruct (Port s); [|exact H].
  destruct (size <=? zlen bytes) eqn:E; [|exact H].
  simpl. apply frame_log; auto. apply Hc. lia.
Qed.

Lemma usb_control_msg_in_frame value bytes size :
  preserves I (usb_control_msg_in adapter value bytes size).
Proof.
  intros s H. unfold usb_control_msg_in.
  destruct (Port s); [|exact H].
  destruct (rstatus (adapter (Calls s)) <? 0); simpl.
  - apply frame_log; simpl; auto.
  - destruct (_ <=? _); simpl; apply frame_log; simpl; auto.
Qed.

Hint Resolve delay_frame print_frame cpp_frame usb_control_msg_in_frame : frame.
Hint Extern 1 (preserves _ (PortFail _)) => apply PortFail_frame : frame.
Hint Extern 1 (preserves _ (Ws _)) => apply print_frame : frame.
Hint Extern 1 (preserves _ (Wsl _)) => apply print_frame : frame.
Hint Extern 1 (preserves _ (Wd _ _)) => apply print_frame : frame.
Hint Extern 1 (preserves _ (Wc _)) => apply print_frame : frame.
Hint Extern 1 (preserves _ Wl) => apply print_frame : frame.
Hint Extern 1 (preserves _ Flush) => apply print_frame : frame.

Ltac frames := repeat first [frame_step | solve [eauto with frame]].

Lemma read_timings_frame n status times :
  preserves I (read_timings adapter n status times).
Proof.
  revert status times. induction n as [|n IH]; intros status times; simpl; frames.
Qed.
Hint Resolve read_timings_frame : frame.

Lemma sum_times_frame fuel i mc times : preserves I (sum_times fuel i mc times).
Proof.
  revert i. induction fuel as [|fuel IH]; intros i; simpl; frames.
Qed.
Hint Resolve sum_times_frame : frame.

Lemma SetDwireBaud_on_frame times0 : preserves I (SetDwireBaud_on adapter times0).
Proof.
  unfold SetDwireBaud_on. frames.
  apply usb_control_msg_out_frame. intros _ E. discriminate E.
Qed.

Lemma SetDwireBaud_frame : preserves I (SetDwireBaud adapter).
Proof. apply SetDwireBaud_on_frame. Qed.
Hint Resolve SetDwireBaud_frame : frame.

Lemma DwBreakAndSync_loop_frame n : preserves I (DwBreakAndSync_loop adapter n).
Proof.
  induction n as [|n IH]; simpl; frames.
  apply usb_control_msg_out_frame. intros _ E. discriminate E.
Qed.

Lemma ConnectPort_frame : preserves I (ConnectPort adapter attached).
Proof.
  unfold ConnectPort, DwBreakAndSync. frames.
  - apply preserves_modify. intros. now apply frame_port.
  - apply DwBreakAndSync_loop_frame.
Qed.
Hint Resolve ConnectPort_frame : frame.

Lemma send_retry_frame n state out outlen status :
  (state = 0x14 -> 0 < outlen) ->
  preserves I (send_retry adapter n state out outlen status).
Proof.
  intros Hc. revert status. induction n as [|n IH]; intros status; simpl; frames.
  apply usb_control_msg_out_frame. intros Hl E. apply take_nonempty; auto.
Qed.

Lemma dwUSBSendBytes_frame state out outlen :
  (state = 0x14 -> 0 < outlen) ->
  preserves I (dwUSBSendBytes adapter attached state out outlen).
Proof.
  intros Hc. unfold dwUSBSendBytes. frames.
  - apply usb_control_msg_out_frame. intros Hl E. apply take_nonempty; auto.
  - now apply send_retry_frame.
Qed.

End TransportFrames.

Section Frames.

Variable adapter : nat -> reply.
Variable attached : bool.
Variable DWDRreg : Z.
Variable I : State -> Prop.
Hypothesis HI : frame I.

Let HT : tframe I := frame_transport I HI.

Hint Resolve delay_frame print_frame cpp_frame usb_control_msg_in_frame
  PortFail_frame read_timings_frame SetDwireBaud_frame ConnectPort_frame : frame.
Hint Extern 1 (preserves _ (Ws _)) => apply print_frame : frame.
Hint Extern 1 (preserves _ (Wsl _)) => apply print_frame : frame.
Hint Extern 1 (preserves _ (Wd _ _)) => apply print_frame : frame.

Ltac frames := repeat first [frame_step | solve [eauto with frame]].

Lemma dwBufferFlush_frame state : preserves I (dwBufferFlush adapter attached state).
Proof.
  unfold dwBufferFlush. apply preserves_read_bind. intros s H.
  destruct (0 <? OutBufLength s) eqn:E; [|exact H].
  revert s H E. intros s0 H0 E.
  assert (P : preserves I
    (bytes <- read OutBufBytes;;
     dwUSBSendBytes adapter attached state bytes (OutBufLength s0);;
     modify (fun s => set_OutBuf (OutBufBytes s) 0 s))).
  { frames.
    - apply dwUSBSendBytes_frame; [exact HT|lia].
    - apply preserves_modify. intros s H. apply frame_buf; auto.
      intros [W _]. split; [exact W|lia]. }
  apply P, H0.
Qed.
Hint Resolve dwBufferFlush_frame : frame.

Lemma DwSend_loop_frame fuel out outlen :
  preserves I (DwSend_loop adapter attached fuel out outlen).
Proof.
  revert out outlen. induction fuel as [|fuel IH]; intros out outlen s H;
    cbn [DwSend_loop]; rewrite bind_read;
    destruct (size_t (OutBufLength s + outlen) >? sizeof_OutBufBytes);
    try exact H.
  rewrite bind_read, bind_in_bounds.
  destruct (memcpy _ _ _ _) as [bytes'|] eqn:E; [|exact H].
  apply memcpy_Some in E. destruct E as (E1 & E2 & E3 & _ & _ & E4).
  rewrite bind_modify. apply preserves_at.
  - frames.
    + apply dwUSBSendBytes_frame; [exact HT|discriminate].
    + apply preserves_modify. intros s2 H2. apply frame_buf; auto.
      intros [W _]. split; [exact W|lia].
  - apply frame_buf; auto.
    intros [W1 W2]. unfold sizeof_OutBufBytes in *. lia.
Qed.

Lemma DwSend_frame out outlen : preserves I (DwSend adapter attached out outlen).
Proof.
  unfold DwSend. apply preserves_bind; [apply DwSend_loop_frame|].
  intros [out' outlen'] s H. rewrite bind_read, bind_Assert.
  destruct (_ <=? _); [|exact H].
  rewrite bind_read, bind_in_bounds.
  destruct (memcpy _ _ _ _) as [bytes'|] eqn:E; [|exact H].
  apply memcpy_Some in E. destruct E as (E1 & E2 & E3 & _ & _ & E4).
  simpl. apply frame_buf; auto. intros [W1 W2]. lia.
Qed.

Lemma DwSendBytes_frame b : preserves I (DwSendBytes adapter attached b).
Proof. apply DwSend_frame. Qed.
Hint Resolve DwSend_frame DwSendBytes_frame : frame.

Lemma receive_retry_frame n status buf inlen :
  preserves I (receive_retry adapter n status buf inlen).
Proof.
  revert status buf. induction n as [|n IH]; intros status buf; simpl; frames.
Qed.
Hint Resolve receive_retry_frame : frame.

Lemma DwReceive_frame buf inlen : preserves I (DwReceive adapter attached buf inlen).
Proof. unfold DwReceive. frames. Qed.
Hint Resolve DwReceive_frame : frame.

Lemma DwFlush_frame : preserves I (DwFlush adapter attached).
Proof. unfold DwFlush. frames. Qed.

Lemma DwWait_frame : preserves I (DwWait adapter attached).
Proof. unfold DwWait. frames. Qed.

Lemma DwSync_frame : preserves I (DwSync adapter attached).
Proof. unfold DwSync. frames. Qed.

Lemma DwReadByte_frame : preserves I (DwReadByte adapter attached).
Proof. unfold DwReadByte. frames. Qed.

Lemma DwReadWord_frame : preserves I (DwReadWord adapter attached).
Proof. unfold DwReadWord. frames. Qed.

Lemma DwSetPC_frame pc : preserves I (DwSetPC adapter attached pc).
Proof. unfold DwSetPC. frames. Qed.

Lemma DwSetBP_frame bp : preserves I (DwSetBP adapter attached bp).
Proof. unfold DwSetBP. frames. Qed.

Lemma DwInst_frame inst : preserves I (DwInst adapter attached inst).
Proof. unfold DwInst. frames. Qed.
Hint Resolve DwFlush_frame DwWait_frame DwSync_frame DwReadByte_frame
  DwReadWord_frame DwSetPC_frame DwSetBP_frame DwInst_frame : frame.

Lemma DwIn_frame reg ioreg : preserves I (DwIn adapter attached reg ioreg).
Proof. unfold DwIn. frames. Qed.

Lemma DwOut_frame ioreg reg : preserves I (DwOut adapter attached ioreg reg).
Proof. unfold DwOut. frames. Qed.
Hint Resolve DwIn_frame DwOut_frame : frame.

Lemma DwGetRegs_frame first regs count :
  preserves I (DwGetRegs adapter attached DWDRreg first regs count).
Proof. unfold DwGetRegs. frames. Qed.

Lemma DwSetReg_frame reg val : preserves I (DwSetReg adapter attached DWDRreg reg val).
Proof. unfold DwSetReg. frames. Qed.
Hint Resolve DwGetRegs_frame DwSetReg_frame : frame.

Lemma DwSetRegs_loop_frame fuel first regs count :
  preserves I (DwSetRegs_loop adapter attached DWDRreg fuel first regs count).
Proof.
  revert first regs count.
  induction fuel as [|fuel IH]; intros first regs count; cbn [DwSetRegs_loop]; frames.
Qed.
Hint Resolve DwSetRegs_loop_frame : frame.

Lemma DwSetRegs_frame first regs count :
  preserves I (DwSetRegs adapter attached DWDRreg first regs count).
Proof. unfold DwSetRegs. frames. Qed.
Hint Resolve DwSetRegs_frame : frame.

Lemma DwSetZ_frame z : preserves I (DwSetZ adapter attached DWDRreg z).
Proof. unfold DwSetZ. frames. Qed.

End Frames.

(** ** Instances *)

Lemma wf_frame : frame wf.
Proof.
  split; [split|]; unfold wf; simpl; auto.
Qed.

Lemma carrying_frame : frame (fun s => Forall carries (Log s)).
Proof.
  split; [split|]; simpl; auto.
  intros e s He H. apply Forall_app. split; auto.
Qed.

Lemma same_session_frame (s0 : State) : frame (same_session s0).
Proof.
  split; [split|]; unfold same_session; simpl; auto.
Qed.

Lemma same_buffer_tframe (s0 : State) : tframe (same_buffer s0).
Proof.
  split; unfold same_buffer; simpl; auto.
Qed.

Lemma tframe_and (I J : State -> Prop) :
  tframe I -> tframe J -> tframe (fun s => I s /\ J s).
Proof.
  intros [I1 I2 I3 I4 I5] [J1 J2 J3 J4 J5].
  split; intros; split; intuition auto.
Qed.

Lemma frame_and (I J : State -> Prop) : frame I -> frame J -> frame (fun s => I s /\ J s).
Proof.
  intros [[I1 I2 I3 I4 I5] I6] [[J1 J2 J3 J4 J5] J6].
  split; [split|]; intros; split; intuition auto.
Qed.

(** ** The transport on an open handle *)

Section OpenPort.

Variable adapter : nat -> reply.
Variable attached : bool.

Lemma usb_control_msg_out_open value bytes size s :
  Port s = true -> size <= zlen bytes ->
  usb_control_msg_out adapter value bytes size s =
  Ok (rstatus (adapter (Calls s))) (log_event (Out value (take size bytes)) s).
Proof.
  intros HP Hs. unfold usb_control_msg_out. rewrite HP.
  replace (size <=? zlen bytes) with true by (symmetry; lia). reflexivity.
Qed.

Lemma repeat_snoc {A : Type} (a : A) (n : nat) : repeat a n ++ [a] = a :: repeat a n.
Proof. induction n as [|n IH]; simpl; [reflexivity|now rewrite IH]. Qed.

(** The retries repeat the same transfer; the handle stays open. *)
Lemma send_retry_open n state out outlen status s :
  Port s = true -> outlen <= zlen out ->
  exists status' s' m,
    send_retry adapter n state out outlen status s = Ok status' s' /\
    Port s' = true /\
    Log s' = Log s ++ repeat (Out state (take outlen out)) m /\
    (0 < status -> m = 0%nat) /\
    (status' = status \/ exists i, status' = rstatus (adapter i)).
Proof.
  intros HP Hl. revert status s HP.
  induction n as [|n IH]; intros status s HP; simpl.
  - exists status, s, 0%nat. simpl. rewrite app_nil_r. repeat split; auto.
  - destruct (status <=? 0) eqn:E.
    + unfold bind at 1, delay, modify.
      unfold bind at 1.
      rewrite usb_control_msg_out_open by (simpl; auto).
      destruct (IH (rstatus (adapter (Calls (add_Elapsed 20 s))))
                  (log_event (Out state (take outlen out)) (add_Elapsed 20 s)))
        as (st' & s' & m & E1 & E2 & E3 & _ & E5); [exact HP|].
      exists st', s', (S m). rewrite E1. simpl in E3.
      repeat split; auto; try lia.
      * rewrite E3, <- app_assoc. reflexivity.
      * right. destruct E5 as [->|E5]; eauto.
    + exists status, s, 0%nat. simpl. rewrite app_nil_r.
      repeat split; auto.
Qed.

(** One transport on an open handle: one attempt or more of the same
    transfer, and nothing else on the bus.  It fails only through [Fail],
    on an adapter that takes less than [outlen] bytes; an adapter that
    never answers with an error or with nothing gets one attempt. *)
Lemma dwUSBSendBytes_open state out outlen s :
  Port s = true -> outlen <= zlen out ->
  exists n,
    Log (final (dwUSBSendBytes adapter attached state out outlen s)) =
      Log s ++ repeat (Out state (take outlen out)) (S n) /\
    match dwUSBSendBytes adapter attached state out outlen s with
    | Ok _ s' => Port s' = true
    | Stop w _ => failed w /\ exists i, rstatus (adapter i) < outlen
    end /\
    ((forall i, 0 < rstatus (adapter i)) -> n = 0%nat).
Proof.
  intros HP Hl. unfold dwUSBSendBytes.
  rewrite bind_read, HP, bind_ret.
  rewrite (bind_Ok _ _ _ _ _ (usb_control_msg_out_open _ _ _ _ HP Hl)).
  destruct (send_retry_open 50 state out outlen (rstatus (adapter (Calls s)))
              (log_event (Out state (take outlen out)) s))
    as (st' & s' & m & E1 & E2 & E3 & E4 & E5); auto.
  rewrite (bind_Ok _ _ _ _ _ E1). exists m.
  simpl in E3. rewrite <- app_assoc in E3. simpl in E3.
  assert (Hm : (forall i, 0 < rstatus (adapter i)) -> m = 0%nat)
    by (intros Hp; now apply E4).
  assert (Hst : exists i, st' = rstatus (adapter i))
    by (destruct E5 as [->|E5]; eauto).
  destruct (st' <? outlen) eqn:El; simpl.
  - split; [exact E3|]. split; [|exact Hm].
    split; [now exists ""%string|].
    destruct Hst as [i ->]. exists i. lia.
  - split; [exact E3|]. split; [exact E2|exact Hm].
Qed.

(** An adapter that takes the transfer at once. *)
Lemma dwUSBSendBytes_prompt state out outlen s :
  Port s = true -> outlen <= zlen out ->
  0 < rstatus (adapter (Calls s)) -> outlen <= rstatus (adapter (Calls s)) ->
  dwUSBSendBytes adapter attached state out outlen s =
  Ok tt (add_Elapsed 3 (log_event (Out state (take outlen out)) s)).
Proof.
  intros HP Hl H1 H2. unfold dwUSBSendBytes.
  rewrite bind_read, HP, bind_ret.
  rewrite (bind_Ok _ _ _ _ _ (usb_control_msg_out_open _ _ _ _ HP Hl)).
  cbn [send_retry].
  replace (rstatus (adapter (Calls s)) <=? 0) with false by (symmetry; lia).
  rewrite bind_ret.
  replace (rstatus (adapter (Calls s)) <? outlen) with false by (symmetry; lia).
  reflexivity.
Qed.

End OpenPort.

(** ** Appending to the outbound buffer *)

Lemma drop_app_plus {A : Type} (n m : Z) (l1 l2 : list A) :
  zlen l1 = n -> 0 <= m -> drop (n + m) (l1 ++ l2) = drop m l2.
Proof.
  unfold zlen, drop. intros H Hm. rewrite skipn_app.
  rewrite skipn_all2 by lia. simpl. f_equal. lia.
Qed.

Lemma zlen_buffered (s : State) : wf s -> zlen (buffered s) = OutBufLength s.
Proof. intros [W1 W2]. unfold buffered. rewrite zlen_take. lia. Qed.

Lemma wf_push (data : list Z) (s : State) :
  wf s -> OutBufLength s + zlen data <= 128 -> wf (push data s).
Proof.
  intros [W1 W2] H. pose proof (zlen_nonneg data). unfold wf, push. simpl.
  rewrite !zlen_app, zlen_take, zlen_drop. lia.
Qed.

Lemma buffered_push (data : list Z) (s : State) :
  wf s -> OutBufLength s + zlen data <= 128 ->
  buffered (push data s) = buffered s ++ data.
Proof.
  intros W H. pose proof (zlen_buffered s W). unfold buffered, push in *. simpl.
  rewrite app_assoc. apply take_app_exact. rewrite zlen_app. lia.
Qed.

Lemma push_push (d1 d2 : list Z) (s : State) :
  wf s -> OutBufLength s + zlen d1 + zlen d2 <= 128 ->
  push d2 (push d1 s) = push (d1 ++ d2) s.
Proof.
  intros W H. pose proof (zlen_buffered s W) as B.
  pose proof (zlen_nonneg d1). pose proof (zlen_nonneg d2).
  destruct W as [W1 W2].
  unfold buffered in B. unfold push. simpl. unfold set_OutBuf. simpl.
  rewrite zlen_app. f_equal; [|lia].
  rewrite (app_assoc _ d1).
  rewrite take_app_exact by (rewrite zlen_app; lia).
  rewrite drop_app_plus by (rewrite ?zlen_app; lia).
  rewrite drop_drop by lia.
  rewrite <- !app_assoc. do 3 f_equal. f_equal. lia.
Qed.

Lemma push_nil (s : State) : wf s -> push [] s = s.
Proof.
  intros [W1 W2]. unfold push. simpl. change (zlen (@nil Z)) with 0.
  rewrite Z.add_0_r, take_drop. destruct s; reflexivity.
Qed.

Section Queues.

Variable adapter : nat -> reply.
Variable attached : bool.
Variable DWDRreg : Z.

(** The loop of [DwSend] is not entered when the bytes fit. *)
Lemma DwSend_loop_exit fuel out outlen s :
  size_t (OutBufLength s + outlen) <= sizeof_OutBufBytes ->
  DwSend_loop adapter attached fuel out outlen s = Ok (out, outlen) s.
Proof.
  intros H. destruct fuel; cbn [DwSend_loop]; rewrite bind_read;
    replace (size_t (OutBufLength s + outlen) >? sizeof_OutBufBytes) with false
      by (symmetry; lia); reflexivity.
Qed.

Variable P : State -> Prop.

Lemma queues_DwSend out outlen :
  0 <= outlen <= zlen out -> outlen <= INT_MAX ->
  queues P (DwSend adapter attached out outlen) (take outlen out).
Proof.
  intros Hl Hi s _ W Hroom.
  assert (Z : zlen (take outlen out) = outlen) by (rewrite zlen_take; lia).
  rewrite Z in Hroom. destruct W as [W1 W2].
  assert (S : size_t (OutBufLength s + outlen) = OutBufLength s + outlen)
    by (apply size_t_small; lia).
  unfold DwSend.
  rewrite (bind_Ok _ _ _ _ _ (DwSend_loop_exit _ out outlen s
             ltac:(rewrite S; unfold sizeof_OutBufBytes; lia))).
  rewrite bind_read, bind_Assert, S.
  replace (OutBufLength s + outlen <=? sizeof_OutBufBytes) with true
    by (symmetry; unfold sizeof_OutBufBytes; lia).
  rewrite bind_read, bind_in_bounds, memcpy_fits by lia.
  unfold modify, push. rewrite Z. reflexivity.
Qed.

Lemma queues_Bytes l :
  zlen l <= INT_MAX -> queues P (DwSendBytes adapter attached (Bytes l)) (map u8 l).
Proof.
  intros H. unfold DwSendBytes, Bytes, fst, snd.
  replace (map u8 l) with (take (zlen l) (map u8 l)) at 2.
  - apply queues_DwSend; [|exact H].
    unfold zlen. rewrite length_map. lia.
  - apply take_all. unfold zlen. rewrite length_map. lia.
Qed.

Lemma queues_ret : queues P (ret tt) [].
Proof. intros s _ W _. now rewrite push_nil. Qed.

Hypothesis HP : push_stable P.

Lemma queues_bind m k d1 d2 :
  queues P m d1 -> queues P k d2 -> queues P (m;; k) (d1 ++ d2).
Proof.
  intros Hm Hk s Hs W Hroom. rewrite zlen_app in Hroom.
  pose proof (zlen_nonneg d1). pose proof (zlen_nonneg d2).
  rewrite (bind_Ok _ _ _ _ _ (Hm s Hs W ltac:(lia))).
  rewrite Hk.
  - now rewrite push_push by (auto; lia).
  - now apply HP.
  - apply wf_push; auto; lia.
  - unfold push; simpl. lia.
Qed.

Lemma queues_read {A : Type} (g : State -> A) (k : A -> M unit) (v : A) d :
  (forall s, P s -> g s = v) -> queues P (k v) d ->
  queues P (x <- read g;; k x) d.
Proof.
  intros Hg Hk s Hs W Hroom. rewrite bind_read, (Hg s Hs). now apply Hk.
Qed.

(** What follows a queueing function runs on the buffer it leaves. *)
Lemma queues_run {B : Type} m d (k : unit -> M B) s :
  queues P m d -> P s -> wf s -> OutBufLength s + zlen d <= 128 ->
  bind m k s = k tt (push d s).
Proof. intros Hm Hs W Hroom. now rewrite (bind_Ok _ _ _ _ _ (Hm s Hs W Hroom)). Qed.

End Queues.

(** ** The encoder *)

Lemma zlen_nil {A : Type} : zlen (@nil A) = 0.
Proof. reflexivity. Qed.

Lemma OutBufLength_push d s : OutBufLength (push d s) = OutBufLength s + zlen d.
Proof. reflexivity. Qed.

Lemma always_stable : push_stable always.
Proof. intros d s _. exact Logic.I. Qed.

(** Room in the buffer, for lists given by their elements. *)
Ltac room :=
  rewrite ?OutBufLength_push, ?zlen_app, ?zlen_map, ?zlen_cons;
  change (zlen (@nil Z)) with 0; lia.

(** One step of a run: a function that queues, then the rest. *)
Ltac queued Hq :=
  rewrite (queues_run always _ _ _ _ Hq Logic.I);
  [ rewrite ?push_push by first [assumption | room]
  | first [assumption | apply wf_push; [assumption | room]]
  | room ].

Section Encoder.

Variable adapter : nat -> reply.
Variable attached : bool.
Variable DWDRreg : Z.

Lemma queues_DwSetPC pc :
  queues always (DwSetPC adapter attached pc)
    (map u8 [0xD0; Z.lor (hi (u16 pc)) 0x10; lo (u16 pc)]).
Proof. apply queues_Bytes. vm_compute. discriminate. Qed.

Lemma queues_DwSetBP bp :
  queues always (DwSetBP adapter attached bp)
    (map u8 [0xD1; Z.lor (hi (u16 bp)) 0x10; lo (u16 bp)]).
Proof. apply queues_Bytes. vm_compute. discriminate. Qed.

Lemma queues_DwInst inst :
  queues always (DwInst adapter attached inst)
    (map u8 [0xD2; hi (u16 inst); lo (u16 inst); 0x23]).
Proof. apply queues_Bytes. vm_compute. discriminate. Qed.

(** The bulk write of [DwSetRegs], for the four registers from r28 on. *)
Lemma queues_DwSetRegs_28 regs :
  4 <= zlen regs ->
  queues always (DwSetRegs adapter attached DWDRreg 28 regs 4)
    ([0xD0; 0x10; 0x1C; 0xD1; 0x10; 0x20; 0x66; 0xC2; 0x05; 0x20] ++ take 4 regs).
Proof.
  intros H. unfold DwSetRegs. change (4 <=? 3) with false. cbv iota.
  change ([208; 16; 28; 209; 16; 32; 102; 194; 5; 32] ++ take 4 regs)
    with ([208; 16; 28] ++ [209; 16; 32] ++ [102; 194; 5; 32] ++ take 4 regs).
  repeat (apply queues_bind; [exact always_stable| |]).
  - apply queues_DwSetPC.
  - apply queues_DwSetBP.
  - apply (queues_Bytes adapter attached always [0x66; 0xC2; 5; 0x20]).
    vm_compute. discriminate.
  - apply queues_DwSend; [lia|unfold INT_MAX; lia].
Qed.

(** [DwGo] with a breakpoint: the commands are queued, then flushed by
    [DwWait] in one piece. *)
Lemma DwGo_queue s :
  wf s -> OutBufLength s = 0 ->
  PC s = 0x0100 -> BP s = 0x0200 -> TimerEnable s = true -> 4 <= zlen (R s) ->
  DwGo adapter attached DWDRreg s =
  DwWait adapter attached
    (push (([0xD0; 0x10; 0x1C; 0xD1; 0x10; 0x20; 0x66; 0xC2; 0x05; 0x20] ++ take 4 (R s)) ++
           [0xD0; 0x10; 0x80] ++ [0xD1; 0x11; 0x00] ++ [0x41] ++ [0x30]) s).
Proof.
  intros W HL HPC HBP HTE HR.
  assert (Z4 : zlen (take 4 (R s)) = 4) by (rewrite zlen_take; lia).
  unfold DwGo. rewrite bind_read.
  queued (queues_DwSetRegs_28 (R s) HR).
  rewrite bind_read. change (PC (push _ s)) with (PC s). rewrite HPC.
  change (256 ÷ 2) with 128.
  queued (queues_DwSetPC 128 : queues always _ [0xD0; 0x10; 0x80]).
  rewrite !bind_read.
  change (BP (push _ s)) with (BP s).
  change (TimerEnable (push _ s)) with (TimerEnable s).
  rewrite HBP, HTE. change (512 <? 0) with false. cbv iota.
  change (512 ÷ 2) with 256. rewrite !bind_bind.
  queued (queues_DwSetBP 256 : queues always _ [0xD1; 0x11; 0x00]).
  queued (queues_Bytes adapter attached always [0x41] ltac:(vm_compute; discriminate)
            : queues always _ [0x41]).
  queued (queues_Bytes adapter attached always [0x30] ltac:(vm_compute; discriminate)
            : queues always _ [0x30]).
  rewrite <- !app_assoc. reflexivity.
Qed.

End Encoder.

(** ** Go *)

Section Go.

Variable adapter : nat -> reply.
Variable attached : bool.
Variable DWDRreg : Z.

Lemma buffered_push_empty d s :
  wf s -> OutBufLength s = 0 -> zlen d <= 128 -> buffered (push d s) = d.
Proof.
  intros W HL Hd. rewrite buffered_push by (auto; lia).
  unfold buffered. rewrite HL. reflexivity.
Qed.

(** C1 (amended): [DwGo] with [PC] = 0x0100, [BP] = 0x0200 and timers
    enabled, from an empty outbound buffer, queues in this order the
    encoding of [DwSetRegs(28, R, 4)], then D0 10 80 (SetPC of 0x0080), then
    D1 11 00 (SetBP of 0x0100), then 41, then 30; the buffer is then flushed
    in one piece with mode 0x0C, and nothing else goes over the bus.  The
    encoding of [DwSetRegs(28, regs, 4)] is D0 10 1C, D1 10 20, 66 C2 05 20
    and the four register values, and those of [DwGo] are four consecutive
    bytes of the shadow [R]. *)
Theorem DwGo_breakpoint_trace (s : State) :
  wf s -> OutBufLength s = 0 -> Port s = true ->
  PC s = 0x0100 -> BP s = 0x0200 -> TimerEnable s = true -> zlen (R s) = 32 ->
  let header := [0xD0; 0x10; 0x1C; 0xD1; 0x10; 0x20; 0x66; 0xC2; 0x05; 0x20] in
  (forall regs, zlen regs = 4 ->
     buffered (final (DwSetRegs adapter attached DWDRreg 28 regs 4 s)) = header ++ regs) /\
  exists k, 0 <= k <= 28 /\
    let setregs := header ++ take 4 (drop k (R s)) in
    let bytes := setregs ++ [0xD0; 0x10; 0x80] ++ [0xD1; 0x11; 0x00] ++ [0x41] ++ [0x30] in
    (exists n, Log (final (DwGo adapter attached DWDRreg s)) =
               Log s ++ repeat (Out 0x0C bytes) (S n)) /\
    match DwGo adapter attached DWDRreg s with
    | Ok _ s' => OutBufLength s' = 0
    | Stop w _ => failed w
    end.
Proof.
  intros W HL HP HPC HBP HTE HR header.
  split.
  - intros regs Hr.
    assert (T : take 4 regs = regs) by (apply take_all; lia).
    assert (Zs : zlen (header ++ regs) = 14) by (unfold header; room).
    rewrite (queues_DwSetRegs_28 adapter attached DWDRreg regs ltac:(lia) s Logic.I W)
      by (rewrite T; fold header; lia).
    rewrite T. apply buffered_push_empty; auto. fold header. lia.
  - exists 0. split; [lia|]. change (drop 0 (R s)) with (R s).
    intros setregs bytes.
    assert (HR4 : 4 <= zlen (R s)) by lia.
    assert (Z4 : zlen (take 4 (R s)) = 4) by (rewrite zlen_take; lia).
    assert (Zs : zlen setregs = 14) by (unfold setregs, header; room).
    assert (Zb : zlen bytes = 22) by (unfold bytes; rewrite zlen_app, Zs; room).
    rewrite DwGo_queue by assumption. fold header. fold setregs. fold bytes.
    pose proof (wf_push bytes s W ltac:(lia)) as [W1 W2].
    pose proof (buffered_push_empty bytes s W HL ltac:(lia)) as B.
    unfold buffered in B. rewrite OutBufLength_push, HL, Zb in B.
    change (0 + 22) with 22 in B.
    unfold DwWait, dwBufferFlush.
    rewrite bind_read, OutBufLength_push, HL, Zb.
    change (0 + 22) with 22. change (0 <? 22) with true. cbv iota.
    rewrite bind_read.
    destruct (dwUSBSendBytes_open adapter attached 0x0C
                (OutBufBytes (push bytes s)) 22 (push bytes s))
      as (n & E1 & E2 & _); [exact HP|lia|].
    rewrite B in E1. change (Log (push bytes s)) with (Log s) in E1.
    revert E1 E2.
    destruct (dwUSBSendBytes adapter attached 12 (OutBufBytes (push bytes s)) 22
                (push bytes s)) as [[] s'|w s'] eqn:Es; intros E1 E2.
    + rewrite (bind_Ok _ _ _ _ _ Es). simpl in *.
      split; [now exists n|reflexivity].
    + rewrite (bind_Stop _ _ _ _ _ Es). simpl in *.
      split; [now exists n|exact (proj1 E2)].
Qed.

End Go.

(** The theorem on a session that is halted, with an adapter that takes
    every transfer at once. *)
Lemma DwGo_breakpoint_trace_witness :
  wf halted /\ zlen (R halted) = 32 /\
  exists k, 0 <= k <= 28 /\
  exists n, Log (final (DwGo prompt true 0x2E halted)) =
            Log halted ++
            repeat (Out 0x0C (([0xD0; 0x10; 0x1C; 0xD1; 0x10; 0x20; 0x66; 0xC2; 0x05; 0x20]
                               ++ take 4 (drop k (R halted)))
                              ++ [0xD0; 0x10; 0x80] ++ [0xD1; 0x11; 0x00] ++ [0x41] ++ [0x30]))
                   (S n).
Proof.
  assert (W : wf halted) by (unfold wf, zlen; simpl; lia).
  assert (HR : zlen (R halted) = 32) by reflexivity.
  split; [exact W|]. split; [exact HR|].
  pose proof (DwGo_breakpoint_trace prompt true 0x2E halted) as H.
  specialize (H W). specialize (H eq_refl). specialize (H eq_refl).
  specialize (H eq_refl). specialize (H eq_refl). specialize (H eq_refl).
  specialize (H HR). cbv zeta in H. destruct H as (_ & k & Hk & H & _).
  exists k. split; [exact Hk|exact H].
Defined.

(** C1 as it was stated: whatever the four register values are, the log of
    [DwGo] on the halted session is not the one transfer of the claimed
    bytes; D0 11 80 is not what [DwSetPC(0x0080)] sends. *)
Lemma DwGo_claimed_trace_fails :
  ~ exists regs,
      Log (final (DwGo prompt true 0x2E halted)) =
      [Out 0x0C (([0xD0; 0x10; 0x1C; 0xD1; 0x10; 0x20; 0x66; 0xC2; 0x05; 0x20] ++ regs)
                 ++ [0xD0; 0x11; 0x80] ++ [0xD1; 0x11; 0x00] ++ [0x41] ++ [0x30])].
Proof.
  intros [regs H].
  assert (E : Log (final (DwGo prompt true 0x2E halted)) =
              [Out 0x0C [0xD0; 0x10; 0x1C; 0xD1; 0x10; 0x20; 0x66; 0xC2; 0x05; 0x20;
                         1; 2; 3; 4; 0xD0; 0x10; 0x80; 0xD1; 0x11; 0x00; 0x41; 0x30]])
    by (vm_compute; reflexivity).
  rewrite E in H. injection H as H.
  assert (L : List.length regs = 4%nat).
  { apply (f_equal (@List.length Z)) in H. rewrite !length_app in H. simpl in H. lia. }
  destruct regs as [|a [|b [|c [|d [|e regs]]]]]; try discriminate L.
  simpl in H. discriminate H.
Qed.

(** ** Send *)

Lemma transports_one e n : transports [e] (repeat e (S n)).
Proof.
  rewrite <- (app_nil_r (repeat e (S n))). apply transports_cons, transports_nil.
Qed.

Lemma chunks_count (n : Z) : 128 < n -> (n - 1) / 128 = (n - 128 - 1) / 128 + 1.
Proof.
  intros H. replace (n - 1) with (n - 128 - 1 + 1 * 128) by lia.
  now rewrite Z.div_add by lia.
Qed.

Lemma chunks_none (n : Z) : n <= 128 -> Z.to_nat ((n - 1) / 128) = 0%nat.
Proof.
  intros H. assert ((n - 1) / 128 <= 0); [|lia].
  apply Z.lt_succ_r. apply Z.div_lt_upper_bound; lia.
Qed.

Lemma chunks_length k out : List.length (chunks k out) = k.
Proof. revert out. induction k as [|k IH]; intros out; simpl; auto. Qed.

(** Every block is full when [out] is long enough. *)
Lemma chunks_full k out :
  128 * Z.of_nat k <= zlen out -> Forall (fun c => zlen c = 128) (chunks k out).
Proof.
  revert out. induction k as [|k IH]; intros out H; simpl; constructor.
  - rewrite zlen_take. lia.
  - apply IH. rewrite zlen_drop. lia.
Qed.

Section Send.

Variable adapter : nat -> reply.
Variable attached : bool.

(** The loop of [DwSend] from an empty buffer, on an open handle: it ships
    the blocks of 128 bytes but the last, one transport each. *)
Lemma DwSend_loop_empty k : forall fuel out outlen s,
  Z.to_nat ((outlen - 1) / 128) = k -> (k <= fuel)%nat ->
  wf s -> OutBufLength s = 0 -> Port s = true ->
  0 <= outlen <= zlen out -> outlen <= INT_MAX ->
  exists l,
    Log (final (DwSend_loop adapter attached fuel out outlen s)) = Log s ++ l /\
    match DwSend_loop adapter attached fuel out outlen s with
    | Ok (out', outlen') s' =>
        out' = drop (128 * Z.of_nat k) out /\ outlen' = outlen - 128 * Z.of_nat k /\
        wf s' /\ OutBufLength s' = 0 /\ Port s' = true /\ same_session s s' /\
        transports (map (Out 4) (chunks k out)) l /\
        ((forall i, 0 < rstatus (adapter i)) -> l = map (Out 4) (chunks k out))
    | Stop w s' =>
        failed w /\ (exists i, rstatus (adapter i) < 128) /\
        exists j, (j <= k)%nat /\ transports (map (Out 4) (chunks j out)) l
    end.
Proof.
  induction k as [|k IH]; intros fuel out outlen s Hk Hf W HL HP Ho Hi.
  - (* the bytes fit *)
    assert (outlen <= 128).
    { destruct (Z_le_gt_dec outlen 128) as [|G]; [assumption|].
      rewrite chunks_count in Hk by lia.
      assert (0 <= (outlen - 128 - 1) / 128) by (apply Z.div_pos; lia). lia. }
    rewrite DwSend_loop_exit
      by (rewrite HL, size_t_small; unfold sizeof_OutBufBytes, INT_MAX in *; lia).
    exists []. simpl. rewrite app_nil_r, Z.sub_0_r.
    repeat split; auto; try apply W. constructor.
  - (* one more block *)
    assert (G : 128 < outlen).
    { destruct (Z_le_gt_dec outlen 128) as [L|G]; [|lia].
      rewrite chunks_none in Hk by assumption. discriminate. }
    destruct fuel as [|fuel]; [lia|].
    destruct W as [W1 W2].
    cbn [DwSend_loop]. rewrite bind_read, HL.
    rewrite size_t_small by (unfold INT_MAX in *; lia).
    replace (0 + outlen >? sizeof_OutBufBytes) with true
      by (symmetry; unfold sizeof_OutBufBytes; lia).
    change (sizeof_OutBufBytes - 0) with 128.
    rewrite bind_read, bind_in_bounds, memcpy_fits by lia.
    rewrite bind_modify.
    set (bytes' := take 0 (OutBufBytes s) ++ take 128 out ++ drop (0 + 128) (OutBufBytes s)).
    set (s1 := set_OutBuf bytes' 0 s).
    assert (T : take sizeof_OutBufBytes bytes' = take 128 out).
    { unfold bytes'. change (take 0 (OutBufBytes s)) with (@nil Z). simpl app.
      apply take_app_exact. rewrite zlen_take. unfold sizeof_OutBufBytes. lia. }
    assert (Zb : zlen bytes' = 128).
    { unfold bytes'. rewrite !zlen_app, !zlen_take, zlen_drop. lia. }
    destruct (dwUSBSendBytes_open adapter attached 4 bytes' sizeof_OutBufBytes s1)
      as (n & E1 & E2 & E3); [exact HP|unfold sizeof_OutBufBytes; lia|].
    rewrite T in E1.
    assert (F0 : same_buffer s1 s1 /\ same_session s s1)
      by (unfold same_buffer, same_session; repeat split; reflexivity).
    pose proof (dwUSBSendBytes_frame adapter attached
                  (fun x => same_buffer s1 x /\ same_session s x)
                  (tframe_and _ _ (same_buffer_tframe s1)
                     (frame_transport _ (same_session_frame s)))
                  4 bytes' sizeof_OutBufBytes ltac:(discriminate) s1 F0) as F.
    cbv beta in F.
    revert E1 E2 F.
    destruct (dwUSBSendBytes adapter attached 4 bytes' sizeof_OutBufBytes s1)
      as [[] s2|w s2] eqn:Es; intros E1 E2 F.
    + rewrite (bind_Ok _ _ _ _ _ Es), bind_modify.
      cbn [final] in E1, F. destruct F as [[F1 F2] F3].
      set (s3 := set_OutBuf (OutBufBytes s2) 0 s2).
      destruct (IH fuel (drop 128 out) (outlen - 128) s3) as (l & L1 & L2).
      * rewrite chunks_count in Hk by lia.
        assert (0 <= (outlen - 128 - 1) / 128) by (apply Z.div_pos; lia). lia.
      * lia.
      * split; simpl; [rewrite F1; exact Zb|lia].
      * reflexivity.
      * exact E2.
      * rewrite zlen_drop. lia.
      * lia.
      * exists (repeat (Out 4 (take 128 out)) (S n) ++ l).
        split; [rewrite L1; simpl Log; rewrite E1, <- app_assoc; reflexivity|].
        destruct (DwSend_loop adapter attached fuel (drop 128 out) (outlen - 128) s3)
          as [[out' outlen'] s4|w s4].
        -- destruct L2 as (-> & -> & L3 & L4 & L5 & L6 & L7 & L8).
           split; [rewrite drop_drop by lia; f_equal; lia|].
           split; [lia|]. do 3 (split; [assumption|]).
           split.
           { unfold same_session in *. simpl in L6. intuition congruence. }
           split; [apply (transports_cons (Out 4 (take 128 out))); exact L7|].
           intros Hp. rewrite (E3 Hp), (L8 Hp). reflexivity.
        -- destruct L2 as (L3 & L4 & j & L5 & L6).
           split; [assumption|]. split; [assumption|].
           exists (S j). split; [lia|].
           apply (transports_cons (Out 4 (take 128 out))); exact L6.
    + rewrite (bind_Stop _ _ _ _ _ Es). cbn [final] in E1 |- *.
      exists (repeat (Out 4 (take 128 out)) (S n)).
      split; [exact E1|]. destruct E2 as [E2 E2'].
      split; [exact E2|]. split; [exact E2'|].
      exists 1%nat. split; [lia|]. apply transports_one.
Qed.

End Send.

Lemma residue_bounds (N : Z) :
  0 <= N ->
  let k := Z.of_nat (Z.to_nat ((N - 1) / 128)) in
  0 <= k /\ 128 * k <= N /\ N - 128 * k <= 128 /\ (1 <= N -> 1 <= N - 128 * k).
Proof.
  intros H k. pose proof (Z.div_mod (N - 1) 128 ltac:(lia)) as D.
  pose proof (Z.mod_pos_bound (N - 1) 128 ltac:(lia)) as B.
  destruct (Z.eq_dec N 0) as [->|N0].
  - subst k. change ((0 - 1) / 128) with (-1). simpl. lia.
  - assert (0 <= (N - 1) / 128) by (apply Z.div_pos; lia).
    subst k. rewrite Z2Nat.id by assumption. lia.
Qed.

Lemma take_of_drop {A : Type} (n m : Z) (l : list A) :
  0 <= n -> 0 <= m -> take n (drop m l) = drop m (take (m + n) l).
Proof.
  intros Hn Hm. unfold take, drop. rewrite firstn_skipn_comm. do 2 f_equal. lia.
Qed.

Section Chunking.

Variable adapter : nat -> reply.
Variable attached : bool.

(** [DwSend] from an empty buffer, on an open handle. *)
Lemma DwSend_empty (out : list Z) (N : Z) (s : State) :
  wf s -> OutBufLength s = 0 -> Port s = true ->
  0 <= N <= zlen out -> N <= INT_MAX ->
  let k := Z.to_nat ((N - 1) / 128) in
  exists l,
    Log (final (DwSend adapter attached out N s)) = Log s ++ l /\
    match DwSend adapter attached out N s with
    | Ok _ s' =>
        transports (map (Out 4) (chunks k out)) l /\
        ((forall i, 0 < rstatus (adapter i)) -> l = map (Out 4) (chunks k out)) /\
        OutBufLength s' = N - 128 * Z.of_nat k /\
        buffered s' = drop (128 * Z.of_nat k) (take N out)
    | Stop w _ => failed w /\ exists i, rstatus (adapter i) < 128
    end.
Proof.
  intros W HL HP HN Hi k.
  pose proof (residue_bounds N ltac:(lia)) as (K0 & K1 & K2 & K3). fold k in K0, K1, K2, K3.
  destruct (DwSend_loop_empty adapter attached k (S (List.length out)) out N s)
    as (l & L1 & L2); auto.
  { fold (zlen out). unfold zlen in *. lia. }
  exists l. unfold DwSend. revert L1 L2.
  destruct (DwSend_loop adapter attached (S (List.length out)) out N s)
    as [[out' outlen'] s1|w s1] eqn:El; intros L1 L2.
  - rewrite (bind_Ok _ _ _ _ _ El).
    destruct L2 as (-> & -> & [W1 W2] & L4 & L5 & L6 & L7 & L8).
    rewrite bind_read, L4, bind_Assert.
    rewrite size_t_small by (unfold INT_MAX in *; lia).
    replace (0 + (N - 128 * Z.of_nat k) <=? sizeof_OutBufBytes) with true
      by (symmetry; unfold sizeof_OutBufBytes; lia).
    rewrite bind_read, bind_in_bounds, memcpy_fits
      by (rewrite ?zlen_drop; lia).
    cbn [final modify OutBufLength set_OutBuf Log] in *.
    split; [exact L1|]. split; [exact L7|]. split; [exact L8|].
    split; [lia|].
    unfold buffered. cbn [OutBufLength OutBufBytes set_OutBuf].
    change (take 0 (OutBufBytes s1)) with (@nil Z). rewrite app_nil_l.
    rewrite take_app_exact by (rewrite zlen_take, zlen_drop; lia).
    rewrite take_of_drop by lia. do 2 f_equal. lia.
  - rewrite (bind_Stop _ _ _ _ _ El). cbn [final] in *.
    split; [exact L1|]. destruct L2 as (L3 & L4 & _). now split.
Qed.

(** C4 (amended): [DwSend] of [N] bytes from an empty outbound buffer.  If
    [N <= 128] the transport is not called and the [N] bytes are buffered.
    If [N > 128] the call makes exactly [k = (N-1)/128] transports of mode 4
    (send, no read), of 128 bytes each, and leaves [N - 128k] bytes
    buffered, a number between 1 and 128: that is [N/128] transports and
    [N mod 128] bytes when 128 does not divide [N], and [N/128 - 1]
    transports and 128 bytes when it does.  (A transport shows on the bus as
    one attempt, or as several when the adapter is not ready; the call
    fails only if the adapter takes less than 128 bytes.) *)
Theorem DwSend_chunking (out : list Z) (N : Z) (s : State) :
  wf s -> OutBufLength s = 0 -> Port s = true ->
  0 <= N <= zlen out -> N <= INT_MAX ->
  let k := Z.to_nat ((N - 1) / 128) in
  (N <= 128 -> DwSend adapter attached out N s = Ok tt (push (take N out) s)) /\
  (exists l,
     Log (final (DwSend adapter attached out N s)) = Log s ++ l /\
     match DwSend adapter attached out N s with
     | Ok _ s' =>
         transports (map (Out 4) (chunks k out)) l /\
         ((forall i, 0 < rstatus (adapter i)) -> l = map (Out 4) (chunks k out)) /\
         OutBufLength s' = N - 128 * Z.of_nat k /\
         buffered s' = drop (128 * Z.of_nat k) (take N out)
     | Stop w _ => failed w /\ exists i, rstatus (adapter i) < 128
     end) /\
  Forall (fun c => zlen c = 128) (chunks k out) /\
  (N mod 128 <> 0 -> Z.of_nat k = N / 128 /\ N - 128 * Z.of_nat k = N mod 128) /\
  (128 < N -> N mod 128 = 0 ->
   Z.of_nat k = N / 128 - 1 /\ N - 128 * Z.of_nat k = 128).
Proof.
  intros W HL HP HN Hi k.
  pose proof (residue_bounds N ltac:(lia)) as (K0 & K1 & K2 & K3). fold k in K0, K1, K2, K3.
  split; [|split; [|split; [|split]]].
  - intros Hs.
    apply (queues_DwSend adapter attached always out N HN Hi s Logic.I W).
    rewrite zlen_take. lia.
  - now apply DwSend_empty.
  - apply chunks_full. lia.
  - intros Hm. pose proof (Z.div_mod N 128 ltac:(lia)) as D.
    pose proof (Z.mod_pos_bound N 128 ltac:(lia)) as B.
    assert (Z.of_nat k = N / 128); [|lia].
    assert (128 * (N / 128) < N) by lia.
    assert (Z.of_nat k <= N / 128) by (apply Z.div_le_lower_bound; lia).
    assert (N / 128 < Z.of_nat k + 1); [|lia].
    apply Z.div_lt_upper_bound; lia.
  - intros G Hm. pose proof (Z.div_mod N 128 ltac:(lia)) as D.
    rewrite Hm in D.
    assert (Z.of_nat k = N / 128 - 1); [|lia].
    assert (1 <= N - 128 * Z.of_nat k) by lia. lia.
Qed.

End Chunking.

(** The theorem on 300 bytes for an adapter that takes every transfer at
    once: two transports, 44 bytes left. *)
Lemma DwSend_chunking_witness :
  wf halted /\ 0 <= 300 <= zlen (repeat 7 300) /\
  exists l,
    Log (final (DwSend prompt true (repeat 7 300) 300 halted)) = Log halted ++ l /\
    match DwSend prompt true (repeat 7 300) 300 halted with
    | Ok _ s' =>
        transports (map (Out 4) (chunks 2 (repeat 7 300))) l /\
        ((forall i, 0 < rstatus (prompt i)) -> l = map (Out 4) (chunks 2 (repeat 7 300))) /\
        OutBufLength s' = 300 - 128 * 2 /\
        buffered s' = drop (128 * 2) (take 300 (repeat 7 300))
    | Stop w _ => failed w /\ exists i, rstatus (prompt i) < 128
    end.
Proof.
  assert (W : wf halted) by (unfold wf, zlen; simpl; lia).
  assert (L : 0 <= 300 <= zlen (repeat 7 300)) by (rewrite zlen_repeat; lia).
  split; [exact W|]. split; [exact L|].
  pose proof (DwSend_chunking prompt true (repeat 7 300) 300 halted) as H.
  specialize (H W). specialize (H eq_refl). specialize (H eq_refl).
  specialize (H L). specialize (H ltac:(unfold INT_MAX; lia)).
  cbv zeta in H. destruct H as (_ & H & _). exact H.
Defined.

(** C4 as it was stated fails when 128 divides [N]: 256 bytes make one
    transport, not two, and leave 128 bytes buffered, not none. *)
Lemma DwSend_256_one_transport :
  Log (final (DwSend prompt true (repeat 7 256) 256 halted)) = [Out 4 (repeat 7 128)] /\
  OutBufLength (final (DwSend prompt true (repeat 7 256) 256 halted)) = 128 /\
  Z.of_nat (List.length (Log (final (DwSend prompt true (repeat 7 256) 256 halted))))
    <> 256 / 128 /\
  OutBufLength (final (DwSend prompt true (repeat 7 256) 256 halted)) <> 256 mod 128.
Proof.
  vm_compute. repeat split; discriminate.
Qed.

(** ** Send returns *)

Section SendReturns.

Variable adapter : nat -> reply.
Variable attached : bool.
Hypothesis adapter_accepts : accepts adapter.

(** The loop of [DwSend] returns when the adapter takes every block.  The
    first round may ship a full buffer without consuming a byte of [out];
    every other round consumes 128 bytes. *)
Lemma DwSend_loop_returns fuel : forall out outlen s,
  wf s -> Port s = true -> 0 <= outlen <= zlen out -> outlen <= INT_MAX ->
  zlen out + (if OutBufLength s =? 128 then 1 else 0) <= Z.of_nat fuel ->
  exists out' outlen' s',
    DwSend_loop adapter attached fuel out outlen s = Ok (out', outlen') s' /\
    wf s' /\ Port s' = true /\ 0 <= outlen' <= zlen out' /\
    OutBufLength s' + outlen' <= 128 /\ (1 <= outlen -> 1 <= outlen').
Proof.
  induction fuel as [|fuel IH]; intros out outlen s W HP Ho Hi Hf;
    pose proof W as [W1 W2];
    cbn [DwSend_loop]; rewrite bind_read;
    rewrite size_t_small by (unfold INT_MAX in *; lia);
    destruct (OutBufLength s + outlen >? sizeof_OutBufBytes) eqn:C;
    unfold sizeof_OutBufBytes in *;
    try (exists out, outlen, s; repeat split; auto; lia).
  - destruct (OutBufLength s =? 128) eqn:E; lia.
  - set (len := OutBufLength s) in *.
    rewrite bind_read, bind_in_bounds, memcpy_fits by lia.
    rewrite bind_modify.
    set (bytes' := take len (OutBufBytes s) ++ take (128 - len) out ++
                   drop (len + (128 - len)) (OutBufBytes s)).
    assert (Zb : zlen bytes' = 128).
    { unfold bytes'. rewrite !zlen_app, !zlen_take, zlen_drop. lia. }
    set (s1 := set_OutBuf bytes' len s).
    pose proof (adapter_accepts (Calls s1)) as Ha.
    rewrite (bind_Ok _ _ _ _ _
               (dwUSBSendBytes_prompt adapter attached 4 bytes' 128 s1 HP
                  ltac:(lia) ltac:(lia) ltac:(lia))).
    rewrite bind_modify.
    set (s3 := set_OutBuf _ 0 _).
    assert (W3 : wf s3) by (split; simpl; lia).
    assert (L3 : OutBufLength s3 = 0) by reflexivity.
    assert (Zd : zlen (drop (128 - len) out) = zlen out - (128 - len))
      by (rewrite zlen_drop; lia).
    assert (F3 : zlen (drop (128 - len) out) +
                 (if OutBufLength s3 =? 128 then 1 else 0) <= Z.of_nat fuel).
    { rewrite L3, Zd. change (0 =? 128) with false. cbv iota.
      destruct (len =? 128) eqn:E; lia. }
    destruct (IH (drop (128 - len) out) (outlen - (128 - len)) s3 W3 HP
                ltac:(lia) ltac:(lia) F3)
      as (out' & outlen' & s' & E & W' & P' & O' & B' & N').
    exists out', outlen', s'. split; [exact E|]. split; [exact W'|].
    split; [exact P'|]. split; [exact O'|]. split; [exact B'|].
    intros _. apply N'. lia.
Qed.

(** [DwSend] returns on a connected session when the adapter takes every
    block, and one byte or more leaves the buffer non-empty. *)
Lemma DwSend_returns out outlen s :
  wf s -> Port s = true -> 0 <= outlen <= zlen out -> outlen <= INT_MAX ->
  exists s',
    DwSend adapter attached out outlen s = Ok tt s' /\
    wf s' /\ Port s' = true /\ (1 <= outlen -> 1 <= OutBufLength s').
Proof.
  intros W HP Ho Hi. unfold DwSend.
  destruct (DwSend_loop_returns (S (List.length out)) out outlen s W HP Ho Hi
              ltac:(unfold zlen; destruct (OutBufLength s =? 128); lia))
    as (out' & outlen' & s' & E & [W1 W2] & P' & O' & B' & N').
  rewrite (bind_Ok _ _ _ _ _ E).
  rewrite bind_read, bind_Assert.
  rewrite size_t_small by (unfold INT_MAX in *; lia).
  replace (OutBufLength s' + outlen' <=? sizeof_OutBufBytes) with true
    by (symmetry; unfold sizeof_OutBufBytes; lia).
  rewrite bind_read, bind_in_bounds, memcpy_fits by lia.
  eexists. split; [reflexivity|]. split; [|split; [exact P'|]].
  - split; simpl; [|lia]. rewrite !zlen_app, !zlen_take, zlen_drop. lia.
  - intros H. simpl. specialize (N' H). lia.
Qed.

End SendReturns.

(** ** The invariants of the pipeline *)

Lemma size_t_le (x : Z) : 0 <= x -> size_t x <= x.
Proof. intros H. unfold size_t. apply Z.mod_le; lia. Qed.

Section Pipeline.

Variable adapter : nat -> reply.
Variable attached : bool.

(** What the loop of [DwSend] leaves to be buffered is not empty. *)
Lemma DwSend_loop_residue fuel : forall out outlen s,
  wf s -> 1 <= outlen ->
  match DwSend_loop adapter attached fuel out outlen s with
  | Ok (_, outlen') s' => wf s' /\ 1 <= outlen'
  | Stop _ _ => True
  end.
Proof.
  induction fuel as [|fuel IH]; intros out outlen s W Ho;
    cbn [DwSend_loop]; rewrite bind_read;
    destruct (size_t (OutBufLength s + outlen) >? sizeof_OutBufBytes) eqn:C;
    try (cbn; auto; fail).
  rewrite bind_read, bind_in_bounds.
  destruct (memcpy _ _ _ _) as [bytes'|] eqn:E; [|exact Logic.I].
  apply memcpy_Some in E. destruct E as (E1 & E2 & E3 & _ & _ & E4).
  rewrite bind_modify.
  set (s1 := set_OutBuf bytes' (OutBufLength s) s).
  assert (W1 : wf s1) by (destruct W; split; simpl; lia).
  pose proof (dwUSBSendBytes_frame adapter attached wf (frame_transport _ wf_frame)
                4 bytes' sizeof_OutBufBytes ltac:(discriminate) s1 W1) as F.
  destruct (dwUSBSendBytes adapter attached 4 bytes' sizeof_OutBufBytes s1)
    as [[] s2|w s2] eqn:Es.
  - rewrite (bind_Ok _ _ _ _ _ Es), bind_modify. cbn [final] in F.
    apply IH.
    + destruct F. split; simpl; lia.
    + destruct W as [_ W]. pose proof (size_t_le (OutBufLength s + outlen) ltac:(lia)).
      unfold sizeof_OutBufBytes in *. lia.
  - now rewrite (bind_Stop _ _ _ _ _ Es).
Qed.

(** [DwSend] of one byte or more leaves the buffer non-empty. *)
Lemma DwSend_residue out outlen s :
  wf s -> 1 <= outlen ->
  match DwSend adapter attached out outlen s with
  | Ok _ s' => 1 <= OutBufLength s'
  | Stop _ _ => True
  end.
Proof.
  intros W Ho. unfold DwSend.
  pose proof (DwSend_loop_residue (S (List.length out)) out outlen s W Ho) as L.
  destruct (DwSend_loop adapter attached (S (List.length out)) out outlen s)
    as [[out' outlen'] s1|w s1] eqn:El.
  - rewrite (bind_Ok _ _ _ _ _ El). destruct L as [[W1 W2] L].
    rewrite bind_read, bind_Assert. destruct (_ <=? _); [|exact Logic.I].
    rewrite bind_read, bind_in_bounds.
    destruct (memcpy _ _ _ _) as [bytes'|]; [|exact Logic.I].
    simpl. lia.
  - now rewrite (bind_Stop _ _ _ _ _ El).
Qed.

(** [dwBufferFlush] does nothing on an empty buffer. *)
Lemma dwBufferFlush_empty state s :
  OutBufLength s <= 0 -> dwBufferFlush adapter attached state s = Ok tt s.
Proof.
  intros H. unfold dwBufferFlush. rewrite bind_read.
  replace (0 <? OutBufLength s) with false by (symmetry; lia). reflexivity.
Qed.

End Pipeline.

(** ** The encodings of IN and OUT *)

Lemma below_spec (n : nat) (P : Z -> bool) :
  forallb P (below n) = true -> forall x, 0 <= x < Z.of_nat n -> P x = true.
Proof.
  intros H x Hx. rewrite forallb_forall in H. apply H.
  unfold below. apply in_map_iff. exists (Z.to_nat x).
  split; [lia|]. apply in_seq. lia.
Qed.

Lemma roundtrip_all :
  forallb (fun reg => forallb (fun ioreg => roundtrip_test reg ioreg) (below 64))
    (below 32) = true.
Proof. vm_compute. reflexivity. Qed.

Lemma roundtrip_test_true reg ioreg :
  0 <= reg <= 31 -> 0 <= ioreg <= 63 -> roundtrip_test reg ioreg = true.
Proof.
  intros Hr Ha.
  pose proof (below_spec 32 _ roundtrip_all reg ltac:(lia)) as H.
  cbv beta in H. exact (below_spec 64 _ H ioreg ltac:(lia)).
Qed.

Lemma roundtrip_decode reg ioreg :
  0 <= reg <= 31 -> 0 <= ioreg <= 63 ->
  avr_decode (in_opcode reg ioreg) = Some (AvrIn reg ioreg) /\
  avr_decode (out_opcode ioreg reg) = Some (AvrOut ioreg reg).
Proof.
  intros Hr Ha. pose proof (roundtrip_test_true reg ioreg Hr Ha) as H.
  unfold roundtrip_test in H.
  destruct (avr_decode (in_opcode reg ioreg)) as [[r a|]|]; try discriminate.
  destruct (avr_decode (out_opcode ioreg reg)) as [[|a' r']|]; try discriminate.
  rewrite !andb_true_iff, !Z.eqb_eq in H.
  destruct H as [[[-> ->] ->] ->]. split; reflexivity.
Qed.

Section Encodings.

Variable adapter : nat -> reply.
Variable attached : bool.

(** C7: for [reg] in 0..31 and [ioreg] in 0..63 the opcodes that [DwIn]
    and [DwOut] hand to [DwInst] (the two formulas of the specification)
    decode, as AVR instructions, to the IN and the OUT of the same register
    and I/O register; so each encoding is injective on that domain, and no
    IN opcode is an OUT opcode. *)
Theorem in_out_roundtrip (reg ioreg : Z) :
  0 <= reg <= 31 -> 0 <= ioreg <= 63 ->
  DwIn adapter attached reg ioreg = DwInst adapter attached (in_opcode reg ioreg) /\
  DwOut adapter attached ioreg reg = DwInst adapter attached (out_opcode ioreg reg) /\
  avr_decode (in_opcode reg ioreg) = Some (AvrIn reg ioreg) /\
  avr_decode (out_opcode ioreg reg) = Some (AvrOut ioreg reg) /\
  (forall reg' ioreg',
     0 <= reg' <= 31 -> 0 <= ioreg' <= 63 ->
     (in_opcode reg ioreg = in_opcode reg' ioreg' -> reg = reg' /\ ioreg = ioreg') /\
     (out_opcode ioreg reg = out_opcode ioreg' reg' -> reg = reg' /\ ioreg = ioreg') /\
     in_opcode reg ioreg <> out_opcode ioreg' reg').
Proof.
  intros Hr Ha.
  destruct (roundtrip_decode reg ioreg Hr Ha) as [Di Do].
  split; [|split; [|split; [|split]]]; auto.
  - unfold DwIn, u8, u16. now rewrite !Z.mod_small by lia.
  - unfold DwOut, u8, u16. now rewrite !Z.mod_small by lia.
  - intros reg' ioreg' Hr' Ha'.
    destruct (roundtrip_decode reg' ioreg' Hr' Ha') as [Di' Do'].
    split; [|split].
    + intros E. rewrite E, Di' in Di. injection Di as -> ->. auto.
    + intros E. rewrite E, Do' in Do. injection Do as -> ->. auto.
    + intros E. rewrite E, Do' in Di. discriminate.
Qed.

End Encodings.

(** [in r16, DWDR] and [out DWDR, r16] on a device with DWDR at 0x2E. *)
Lemma in_out_roundtrip_witness :
  avr_decode (in_opcode 16 0x2E) = Some (AvrIn 16 0x2E) /\
  avr_decode (out_opcode 0x2E 16) = Some (AvrOut 0x2E 16).
Proof.
  pose proof (in_out_roundtrip prompt true 16 0x2E) as H.
  specialize (H ltac:(lia)). specialize (H ltac:(lia)).
  destruct H as (_ & _ & H1 & H2 & _). split; [exact H1|exact H2].
Defined.

(** ** The register shadow *)

Section Shadow.

Variable adapter : nat -> reply.
Variable attached : bool.
Variable DWDRreg : Z.

(** C8 (amended): [DwSetRegs(28, [a,b,c,d], 4)] does not touch the shadow
    [R], however it ends: [R[28..31]] is [a,b,c,d] after the call exactly
    when it was before.  What the call does is queue the bulk write
    D0 10 1C, D1 10 20, 66 C2 05 20, a b c d for the target. *)
Theorem DwSetRegs_keeps_shadow (s : State) (a b c d : Z) :
  let s' := final (DwSetRegs adapter attached DWDRreg 28 [a; b; c; d] 4 s) in
  R s' = R s /\
  (take 4 (drop 28 (R s')) = [a; b; c; d] <-> take 4 (drop 28 (R s)) = [a; b; c; d]) /\
  (wf s -> OutBufLength s + 14 <= 128 ->
   DwSetRegs adapter attached DWDRreg 28 [a; b; c; d] 4 s =
   Ok tt (push [0xD0; 0x10; 0x1C; 0xD1; 0x10; 0x20; 0x66; 0xC2; 0x05; 0x20; a; b; c; d] s)).
Proof.
  intros s'.
  assert (E : R s' = R s).
  { apply (DwSetRegs_frame adapter attached DWDRreg _ (same_session_frame s)
             28 [a; b; c; d] 4 s).
    unfold same_session. auto. }
  split; [exact E|]. split; [now rewrite E|].
  intros W Hroom.
  apply (queues_DwSetRegs_28 adapter attached DWDRreg [a; b; c; d]
           ltac:(unfold zlen; simpl; lia) s Logic.I W).
  change (take 4 [a; b; c; d]) with [a; b; c; d].
  rewrite zlen_app, !zlen_cons, zlen_nil. lia.
Qed.

End Shadow.

(** Writing 1, 2, 3, 4 to r28..r31 of the halted session queues the bulk
    write. *)
Lemma DwSetRegs_keeps_shadow_witness :
  wf halted /\
  DwSetRegs prompt true 0x2E 28 [1; 2; 3; 4] 4 halted =
  Ok tt (push [0xD0; 0x10; 0x1C; 0xD1; 0x10; 0x20; 0x66; 0xC2; 0x05; 0x20; 1; 2; 3; 4] halted).
Proof.
  assert (W : wf halted) by (unfold wf, zlen; simpl; lia).
  split; [exact W|].
  pose proof (DwSetRegs_keeps_shadow prompt true 0x2E halted 1 2 3 4) as H.
  cbv zeta in H. destruct H as (_ & _ & H).
  specialize (H W). specialize (H ltac:(simpl; lia)). exact H.
Defined.

(** C8 as it was stated: on the halted session, whose r28..r31 hold
    29, 30, 31, 32, the shadow is not [1, 2, 3, 4] after
    [DwSetRegs(28, [1,2,3,4], 4)] has returned. *)
Lemma DwSetRegs_shadow_not_updated :
  exists s',
    DwSetRegs prompt true 0x2E 28 [1; 2; 3; 4] 4 halted = Ok tt s' /\
    take 4 (drop 28 (R s')) = [29; 30; 31; 32] /\
    take 4 (drop 28 (R s')) <> [1; 2; 3; 4].
Proof.
  eexists. split; [vm_compute; reflexivity|].
  split; vm_compute; [reflexivity|discriminate].
Qed.

(** ** Reading when nothing comes back *)

Lemma usb_control_msg_in_quiet adapter value buf size s :
  Port s = true -> quiet (adapter (Calls s)) ->
  exists status,
    usb_control_msg_in adapter value buf size s =
      Ok (status, buf) (log_event (In_ value size) s) /\
    status <= 0.
Proof.
  intros HP HQ. unfold usb_control_msg_in. rewrite HP. cbv zeta.
  destruct (rstatus (adapter (Calls s)) <? 0) eqn:E.
  - eexists. split; [reflexivity|lia].
  - destruct HQ as [H|H]; [lia|].
    rewrite H. unfold take. rewrite firstn_nil. simpl map.
    change (zlen (@nil Z)) with 0.
    replace (0 <=? zlen buf) with true by (symmetry; pose proof (zlen_nonneg buf); lia).
    exists 0. split; [reflexivity|lia].
Qed.

Section Silent.

Variable adapter : nat -> reply.
Variable attached : bool.
Hypothesis adapter_silent : silent adapter.

Lemma usb_control_msg_in_silent value buf size s :
  Port s = true ->
  exists status,
    usb_control_msg_in adapter value buf size s =
      Ok (status, buf) (log_event (In_ value size) s) /\
    status <= 0.
Proof.
  intros HP. apply usb_control_msg_in_quiet; [exact HP|apply adapter_silent].
Qed.

(** The polling loop of [DwReceive] leaves the array as it was. *)
Lemma receive_retry_silent n : forall status buf inlen s,
  Port s = true ->
  exists status' s',
    receive_retry adapter n status buf inlen s = Ok (status', buf) s' /\
    Port s' = true.
Proof.
  induction n as [|n IH]; intros status buf inlen s HP; cbn [receive_retry].
  - now exists status, s.
  - destruct (status <=? 0).
    + unfold delay. rewrite bind_modify.
      destruct (usb_control_msg_in_silent 0 buf inlen (add_Elapsed 20 s) HP)
        as (st & E & _).
      rewrite (bind_Ok _ _ _ _ _ E). apply IH. exact HP.
    + now exists status, s.
Qed.

Lemma dwBufferFlush_open state s :
  Port s = true -> wf s ->
  match dwBufferFlush adapter attached state s with
  | Ok _ s' => Port s' = true
  | Stop w _ => failed w
  end.
Proof.
  intros HP [W1 W2]. unfold dwBufferFlush. rewrite bind_read.
  destruct (0 <? OutBufLength s); [|exact HP].
  rewrite bind_read.
  destruct (dwUSBSendBytes_open adapter attached state (OutBufBytes s)
              (OutBufLength s) s HP ltac:(lia)) as (n & _ & E & _).
  destruct (dwUSBSendBytes adapter attached state (OutBufBytes s) (OutBufLength s) s)
    as [[] s'|w s'] eqn:Es.
  - rewrite (bind_Ok _ _ _ _ _ Es). exact E.
  - rewrite (bind_Stop _ _ _ _ _ Es). exact (proj1 E).
Qed.

(** [DwReceive] on a connected session: the array comes back as it was. *)
Lemma DwReceive_silent buf inlen s :
  Port s = true -> wf s -> inlen <= 128 ->
  match DwReceive adapter attached buf inlen s with
  | Ok (_, buf') _ => buf' = buf
  | Stop w _ => failed w
  end /\
  (OutBufLength s = 0 -> exists status s',
      DwReceive adapter attached buf inlen s = Ok (status, buf) s').
Proof.
  intros HP W Hi. unfold DwReceive. rewrite bind_Assert.
  replace (inlen <=? 128) with true by (symmetry; lia).
  split.
  - pose proof (dwBufferFlush_open 0x14 s HP W) as F.
    destruct (dwBufferFlush adapter attached 20 s) as [[] s1|w s1] eqn:Ef.
    + rewrite (bind_Ok _ _ _ _ _ Ef).
      destruct (receive_retry_silent 50 0 buf inlen s1 F) as (st & s2 & E & _).
      now rewrite E.
    + now rewrite (bind_Stop _ _ _ _ _ Ef).
  - intros HL.
    rewrite (bind_Ok _ _ _ _ _ (dwBufferFlush_empty adapter attached 0x14 s ltac:(lia))).
    destruct (receive_retry_silent 50 0 buf inlen s HP) as (st & s2 & E & _).
    now exists st, s2.
Qed.

(** C10: [DwReadByte] and [DwReadWord] do not look at the status of
    [DwReceive], and their local arrays start at zero: on a connected
    session, with an adapter that never delivers a byte, each of them
    returns 0 when it returns, it stops only through [Fail] (the flush of
    the pending bytes failed), and it does return 0 when there is nothing
    to flush. *)
Theorem zero_defaults (s : State) :
  Port s = true -> wf s ->
  match DwReadByte adapter attached s with
  | Ok byte _ => byte = 0
  | Stop w _ => failed w
  end /\
  match DwReadWord adapter attached s with
  | Ok word _ => word = 0
  | Stop w _ => failed w
  end /\
  (OutBufLength s = 0 ->
   (exists s', DwReadByte adapter attached s = Ok 0 s') /\
   (exists s', DwReadWord adapter attached s = Ok 0 s')).
Proof.
  intros HP W.
  destruct (DwReceive_silent [0] 1 s HP W ltac:(lia)) as [B1 B2].
  destruct (DwReceive_silent [0; 0] 2 s HP W ltac:(lia)) as [W1 W2].
  unfold DwReadByte, DwReadWord. split; [|split].
  - destruct (DwReceive adapter attached [0] 1 s) as [[st buf] s1|w s1] eqn:E.
    + rewrite (bind_Ok _ _ _ _ _ E). now subst buf.
    + now rewrite (bind_Stop _ _ _ _ _ E).
  - destruct (DwReceive adapter attached [0; 0] 2 s) as [[st buf] s1|w s1] eqn:E.
    + rewrite (bind_Ok _ _ _ _ _ E). now subst buf.
    + now rewrite (bind_Stop _ _ _ _ _ E).
  - intros HL. split.
    + destruct (B2 HL) as (st & s1 & E). exists s1.
      now rewrite (bind_Ok _ _ _ _ _ E).
    + destruct (W2 HL) as (st & s1 & E). exists s1.
      now rewrite (bind_Ok _ _ _ _ _ E).
Qed.

End Silent.

Lemma prompt_silent : silent prompt.
Proof. intros i. now right. Qed.

(** The halted session with an adapter that has nothing to say. *)
Lemma zero_defaults_witness :
  silent prompt /\ wf halted /\
  (exists s', DwReadByte prompt true halted = Ok 0 s') /\
  (exists s', DwReadWord prompt true halted = Ok 0 s').
Proof.
  assert (W : wf halted) by (unfold wf, zlen; simpl; lia).
  split; [exact prompt_silent|]. split; [exact W|].
  pose proof (zero_defaults prompt true prompt_silent halted) as H.
  specialize (H eq_refl). specialize (H W).
  destruct H as (_ & _ & H). exact (H eq_refl).
Defined.

(** ** Clock recovery *)

Lemma Log_polled size m s : Log (polled size m s) = Log s ++ repeat (In_ 0 size) m.
Proof.
  revert s. induction m as [|m IH]; intros s; simpl.
  - now rewrite app_nil_r.
  - rewrite IH. simpl. now rewrite <- app_assoc.
Qed.

Lemma Calls_polled size m s : Calls (polled size m s) = (Calls s + m)%nat.
Proof.
  revert s. induction m as [|m IH]; intros s; simpl; [lia|].
  rewrite IH. simpl. lia.
Qed.

Lemma Port_polled size m s : Port (polled size m s) = Port s.
Proof. revert s. induction m as [|m IH]; intros s; simpl; [|rewrite IH]; reflexivity. Qed.

Lemma Console_polled size m s : Console (polled size m s) = Console s.
Proof. revert s. induction m as [|m IH]; intros s; simpl; [|rewrite IH]; reflexivity. Qed.

Lemma cyclesPerPulse_polled size m s : cyclesPerPulse (polled size m s) = cyclesPerPulse s.
Proof. revert s. induction m as [|m IH]; intros s; simpl; [|rewrite IH]; reflexivity. Qed.

Lemma zlen_readback r : zlen (readback r) <= 128.
Proof.
  unfold readback, zlen. rewrite length_map. fold (zlen (take 128 (rdata r))).
  rewrite zlen_take. lia.
Qed.

Lemma readback_bytes r b : In b (readback r) -> 0 <= b <= 255.
Proof.
  unfold readback. intros H. apply in_map_iff in H. destruct H as (x & <- & _).
  unfold u8. pose proof (Z.mod_pos_bound x 256 ltac:(lia)). lia.
Qed.

Lemma set_cyclesPerPulse_twice v v' s :
  set_cyclesPerPulse v (set_cyclesPerPulse v' s) = set_cyclesPerPulse v s.
Proof. reflexivity. Qed.

(** A sample inside an array of bytes. *)
Lemma sample_range d i :
  (forall b, In b d -> 0 <= b <= 255) -> 0 <= i -> 2 * i + 1 < zlen d ->
  0 <= sample d i <= 65535.
Proof.
  intros Hb Hi Hl. unfold sample.
  assert (0 <= nth (Z.to_nat (2 * i)) d 0 <= 255)
    by (apply Hb, nth_In; unfold zlen in Hl; lia).
  assert (0 <= nth (Z.to_nat (2 * i + 1)) d 0 <= 255)
    by (apply Hb, nth_In; unfold zlen in Hl; lia).
  lia.
Qed.

Lemma sample_app d rest i :
  0 <= i -> 2 * i + 1 < zlen d -> sample (d ++ rest) i = sample d i.
Proof.
  intros Hi Hl. unfold sample. unfold zlen in Hl. now rewrite !app_nth1 by lia.
Qed.

Lemma samples_sum_app d rest n : forall i,
  0 <= i -> 2 * (i + Z.of_nat n) <= zlen d ->
  samples_sum (d ++ rest) i n = samples_sum d i n.
Proof.
  induction n as [|n IH]; intros i Hi Hl; simpl; [reflexivity|].
  rewrite sample_app, IH by lia. reflexivity.
Qed.

Lemma samples_sum_range d n : forall i,
  (forall b, In b d -> 0 <= b <= 255) -> 0 <= i -> 2 * (i + Z.of_nat n) <= zlen d ->
  0 <= samples_sum d i n <= 65535 * Z.of_nat n.
Proof.
  induction n as [|n IH]; intros i Hb Hi Hl; simpl samples_sum; [lia|].
  pose proof (sample_range d i Hb Hi ltac:(lia)).
  pose proof (IH (i + 1) Hb ltac:(lia) ltac:(lia)). lia.
Qed.

Lemma load16_sample times i :
  0 <= i -> 2 * i + 1 < zlen times -> load16 times i = Some (sample times i).
Proof.
  intros Hi Hl. unfold load16, load, sample.
  replace ((0 <=? 2 * i) && (2 * i <? zlen times)) with true by (symmetry; lia).
  replace ((0 <=? 2 * i + 1) && (2 * i + 1 <? zlen times)) with true by (symmetry; lia).
  reflexivity.
Qed.

(** The summing loop of [SetDwireBaud]: no access outside [times], no
    wrap-around of the 32-bit sum. *)
Lemma sum_times_run times n : forall fuel i mc s,
  mc - i = Z.of_nat n -> 0 <= i -> mc < 4294967296 -> 2 * mc <= zlen times ->
  (forall b, In b times -> 0 <= b <= 255) ->
  0 <= cyclesPerPulse s -> cyclesPerPulse s + 65535 * Z.of_nat n < 4294967296 ->
  (n <= fuel)%nat ->
  sum_times fuel i mc times s =
  Ok tt (set_cyclesPerPulse (cyclesPerPulse s + samples_sum times i n) s).
Proof.
  induction n as [|n IH]; intros fuel i mc s Hn Hi Hm Hl Hb Hc Hw Hf.
  - assert (E : (u32 i <? mc) = false)
      by (unfold u32; rewrite Z.mod_small by lia; lia).
    destruct fuel; cbn [sum_times]; rewrite E; simpl samples_sum;
      rewrite Z.add_0_r; destruct s; reflexivity.
  - assert (E : (u32 i <? mc) = true)
      by (unfold u32; rewrite Z.mod_small by lia; lia).
    destruct fuel as [|fuel]; [lia|]. cbn [sum_times]. rewrite E.
    rewrite bind_in_bounds, load16_sample by lia. rewrite bind_modify.
    pose proof (sample_range times i Hb Hi ltac:(lia)) as Hs.
    assert (U : u32 (cyclesPerPulse s + sample times i) = cyclesPerPulse s + sample times i)
      by (unfold u32; apply Z.mod_small; lia).
    rewrite U, IH; cbn [cyclesPerPulse set_cyclesPerPulse]; try lia; auto.
    rewrite set_cyclesPerPulse_twice. simpl samples_sum. f_equal. f_equal. lia.
Qed.

Section ClockRecovery.

Variable adapter : nat -> reply.

Lemma usb_control_msg_in_loud buf s :
  Port s = true -> 0 <= rstatus (adapter (Calls s)) -> zlen buf = 128 ->
  let d := readback (adapter (Calls s)) in
  usb_control_msg_in adapter 0 buf 128 s =
  Ok (zlen d, d ++ drop (zlen d) buf) (log_event (In_ 0 128) s).
Proof.
  intros HP Hr Hb d. unfold usb_control_msg_in. rewrite HP. cbv zeta.
  replace (rstatus (adapter (Calls s)) <? 0) with false by (symmetry; lia).
  fold (readback (adapter (Calls s))). fold d.
  pose proof (zlen_readback (adapter (Calls s))). fold d in H.
  replace (zlen d <=? zlen buf) with true by (symmetry; lia).
  reflexivity.
Qed.

(** The polls of [SetDwireBaud] stop at the first one that delivers. *)
Lemma read_timings_loud k : forall n status times s,
  (k < n)%nat -> status <= 0 -> Port s = true -> zlen times = 128 ->
  (forall j, (j < k)%nat -> quiet (adapter (Calls s + j))) ->
  0 <= rstatus (adapter (Calls s + k)) ->
  let d := readback (adapter (Calls s + k)) in
  0 < zlen d ->
  read_timings adapter n status times s =
  Ok (zlen d, d ++ drop (zlen d) times) (polled 128 (S k) s).
Proof.
  induction k as [|k IH]; intros n status times s Hn Hs HP Ht Hq Hr d Hd;
    (destruct n as [|n]; [lia|]); cbn [read_timings];
    replace (status <=? 0) with true by (symmetry; lia);
    unfold delay; rewrite bind_modify.
  - subst d. rewrite Nat.add_0_r in *.
    rewrite (bind_Ok _ _ _ _ _
               (usb_control_msg_in_loud times (add_Elapsed 20 s) HP Hr Ht)).
    cbn [Calls add_Elapsed].
    destruct n as [|n]; cbn [read_timings]; [reflexivity|].
    replace (zlen (readback (adapter (Calls s))) <=? 0) with false by (symmetry; lia).
    reflexivity.
  - destruct (usb_control_msg_in_quiet adapter 0 times 128 (add_Elapsed 20 s) HP)
      as (st & E & Hst).
    { specialize (Hq 0%nat ltac:(lia)). now rewrite Nat.add_0_r in Hq. }
    rewrite (bind_Ok _ _ _ _ _ E).
    rewrite (IH n st times (log_event (In_ 0 128) (add_Elapsed 20 s))); auto; try lia.
    + simpl Calls. now replace (S (Calls s) + k)%nat with (Calls s + S k)%nat by lia.
    + intros j Hj. simpl Calls.
      replace (S (Calls s) + j)%nat with (Calls s + S j)%nat by lia.
      apply Hq. lia.
    + simpl Calls. now replace (S (Calls s) + k)%nat with (Calls s + S k)%nat by lia.
    + simpl Calls. now replace (S (Calls s) + k)%nat with (Calls s + S k)%nat by lia.
Qed.

(** They give up after [n] polls without a byte. *)
Lemma read_timings_quiet n : forall status times s,
  status <= 0 -> Port s = true ->
  (forall j, (j < n)%nat -> quiet (adapter (Calls s + j))) ->
  exists status',
    read_timings adapter n status times s = Ok (status', times) (polled 128 n s) /\
    status' <= 0.
Proof.
  induction n as [|n IH]; intros status times s Hs HP Hq; cbn [read_timings].
  - now exists status.
  - replace (status <=? 0) with true by (symmetry; lia).
    unfold delay. rewrite bind_modify.
    destruct (usb_control_msg_in_quiet adapter 0 times 128 (add_Elapsed 20 s) HP)
      as (st & E & Hst).
    { specialize (Hq 0%nat ltac:(lia)). now rewrite Nat.add_0_r in Hq. }
    rewrite (bind_Ok _ _ _ _ _ E).
    apply IH; auto. intros j Hj. simpl Calls.
    replace (S (Calls s) + j)%nat with (Calls s + S j)%nat by lia.
    apply Hq. lia.
Qed.

End ClockRecovery.

Section Calibration.

Variable adapter : nat -> reply.

Lemma u32_small x : 0 <= x < 4294967296 -> u32 x = x.
Proof. intros H. unfold u32. now apply Z.mod_small. Qed.

Lemma last9_range d :
  (forall b, In b d -> 0 <= b <= 255) -> 18 <= zlen d -> 0 <= last9 d <= 589815.
Proof.
  intros Hb Hl. unfold last9.
  pose proof (Z.div_mod (zlen d) 2 ltac:(lia)).
  pose proof (Z.mod_pos_bound (zlen d) 2 ltac:(lia)).
  pose proof (samples_sum_range d 9 (zlen d / 2 - 9) Hb ltac:(lia) ltac:(lia)).
  lia.
Qed.

(** [SetDwireBaud] when the poll number [k] is the first to deliver, and
    delivers at least 18 bytes. *)
Lemma SetDwireBaud_calibrates k s :
  Port s = true -> (k < 5)%nat ->
  (forall j, (j < k)%nat -> quiet (adapter (Calls s + j))) ->
  0 <= rstatus (adapter (Calls s + k)) ->
  let d := readback (adapter (Calls s + k)) in
  18 <= zlen d ->
  let cpp := 6 * last9 d / 9 + 8 in
  let dwBitTime := u16 ((cpp - 8) / 4) in
  let s' := log_event (Out 2 (le16_bytes dwBitTime))
              (set_cyclesPerPulse cpp (polled 128 (S k) s)) in
  SetDwireBaud adapter s =
  if rstatus (adapter (Calls s + S k)) <? 0
  then Stop (Failure "Failed to set debugWIRE port baud rate") (set_Port false s')
  else Ok 1 s'.
Proof.
  intros HP Hk Hq Hr d Hd cpp dwBitTime s'.
  assert (Hb : forall b, In b d -> 0 <= b <= 255) by (apply readback_bytes).
  pose proof (zlen_readback (adapter (Calls s + k))) as Hd'. fold d in Hd'.
  pose proof (last9_range d Hb Hd) as HS.
  pose proof (Z.div_mod (zlen d) 2 ltac:(lia)) as Dm.
  pose proof (Z.mod_pos_bound (zlen d) 2 ltac:(lia)) as Db.
  assert (H6 : 0 <= 6 * last9 d / 9 <= 393210).
  { split; [apply Z.div_pos; lia|]. apply Z.div_le_upper_bound; lia. }
  unfold SetDwireBaud, SetDwireBaud_on.
  rewrite (bind_Ok _ _ _ _ _
             (read_timings_loud adapter k 5 0 (repeat 0 128) s Hk ltac:(lia) HP
                ltac:(now rewrite zlen_repeat) Hq Hr ltac:(fold d; lia))).
  fold d. replace (zlen d <? 18) with false by (symmetry; lia).
  set (times := d ++ drop (zlen d) (repeat 0 128)).
  assert (Zt : zlen times = 128).
  { unfold times. rewrite zlen_app, zlen_drop, zlen_repeat. lia. }
  assert (Bt : forall b, In b times -> 0 <= b <= 255).
  { intros b Hin. unfold times in Hin. apply in_app_or in Hin.
    destruct Hin as [Hin|Hin]; [now apply Hb|].
    apply In_drop, repeat_spec in Hin. lia. }
  rewrite (u32_small (zlen d / 2)) by lia.
  rewrite bind_modify.
  rewrite (bind_Ok _ _ _ _ _
             (sum_times_run times 9 9 (zlen d / 2 - 9) (zlen d / 2)
                (set_cyclesPerPulse 0 (polled 128 (S k) s))
                ltac:(lia) ltac:(lia) ltac:(lia) ltac:(lia) Bt
                ltac:(simpl; lia) ltac:(simpl; lia) ltac:(lia))).
  cbn [cyclesPerPulse set_cyclesPerPulse]. rewrite set_cyclesPerPulse_twice.
  replace (samples_sum times (zlen d / 2 - 9) 9) with (last9 d)
    by (unfold times, last9; now rewrite samples_sum_app by lia).
  rewrite bind_modify. cbn [cyclesPerPulse set_cyclesPerPulse].
  rewrite set_cyclesPerPulse_twice, Z.add_0_l.
  rewrite (u32_small (6 * last9 d)) by lia.
  rewrite (u32_small (6 * last9 d / 9 + 8)) by lia. fold cpp.
  rewrite bind_read. cbn [cyclesPerPulse set_cyclesPerPulse].
  rewrite (u32_small (cpp - 8)) by (unfold cpp; lia). fold dwBitTime.
  rewrite bind_in_bounds, memcpy_fits
    by (unfold le16_bytes; rewrite ?zlen_cons, ?zlen_nil; lia).
  set (s1 := set_cyclesPerPulse cpp (polled 128 (S k) s)).
  assert (HP1 : Port s1 = true) by (unfold s1; simpl; now rewrite Port_polled).
  set (times' := take 0 times ++ take 2 (le16_bytes dwBitTime) ++ drop (0 + 2) times).
  assert (Zt' : 2 <= zlen times').
  { unfold times'. rewrite !zlen_app, zlen_drop, Zt.
    pose proof (zlen_nonneg (take 0 times)).
    pose proof (zlen_nonneg (take 2 (le16_bytes dwBitTime))). lia. }
  rewrite (bind_Ok _ _ _ _ _ (usb_control_msg_out_open adapter 2 times' 2 s1 HP1 Zt')).
  assert (Ec : Calls s1 = (Calls s + S k)%nat)
    by (unfold s1; simpl; rewrite Calls_polled; simpl; lia).
  rewrite Ec.
  assert (Et : take 2 times' = le16_bytes dwBitTime) by reflexivity.
  rewrite Et. fold s'.
  destruct (rstatus (adapter (Calls s + S k)) <? 0); reflexivity.
Qed.

(** [SetDwireBaud] when the poll number [k] is the first to deliver, and
    delivers less than 18 bytes: no timing is sent. *)
Lemma SetDwireBaud_rejects k s :
  Port s = true -> (k < 5)%nat ->
  (forall j, (j < k)%nat -> quiet (adapter (Calls s + j))) ->
  0 <= rstatus (adapter (Calls s + k)) ->
  let d := readback (adapter (Calls s + k)) in
  0 < zlen d < 18 ->
  SetDwireBaud adapter s = Ok 0 (polled 128 (S k) s).
Proof.
  intros HP Hk Hq Hr d Hd.
  unfold SetDwireBaud, SetDwireBaud_on.
  rewrite (bind_Ok _ _ _ _ _
             (read_timings_loud adapter k 5 0 (repeat 0 128) s Hk ltac:(lia) HP
                ltac:(now rewrite zlen_repeat) Hq Hr ltac:(fold d; lia))).
  fold d. replace (zlen d <? 18) with true by (symmetry; lia). reflexivity.
Qed.

(** [SetDwireBaud] when no poll delivers. *)
Lemma SetDwireBaud_gives_up s :
  Port s = true ->
  (forall j, (j < 5)%nat -> quiet (adapter (Calls s + j))) ->
  SetDwireBaud adapter s = Ok 0 (polled 128 5 s).
Proof.
  intros HP Hq. unfold SetDwireBaud, SetDwireBaud_on.
  destruct (read_timings_quiet adapter 5 0 (repeat 0 128) s ltac:(lia) HP Hq)
    as (st & E & Hst).
  rewrite (bind_Ok _ _ _ _ _ E).
  replace (st <? 18) with true by (symmetry; lia). reflexivity.
Qed.

End Calibration.

Section BreakAndSync.

Variable adapter : nat -> reply.
Variable attached : bool.

Lemma le16_bytes_u16 t : 0 <= t < 65536 -> le16_bytes t = [t mod 256; t / 256].
Proof.
  intros H. unfold le16_bytes.
  change 255 with (Z.ones 8). rewrite !Z.land_ones by lia.
  rewrite Z.shiftr_div_pow2 by lia. change (2 ^ 8) with 256.
  rewrite (Z.mod_small (t / 256)); [reflexivity|].
  split; [apply Z.div_pos; lia|apply Z.div_lt_upper_bound; lia].
Qed.

Lemma DwBreakAndSync_breaks n s0 :
  Port s0 = true -> 0 <= rstatus (adapter (Calls s0)) ->
  DwBreakAndSync_loop adapter (S n) s0 =
  (connected <-
     (ok <- SetDwireBaud adapter;;
      if ok =? 0 then ret false
      else
        cpp <- read cyclesPerPulse;;
        Ws "Connected at ";; Wd (16500000 / cpp) 1;; Wsl " baud.";;
        ret true);;
   if connected : bool then ret tt
   else Wc "."%char;; Flush;; DwBreakAndSync_loop adapter n) (broke s0).
Proof.
  intros HP Hr. cbn [DwBreakAndSync_loop].
  rewrite (bind_Ok _ _ _ _ _
             (usb_control_msg_out_open adapter 33 [] 0 s0 HP ltac:(unfold zlen; simpl; lia))).
  replace (0 <=? rstatus (adapter (Calls s0))) with true by (symmetry; lia).
  rewrite bind_bind. unfold delay. rewrite bind_modify. reflexivity.
Qed.

(** A rejected read-back is followed by the next attempt. *)
Lemma DwBreakAndSync_retries n s0 s1 :
  Port s0 = true -> 0 <= rstatus (adapter (Calls s0)) ->
  SetDwireBaud adapter (broke s0) = Ok 0 s1 ->
  DwBreakAndSync_loop adapter (S n) s0 =
  DwBreakAndSync_loop adapter n (print PutFlush (print (PutC "."%char) s1)).
Proof.
  intros HP Hr E. rewrite DwBreakAndSync_breaks by assumption.
  rewrite bind_bind, (bind_Ok _ _ _ _ _ E). reflexivity.
Qed.

(** An accepted one ends the loop with the report of the baud rate. *)
Lemma DwBreakAndSync_connects n s0 s1 :
  Port s0 = true -> 0 <= rstatus (adapter (Calls s0)) ->
  SetDwireBaud adapter (broke s0) = Ok 1 s1 ->
  DwBreakAndSync_loop adapter (S n) s0 =
  Ok tt (print (PutSL " baud.")
           (print (PutD (16500000 / cyclesPerPulse s1) 1)
              (print (PutS "Connected at ") s1))).
Proof.
  intros HP Hr E. rewrite DwBreakAndSync_breaks by assumption.
  rewrite bind_bind, (bind_Ok _ _ _ _ _ E). reflexivity.
Qed.

(** [DwSync] does not retry. *)
Lemma DwSync_rejected s s1 :
  OutBufLength s <= 0 -> SetDwireBaud adapter s = Ok 0 s1 ->
  DwSync adapter attached s =
  Stop (Failure "Could not read back timings following transfer and sync command")
    (set_Port false s1).
Proof.
  intros HL E. unfold DwSync.
  rewrite (bind_Ok _ _ _ _ _ (dwBufferFlush_empty adapter attached 0x24 s HL)).
  rewrite (bind_Ok _ _ _ _ _ E). reflexivity.
Qed.

(** C2 (amended): on a connected session, take the read-back of the
    timings to be the first poll (of at most five) that delivers bytes,
    [d], with [S] the sum of its last nine 16-bit little-endian samples.
    If [d] has at least 18 bytes, [SetDwireBaud] sets
    [cyclesPerPulse = (6*S)/9 + 8] and sends a mode-2 OUT whose 2-byte
    payload is the low 16 bits of [(cyclesPerPulse - 8)/4], little-endian;
    this is [dwBitTime = (cyclesPerPulse - 8)/4] itself whenever
    [S < 393216]; [DwBreakAndSync] then reports [16500000/cyclesPerPulse].
    For nine samples of 82 that is 500, the payload 7B 00, and 33000.  If
    [d] has fewer than 18 bytes, or no poll delivers, [SetDwireBaud]
    returns 0 and sends no timing; [DwBreakAndSync] goes on to its next
    attempt, and [DwSync] fails. *)
Theorem clock_recovery (s : State) (k : nat) :
  Port s = true -> (k < 5)%nat ->
  (forall j, (j < k)%nat -> quiet (adapter (Calls s + j))) ->
  0 <= rstatus (adapter (Calls s + k)) ->
  let d := readback (adapter (Calls s + k)) in
  (18 <= zlen d ->
   let cpp := 6 * last9 d / 9 + 8 in
   let dwBitTime := ((cpp - 8) / 4) mod 65536 in
   let s' := final (SetDwireBaud adapter s) in
   cyclesPerPulse s' = cpp /\
   Log s' = Log s ++ repeat (In_ 0 128) (S k) ++ [Out 2 [dwBitTime mod 256; dwBitTime / 256]] /\
   (last9 d < 393216 -> dwBitTime = (cpp - 8) / 4) /\
   (d = nine_82 -> cpp = 500 /\ dwBitTime = 0x7B /\ 16500000 / cpp = 33000) /\
   (0 <= rstatus (adapter (Calls s + S k)) ->
    SetDwireBaud adapter s = Ok 1 s' /\
    forall n s0,
      Port s0 = true -> 0 <= rstatus (adapter (Calls s0)) -> broke s0 = s ->
      Console (final (DwBreakAndSync_loop adapter (S n) s0)) =
      Console s0 ++ [PutS "Connected at "; PutD (16500000 / cpp) 1; PutSL " baud."])) /\
  (0 < zlen d < 18 ->
   SetDwireBaud adapter s = Ok 0 (polled 128 (S k) s) /\
   Log (polled 128 (S k) s) = Log s ++ repeat (In_ 0 128) (S k) /\
   (forall n s0,
      Port s0 = true -> 0 <= rstatus (adapter (Calls s0)) -> broke s0 = s ->
      DwBreakAndSync_loop adapter (S n) s0 =
      DwBreakAndSync_loop adapter n
        (print PutFlush (print (PutC "."%char) (polled 128 (S k) s)))) /\
   (OutBufLength s <= 0 ->
    DwSync adapter attached s =
    Stop (Failure "Could not read back timings following transfer and sync command")
      (set_Port false (polled 128 (S k) s)))).
Proof.
  intros HP Hk Hq Hr d. split.
  - intros Hd cpp dwBitTime s'.
    pose proof (SetDwireBaud_calibrates adapter k s HP Hk Hq Hr Hd) as E.
    cbv zeta in E. fold d in E. fold cpp in E.
    change (u16 ((cpp - 8) / 4)) with dwBitTime in E.
    assert (Ht : 0 <= dwBitTime < 65536) by (apply Z.mod_pos_bound; lia).
    rewrite (le16_bytes_u16 dwBitTime Ht) in E.
    pose proof (last9_range d (readback_bytes _) Hd) as HS.
    assert (H6 : 0 <= 6 * last9 d / 9) by (apply Z.div_pos; lia).
    assert (Es : cyclesPerPulse s' = cpp /\
                 Log s' = Log s ++ repeat (In_ 0 128) (S k) ++
                          [Out 2 [dwBitTime mod 256; dwBitTime / 256]]).
    { unfold s'. rewrite E.
      destruct (rstatus (adapter (Calls s + S k)) <? 0);
        cbn [final cyclesPerPulse Log set_Port log_event set_cyclesPerPulse];
        rewrite Log_polled, <- app_assoc; split; reflexivity. }
    destruct Es as [Es1 Es2].
    split; [exact Es1|]. split; [exact Es2|]. split; [|split].
    + intros Hs. unfold dwBitTime. apply Z.mod_small.
      split; [apply Z.div_pos; unfold cpp; lia|].
      apply Z.div_lt_upper_bound; [lia|]. unfold cpp.
      assert (6 * last9 d / 9 < 262144); [|lia].
      apply Z.div_lt_upper_bound; lia.
    + intros Ed. unfold dwBitTime, cpp. rewrite Ed. vm_compute. auto.
    + intros Ho.
      assert (Eok : SetDwireBaud adapter s = Ok 1 s').
      { unfold s'. rewrite E.
        replace (rstatus (adapter (Calls s + S k)) <? 0) with false by (symmetry; lia).
        reflexivity. }
      split; [exact Eok|].
      intros n s0 HP0 Hr0 Hb. subst s.
      rewrite (DwBreakAndSync_connects n s0 s' HP0 Hr0 Eok).
      cbn [final Console print]. rewrite Es1.
      assert (Ec : Console s' = Console s0).
      { unfold s'. rewrite E.
        replace (rstatus (adapter (Calls (broke s0) + S k)) <? 0) with false
          by (symmetry; lia).
        cbn [final Console log_event set_cyclesPerPulse].
        now rewrite Console_polled. }
      rewrite Ec, <- !app_assoc. reflexivity.
  - intros Hd.
    pose proof (SetDwireBaud_rejects adapter k s HP Hk Hq Hr Hd) as E.
    split; [exact E|]. split; [apply Log_polled|]. split.
    + intros n s0 HP0 Hr0 Hb. subst s.
      now apply DwBreakAndSync_retries.
    + intros HL. now apply DwSync_rejected.
Qed.

(** When no poll delivers, the attempt is rejected as well. *)
Lemma clock_recovery_no_readback n s0 :
  Port s0 = true -> 0 <= rstatus (adapter (Calls s0)) ->
  (forall j, (j < 5)%nat -> quiet (adapter (Calls (broke s0) + j))) ->
  SetDwireBaud adapter (broke s0) = Ok 0 (polled 128 5 (broke s0)) /\
  DwBreakAndSync_loop adapter (S n) s0 =
  DwBreakAndSync_loop adapter n
    (print PutFlush (print (PutC "."%char) (polled 128 5 (broke s0)))).
Proof.
  intros HP Hr Hq.
  pose proof (SetDwireBaud_gives_up adapter (broke s0) HP Hq) as E.
  split; [exact E|]. now apply DwBreakAndSync_retries.
Qed.

End BreakAndSync.

(** The connection of the specification: the adapter answers the break
    with nine samples of 82. *)
Example ConnectPort_82 :
  exists s',
    ConnectPort adapter_82 true initial = Ok tt s' /\
    cyclesPerPulse s' = 500 /\
    Log s' = [Out 33 []; In_ 0 128; Out 2 [0x7B; 0x00]] /\
    Console s' = [PutS "Connected at "; PutD 33000 1; PutSL " baud."].
Proof.
  eexists. split; [vm_compute; reflexivity|]. repeat split.
Qed.

(** The theorem on that connection, from the state in which the break has
    been sent. *)
Lemma clock_recovery_witness :
  0 <= rstatus (adapter_82 (Calls (broke opened) + 0)) /\
  18 <= zlen (readback (adapter_82 (Calls (broke opened) + 0))) /\
  cyclesPerPulse (final (SetDwireBaud adapter_82 (broke opened))) = 500 /\
  Log (final (SetDwireBaud adapter_82 (broke opened))) =
    Log (broke opened) ++ repeat (In_ 0 128) 1 ++ [Out 2 [0x7B; 0x00]].
Proof.
  assert (Hr : 0 <= rstatus (adapter_82 (Calls (broke opened) + 0))) by (simpl; lia).
  assert (Hd : 18 <= zlen (readback (adapter_82 (Calls (broke opened) + 0))))
    by (vm_compute; discriminate).
  split; [exact Hr|]. split; [exact Hd|].
  pose proof (clock_recovery adapter_82 true (broke opened) 0) as H.
  specialize (H eq_refl). specialize (H ltac:(lia)).
  specialize (H ltac:(intros j Hj; lia)). specialize (H Hr).
  cbv zeta in H. destruct H as [H _]. specialize (H Hd).
  destruct H as (H1 & H2 & _). split; [exact H1|exact H2].
Defined.

(** C2 as it was stated: for nine samples of 0xFFFF the payload of the
    mode-2 OUT is FE 7F, that is 32766, and not
    [(cyclesPerPulse - 8)/4 = 98302], which does not fit two bytes. *)
Lemma SetDwireBaud_truncates_dwBitTime :
  cyclesPerPulse (final (SetDwireBaud adapter_ffff opened)) = 6 * (9 * 65535) / 9 + 8 /\
  Log (final (SetDwireBaud adapter_ffff opened)) = [In_ 0 128; Out 2 [0xFE; 0x7F]] /\
  0xFE + 256 * 0x7F <> (cyclesPerPulse (final (SetDwireBaud adapter_ffff opened)) - 8) / 4.
Proof.
  vm_compute. repeat split; discriminate.
Qed.

(** ** Reading the data area *)

Lemma returns_bind {A B : Type} (m : M A) (f : A -> M B) (Q : B -> Prop) :
  (forall a, returns (f a) Q) -> returns (bind m f) Q.
Proof.
  intros Hf s. unfold bind. destruct (m s) as [a s'|w s']; [apply Hf|exact Logic.I].
Qed.

Lemma returns_ret {A : Type} (a : A) (Q : A -> Prop) : Q a -> returns (ret a) Q.
Proof. intros H s. exact H. Qed.

(** What follows a call runs in a state and on a result that satisfy the
    triple of the call. *)
Lemma triple_run {A B : Type} (P : State -> Prop) (m : M A)
    (Q : A -> State -> Prop) (E : stop -> State -> Prop)
    (f : A -> M B) (Post : outcome B -> Prop) (s : State) :
  triple P m Q E -> P s ->
  (forall a s1, Q a s1 -> Post (f a s1)) ->
  (forall w s1, E w s1 -> Post (Stop w s1)) ->
  Post (bind m f s).
Proof.
  intros Hm Hs Hq He. unfold bind. specialize (Hm s Hs).
  destruct (m s) as [a s1|w s1]; auto.
Qed.

Lemma keeps_below_refl pos buf : keeps_below pos buf buf.
Proof. intros i _. reflexivity. Qed.

Lemma keeps_below_trans pos pos' buf1 buf2 buf3 :
  pos <= pos' -> keeps_below pos buf1 buf2 -> keeps_below pos' buf2 buf3 ->
  keeps_below pos buf1 buf3.
Proof.
  intros Hp H12 H23 i Hi. rewrite H23 by lia. now apply H12.
Qed.

Lemma nth_take {A : Type} (n i : Z) (l : list A) (d : A) :
  0 <= i < n -> nth (Z.to_nat i) (take n l) d = nth (Z.to_nat i) l d.
Proof.
  intros H. unfold take.
  rewrite <- (firstn_skipn (Z.to_nat n) l) at 2.
  destruct (Nat.lt_ge_cases (Z.to_nat i) (List.length (firstn (Z.to_nat n) l))) as [L|L].
  - now rewrite app_nth1.
  - rewrite (nth_overflow (firstn _ _)) by lia.
    rewrite length_firstn in L.
    rewrite nth_overflow; [reflexivity|].
    rewrite length_app, length_firstn, length_skipn. lia.
Qed.

(** A store in an array. *)
Lemma store_Some buf pos v buf' :
  store buf pos v = Some buf' ->
  0 <= pos < zlen buf /\ nth (Z.to_nat pos) buf' 0 = v /\ keeps_below pos buf buf'.
Proof.
  unfold store. destruct ((0 <=? pos) && (pos <? zlen buf)) eqn:E; [|discriminate].
  intros H. injection H as <-. apply andb_true_iff in E. destruct E as [E1 E2].
  assert (Zt : List.length (take pos buf) = Z.to_nat pos).
  { unfold take. rewrite length_firstn. unfold zlen in E2. lia. }
  split; [lia|]. split.
  - rewrite app_nth2 by lia. now rewrite Zt, Nat.sub_diag.
  - intros i Hi. rewrite app_nth1 by lia. now apply nth_take.
Qed.

(** A callee that works at [buf + pos] leaves [buf] as it is below [pos]. *)
Lemma at_offset_keeps pos buf f :
  returns (at_offset pos buf f) (keeps_below pos buf).
Proof.
  unfold at_offset. destruct ((0 <=? pos) && (pos <=? zlen buf)) eqn:E;
    [|intros s; exact Logic.I].
  apply andb_true_iff in E. destruct E as [E1 E2].
  apply returns_bind. intros rest. apply returns_ret.
  intros i Hi.
  assert (Zt : List.length (take pos buf) = Z.to_nat pos).
  { unfold take. rewrite length_firstn. unfold zlen in E2. lia. }
  rewrite app_nth1 by lia. now apply nth_take.
Qed.

Section ReadAddr.

Variable adapter : nat -> reply.
Variable attached : bool.
Variables DWDRreg DWDRaddr : Z.
Variable r : list Z.
Variable l0 : list (Z * Z).

Let J : State -> Prop := reads_clear DWDRaddr r l0.

Lemma reads_clear_frame : frame J.
Proof.
  split; [split|]; unfold J, reads_clear; simpl; auto.
Qed.

Lemma reads_clear_note addr len s :
  clear_of DWDRaddr (addr, len) -> J s -> J (note_BulkRead addr len s).
Proof.
  intros Hc [HR (new & E & F)]. split; [exact HR|].
  exists (new ++ [(addr, len)]). simpl. rewrite E, app_assoc. split; [reflexivity|].
  apply Forall_app. split; [exact F|]. now constructor.
Qed.

(** A bulk read that is clear keeps the invariant, however it ends. *)
Lemma DwUnsafeReadAddr_clear addr len buf :
  clear_of DWDRaddr (addr, len) ->
  preserves J (DwUnsafeReadAddr adapter attached DWDRreg addr len buf).
Proof.
  intros Hc. unfold DwUnsafeReadAddr.
  pose proof reads_clear_frame as HF.
  apply preserves_bind.
  { apply preserves_modify. intros s. now apply reads_clear_note. }
  intros _. apply preserves_bind; [now apply DwSetZ_frame|]. intros _.
  apply preserves_bind; [now apply DwSetPC_frame|]. intros _.
  apply preserves_bind; [now apply DwSetBP_frame|]. intros _.
  apply preserves_bind; [now apply DwSendBytes_frame|]. intros _.
  apply preserves_bind; [now apply DwReceive_frame|]. intros [st buf'].
  apply preserves_ret.
Qed.

Lemma at_offset_clear pos buf addr len :
  clear_of DWDRaddr (addr, len) ->
  triple J (at_offset pos buf (DwUnsafeReadAddr adapter attached DWDRreg addr len))
    (fun buf' s => J s /\ keeps_below pos buf buf') (fun _ s => J s).
Proof.
  intros Hc. apply triple_of_preserves; [|apply at_offset_keeps].
  unfold at_offset. destruct ((0 <=? pos) && (pos <=? zlen buf)).
  - apply preserves_bind; [now apply DwUnsafeReadAddr_clear|].
    intros rest. apply preserves_ret.
  - apply preserves_stop.
Qed.

End ReadAddr.

Lemma triple_assume {A : Type} (P0 : Prop) (P : State -> Prop) (m : M A)
    (Q : A -> State -> Prop) (E : stop -> State -> Prop) :
  (P0 -> triple P m Q E) -> triple (fun s => P s /\ P0) m Q E.
Proof. intros H s [Hs H0]. now apply H. Qed.

Lemma triple_in_bounds {A : Type} (P : State -> Prop) (o : option A) :
  triple P (in_bounds o) (fun a s => P s /\ o = Some a) (fun _ s => P s).
Proof. intros s Hs. destruct o; simpl; auto. Qed.

Lemma load_Some a i v : load a i = Some v -> v = nth (Z.to_nat i) a 0.
Proof.
  unfold load. destruct ((0 <=? i) && (i <? zlen a)); [|discriminate].
  now intros [= <-].
Qed.

(** The loop over the cached registers, entered at [addr] with more than
    [32 - addr] bytes to go: it copies [R[addr..31]] and does nothing else. *)
Lemma DwReadAddr_cached_spec fuel : forall addr len buf s,
  28 <= addr <= 32 -> Z.of_nat fuel = 32 - addr -> 32 - addr < len ->
  match DwReadAddr_cached fuel addr len addr buf s with
  | Ok (addr', len', pos', buf') s' =>
      s' = s /\ addr' = 32 /\ len' = len - (32 - addr) /\ pos' = 32 /\
      keeps_below addr buf buf' /\
      (forall a, addr <= a <= 31 -> nth (Z.to_nat a) buf' 0 = nth (Z.to_nat a) (R s) 0)
  | Stop _ s' => s' = s
  end.
Proof.
  induction fuel as [|fuel IH]; intros addr len buf s Ha Hf Hl; cbn [DwReadAddr_cached].
  - replace ((28 <=? addr) && (addr <=? 31) && (0 <? len)) with false
      by (symmetry; apply andb_false_iff; left; apply andb_false_iff; right; lia).
    unfold ret. cbv beta iota.
    split; [reflexivity|]. split; [lia|]. split; [lia|]. split; [lia|].
    split; [apply keeps_below_refl|]. intros a Ha'. lia.
  - replace ((28 <=? addr) && (addr <=? 31) && (0 <? len)) with true
      by (symmetry; rewrite !andb_true_iff; repeat split; lia).
    rewrite bind_read, bind_in_bounds.
    destruct (load (R s) addr) as [val|] eqn:El; [|reflexivity].
    apply load_Some in El. rewrite bind_in_bounds.
    destruct (store buf addr val) as [buf1|] eqn:Es; [|reflexivity].
    apply store_Some in Es. destruct Es as (Es1 & Es2 & Es3).
    specialize (IH (addr + 1) (len - 1) buf1 s ltac:(lia) ltac:(lia) ltac:(lia)).
    destruct (DwReadAddr_cached fuel (addr + 1) (len - 1) (addr + 1) buf1 s)
      as [[[[a' l'] p'] buf'] s'|w s']; [|exact IH].
    destruct IH as (-> & -> & -> & -> & K & V).
    split; [reflexivity|]. split; [lia|]. split; [lia|]. split; [lia|]. split.
    + apply (keeps_below_trans addr (addr + 1) buf buf1 buf'); auto. lia.
    + intros a Ha'. destruct (Z.eq_dec a addr) as [->|Hne].
      * rewrite K by lia. now rewrite Es2.
      * apply V. lia.
Qed.

Section ReadAddrLoops.

Variable adapter : nat -> reply.
Variable attached : bool.
Variables DWDRreg DWDRaddr : Z.
Variable r : list Z.
Variable l0 : list (Z * Z).
Hypothesis DWDR_in_io_space : 32 <= DWDRaddr.

Let J : State -> Prop := reads_clear DWDRaddr r l0.

Lemma clear_above addr len : DWDRaddr < addr -> clear_of DWDRaddr (addr, len).
Proof. intros H x Hx [Hh|Hh]; cbn [fst snd] in Hx; lia. Qed.

(** The loop over the blocks beyond DWDR. *)
Lemma DwReadAddr_chunks_clear fuel : forall addr len pos buf,
  DWDRaddr < addr ->
  triple J (DwReadAddr_chunks adapter attached DWDRreg fuel addr len pos buf)
    (fun cur s =>
       J s /\
       let '(addr', _, pos', buf') := cur in
       DWDRaddr < addr' /\ pos <= pos' /\ keeps_below pos buf buf')
    (fun _ s => J s).
Proof.
  induction fuel as [|fuel IH]; intros addr len pos buf Ha;
    cbn [DwReadAddr_chunks]; destruct (128 <? len).
  - unfold triple. intros s Hs. exact Hs.
  - apply triple_ret. intros s Hs. split; [exact Hs|].
    split; [exact Ha|]. split; [lia|apply keeps_below_refl].
  - eapply triple_bind.
    + apply at_offset_clear. now apply clear_above.
    + intros buf1. unfold triple. intros s [Hs K].
      specialize (IH (addr + 128) (len - 128) (pos + 128) buf1 ltac:(lia) s Hs).
      destruct (DwReadAddr_chunks adapter attached DWDRreg fuel (addr + 128)
                  (len - 128) (pos + 128) buf1 s) as [[[[a' l'] p'] buf'] s'|w s'];
        [|exact IH].
      destruct IH as (Hs' & A & P' & K').
      split; [exact Hs'|]. split; [exact A|]. split; [lia|].
      apply (keeps_below_trans pos (pos + 128) buf buf1 buf'); auto. lia.
  - apply triple_ret. intros s Hs. split; [exact Hs|].
    split; [exact Ha|]. split; [lia|apply keeps_below_refl].
Qed.

End ReadAddrLoops.

Section ReadAddrHazards.

Variable adapter : nat -> reply.
Variable attached : bool.
Variables DWDRreg DWDRaddr : Z.

(** [DwReadAddr(0, RAMend, buf)] over the registers and DWDR, phase by
    phase: the cursor of the function is at 28, then 32, then DWDR, then
    beyond, and every bulk read lies between two of these. *)
Lemma DwReadAddr_triple (r : list Z) (l0 : list (Z * Z)) (RAMend : Z) (buf : list Z) :
  32 <= DWDRaddr < RAMend ->
  triple (reads_clear DWDRaddr r l0)
    (DwReadAddr adapter attached DWDRreg DWDRaddr 0 RAMend buf)
    (fun buf' s =>
       reads_clear DWDRaddr r l0 s /\
       (forall a, 28 <= a <= 31 -> nth (Z.to_nat a) buf' 0 = nth (Z.to_nat a) r 0) /\
       nth (Z.to_nat DWDRaddr) buf' 0 = 0)
    (fun _ s => reads_clear DWDRaddr r l0 s).
Proof.
  intros HD. unfold DwReadAddr. cbv zeta.
  replace (Z.min RAMend (28 - 0)) with 28 by lia.
  change (0 <? 28) with true. cbv iota.
  set (J := reads_clear DWDRaddr r l0).
  set (regs := fun b : list Z =>
                 forall a, 28 <= a <= 31 -> nth (Z.to_nat a) b 0 = nth (Z.to_nat a) r 0).
  (* the range before r28 *)
  eapply triple_bind with
    (Q1 := fun cur s => J s /\
             let '(a, l, p, _) := cur in a = 28 /\ l = RAMend - 28 /\ p = 28).
  { eapply triple_bind.
    - apply at_offset_clear. intros x Hx [Hh|Hh]; cbn [fst snd] in Hx; lia.
    - intros buf1. apply triple_ret. intros s [Hs _]. split; [exact Hs|]. lia. }
  intros [[[a1 l1] p1] buf1]. apply triple_assume. intros (-> & -> & ->).
  (* the cached registers *)
  eapply triple_bind with
    (Q1 := fun cur s => J s /\
             let '(a, l, p, b) := cur in
             a = 32 /\ l = RAMend - 32 /\ p = 32 /\ regs b).
  { intros s Hs.
    pose proof (DwReadAddr_cached_spec 4 28 (RAMend - 28) buf1 s
                  ltac:(lia) ltac:(lia) ltac:(lia)) as C.
    destruct (DwReadAddr_cached 4 28 (RAMend - 28) 28 buf1 s)
      as [[[[a l] p] b] s'|w s']; [|now subst s'].
    destruct C as (-> & -> & -> & -> & _ & V).
    split; [exact Hs|]. split; [reflexivity|]. split; [lia|]. split; [reflexivity|].
    intros a Ha. rewrite V by lia. destruct Hs as [-> _]. reflexivity. }
  intros [[[a2 l2] p2] buf2]. apply triple_assume. intros (-> & -> & -> & V2).
  (* from 32 to DWDR *)
  replace (Z.min (RAMend - 32) (DWDRaddr - 32)) with (DWDRaddr - 32) by lia.
  eapply triple_bind with
    (Q1 := fun cur s => J s /\
             let '(a, l, p, b) := cur in
             a = DWDRaddr /\ l = RAMend - DWDRaddr /\ p = DWDRaddr /\ regs b).
  { destruct (0 <? DWDRaddr - 32) eqn:E3.
    - eapply triple_bind.
      + apply at_offset_clear. intros x Hx [Hh|Hh]; cbn [fst snd] in Hx; lia.
      + intros buf3. apply triple_ret. intros s [Hs K].
        split; [exact Hs|]. split; [lia|]. split; [lia|]. split; [lia|].
        intros a Ha. rewrite K by lia. now apply V2.
    - apply triple_ret. intros s Hs.
      split; [exact Hs|]. split; [lia|]. split; [lia|]. split; [lia|]. exact V2. }
  intros [[[a3 l3] p3] buf3]. apply triple_assume. intros (-> & -> & -> & V3).
  (* the dummy value for DWDR *)
  replace ((DWDRaddr =? DWDRaddr) && (0 <? RAMend - DWDRaddr)) with true
    by (symmetry; apply andb_true_iff; split; lia).
  eapply triple_bind with
    (Q1 := fun cur s => J s /\
             let '(a, _, p, b) := cur in
             a = DWDRaddr + 1 /\ p = DWDRaddr + 1 /\ regs b /\
             nth (Z.to_nat DWDRaddr) b 0 = 0).
  { eapply triple_bind; [apply triple_in_bounds|].
    intros buf4. apply triple_ret. intros s [Hs Es].
    apply store_Some in Es. destruct Es as (_ & Es2 & Es3).
    split; [exact Hs|]. split; [reflexivity|]. split; [reflexivity|].
    split; [|exact Es2].
    intros a Ha. rewrite Es3 by lia. now apply V3. }
  intros [[[a4 l4] p4] buf4]. apply triple_assume. intros (-> & -> & V4 & Z4).
  (* beyond DWDR *)
  eapply triple_bind with
    (Q1 := fun cur s => J s /\
             let '(a, _, p, b) := cur in
             DWDRaddr < a /\ DWDRaddr + 1 <= p /\ regs b /\
             nth (Z.to_nat DWDRaddr) b 0 = 0).
  { eapply triple_weaken.
    - apply (DwReadAddr_chunks_clear adapter attached DWDRreg DWDRaddr r l0
               ltac:(lia) (Z.to_nat (l4 / 128)) (DWDRaddr + 1) l4 (DWDRaddr + 1) buf4
               ltac:(lia)).
    - auto.
    - intros [[[a l] p] b] s (Hs & Ha & Hp & K).
      split; [exact Hs|]. split; [exact Ha|]. split; [exact Hp|]. split.
      + intros a' Ha'. rewrite K by lia. now apply V4.
      + rewrite K by lia. exact Z4.
    - auto. }
  intros [[[a5 l5] p5] buf5]. apply triple_assume. intros (A5 & P5 & V5 & Z5).
  destruct (0 <? l5).
  - eapply triple_weaken.
    + apply (at_offset_clear adapter attached DWDRreg DWDRaddr r l0 p5 buf5 a5 l5).
      intros x Hx [Hh|Hh]; cbn [fst snd] in Hx; lia.
    + auto.
    + intros b s [Hs K]. split; [exact Hs|]. split.
      * intros a Ha. rewrite K by lia. now apply V5.
      * rewrite K by lia. exact Z5.
    + auto.
  - apply triple_ret. intros s Hs. auto.
Qed.

End ReadAddrHazards.

(** ** Reconnect *)

Lemma word_of_bytes b0 b1 :
  is_byte b0 -> is_byte b1 -> Z.lor (Z.shiftl b0 8) b1 = 256 * b0 + b1.
Proof.
  intros H0 H1.
  assert (G : forallb (fun x => forallb (fun y => Z.lor (Z.shiftl x 8) y =? 256 * x + y)
                                  (below 256)) (below 256) = true)
    by (vm_compute; reflexivity).
  pose proof (below_spec 256 _ G b0 ltac:(unfold is_byte in H0; lia)) as G0.
  cbv beta in G0.
  pose proof (below_spec 256 _ G0 b1 ltac:(unfold is_byte in H1; lia)) as G1.
  cbv beta in G1. lia.
Qed.

Lemma map_u8_bytes l : Forall is_byte l -> map u8 l = l.
Proof.
  induction 1 as [|b l Hb _ IH]; simpl; [reflexivity|].
  rewrite IH. f_equal. unfold u8, is_byte in *. apply Z.mod_small. lia.
Qed.

Section Prompt.

Variable adapter : nat -> reply.
Variable attached : bool.

(** A flush that the adapter takes at once. *)
Lemma dwBufferFlush_prompt state s :
  Port s = true -> wf s -> 0 < OutBufLength s ->
  OutBufLength s <= rstatus (adapter (Calls s)) ->
  dwBufferFlush adapter attached state s =
  Ok tt (set_OutBuf (OutBufBytes s) 0
           (add_Elapsed 3 (log_event (Out state (buffered s)) s))).
Proof.
  intros HP [W1 W2] HL Hr. unfold dwBufferFlush.
  rewrite bind_read. replace (0 <? OutBufLength s) with true by (symmetry; lia).
  rewrite bind_read.
  rewrite (bind_Ok _ _ _ _ _
             (dwUSBSendBytes_prompt adapter attached state (OutBufBytes s)
                (OutBufLength s) s HP ltac:(lia) ltac:(lia) Hr)).
  reflexivity.
Qed.

(** A read that the adapter answers at once with [data], which fits. *)
Lemma DwReceive_prompt buf inlen data s :
  Port s = true -> wf s -> 0 < OutBufLength s ->
  OutBufLength s <= rstatus (adapter (Calls s)) ->
  0 <= rstatus (adapter (S (Calls s))) -> rdata (adapter (S (Calls s))) = data ->
  Forall is_byte data -> zlen data = inlen -> 0 < inlen <= 128 -> inlen <= zlen buf ->
  DwReceive adapter attached buf inlen s =
  Ok (inlen, data ++ drop inlen buf)
     (log_event (In_ 0 inlen)
        (add_Elapsed 20
           (set_OutBuf (OutBufBytes s) 0
              (add_Elapsed 3 (log_event (Out 0x14 (buffered s)) s))))).
Proof.
  intros HP W HL Hr Hr1 Hd Hb Hz Hi Hbuf. unfold DwReceive.
  rewrite bind_Assert. replace (inlen <=? 128) with true by (symmetry; lia).
  rewrite (bind_Ok _ _ _ _ _ (dwBufferFlush_prompt 0x14 s HP W HL Hr)).
  cbn [receive_retry]. change (0 <=? 0) with true. cbv iota.
  unfold delay. rewrite bind_modify.
  unfold bind at 1. unfold usb_control_msg_in.
  cbn [Port Calls set_OutBuf add_Elapsed log_event]. rewrite HP. cbv zeta.
  replace (rstatus (adapter (S (Calls s))) <? 0) with false by (symmetry; lia).
  rewrite Hd, (take_all inlen data) by lia. rewrite (map_u8_bytes data Hb), Hz.
  replace (inlen <=? zlen buf) with true by (symmetry; lia).
  cbn [receive_retry]. replace (inlen <=? 0) with false by (symmetry; lia).
  reflexivity.
Qed.

End Prompt.

Section Reconnect.

Variable adapter : nat -> reply.
Variable attached : bool.
Variables DWDRreg FlashSize : Z.

(** [DwReconnect] on a connected session with nothing buffered, with an
    adapter that takes the two requests at once and answers the first with
    the bytes [b0 b1] and the second with the four bytes [regs]: the
    request F0, the word read big-endian, [PC] set to the C remainder
    [2*(w-1) % FlashSize], the read of r28..r31 into [R+28]. *)
Lemma DwReconnect_run (s : State) (b0 b1 : Z) (regs : list Z) :
  Port s = true -> wf s -> OutBufLength s = 0 -> zlen (R s) = 32 ->
  1 <= rstatus (adapter (Calls s)) ->
  0 <= rstatus (adapter (S (Calls s))) -> rdata (adapter (S (Calls s))) = [b0; b1] ->
  is_byte b0 -> is_byte b1 ->
  10 <= rstatus (adapter (S (S (Calls s)))) ->
  0 <= rstatus (adapter (S (S (S (Calls s))))) ->
  rdata (adapter (S (S (S (Calls s))))) = regs ->
  Forall is_byte regs -> zlen regs = 4 -> FlashSize <> 0 ->
  let w := 256 * b0 + b1 in
  exists s',
    DwReconnect adapter attached DWDRreg FlashSize s = Ok tt s' /\
    PC s' = Z.rem (2 * (w - 1)) FlashSize /\
    R s' = take 28 (R s) ++ regs /\
    Log s' = Log s ++ [Out 0x14 [0xF0]; In_ 0 2;
                       Out 0x14 [0xD0; 0x10; 0x1C; 0xD1; 0x10; 0x20; 0x66; 0xC2; 0x01; 0x20];
                       In_ 0 4] /\
    OutBufLength s' = 0.
Proof.
  intros HP W HL HR A0 A1 D1 B0 B1 A2 A3 D3 B3 Z3 HF w.
  unfold DwReconnect.
  (* the request *)
  queued (queues_Bytes adapter attached always [0xF0] ltac:(vm_compute; discriminate)
            : queues always _ [0xF0]).
  set (s1 := push [0xF0] s).
  assert (W1 : wf s1) by (apply wf_push; [exact W|room]).
  assert (Bf1 : buffered s1 = [0xF0])
    by (apply buffered_push_empty; [exact W|exact HL|room]).
  assert (L1 : OutBufLength s1 = 1) by (unfold s1; rewrite OutBufLength_push, HL; room).
  assert (C1 : Calls s1 = Calls s) by reflexivity.
  assert (Bb : Forall is_byte [b0; b1])
    by (constructor; [exact B0|constructor; [exact B1|constructor]]).
  (* the word *)
  unfold DwReadWord.
  rewrite bind_bind.
  rewrite (bind_Ok _ _ _ _ _
             (DwReceive_prompt adapter attached [0; 0] 2 [b0; b1] s1 HP W1
                ltac:(lia) ltac:(rewrite L1, C1; lia)
                ltac:(rewrite C1; exact A1) ltac:(rewrite C1; exact D1)
                Bb ltac:(reflexivity) ltac:(lia) ltac:(unfold zlen; simpl; lia))).
  rewrite Bf1. rewrite bind_ret.
  change ([b0; b1] ++ drop 2 [0; 0]) with [b0; b1].
  change (nth 0 [b0; b1] 0) with b0. change (nth 1 [b0; b1] 0) with b1.
  rewrite (word_of_bytes b0 b1 B0 B1). fold w.
  replace (FlashSize =? 0) with false by (symmetry; now apply Z.eqb_neq).
  rewrite bind_ret.
  rewrite bind_modify, bind_read.
  set (s2 := set_PC (Z.rem (2 * (w - 1)) FlashSize)
               (log_event (In_ 0 2)
                  (add_Elapsed 20
                     (set_OutBuf (OutBufBytes s1) 0
                        (add_Elapsed 3 (log_event (Out 20 [240]) s1)))))).
  change (R s2) with (R s).
  assert (W2 : wf s2) by (destruct W1 as [W1 _]; split; [exact W1|simpl; lia]).
  assert (L2 : OutBufLength s2 = 0) by reflexivity.
  (* the registers *)
  unfold DwGetRegs. change (4 =? 1) with false. cbv iota.
  rewrite !bind_bind.
  queued (queues_DwSetPC adapter attached 28 : queues always _ [0xD0; 0x10; 0x1C]).
  rewrite !bind_bind.
  queued (queues_DwSetBP adapter attached (28 + 4) : queues always _ [0xD1; 0x10; 0x20]).
  rewrite ?bind_bind.
  queued (queues_Bytes adapter attached always [0x66; 0xC2; 1; 0x20]
            ltac:(vm_compute; discriminate) : queues always _ [0x66; 0xC2; 0x01; 0x20]).
  set (cmd := [0xD0; 0x10; 0x1C; 0xD1; 0x10; 0x20; 0x66; 0xC2; 0x01; 0x20]).
  change (push _ s2) with (push cmd s2).
  set (s3 := push cmd s2). rewrite bind_bind.
  assert (W3 : wf s3) by (apply wf_push; [exact W2|rewrite L2; unfold cmd; room]).
  assert (Bf3 : buffered s3 = cmd)
    by (apply buffered_push_empty; [exact W2|exact L2|unfold cmd; room]).
  assert (Zd : zlen (drop 28 (R s)) = 4) by (rewrite zlen_drop; lia).
  assert (L3 : OutBufLength s3 = 10)
    by (unfold s3; rewrite OutBufLength_push, L2; unfold cmd; room).
  assert (C3 : Calls s3 = S (S (Calls s))) by reflexivity.
  rewrite (bind_Ok _ _ _ _ _
             (DwReceive_prompt adapter attached (drop 28 (R s)) 4 regs s3 HP W3
                ltac:(lia) ltac:(rewrite L3, C3; lia)
                ltac:(rewrite C3; exact A3) ltac:(rewrite C3; exact D3)
                B3 Z3 ltac:(lia) ltac:(lia))).
  rewrite Bf3, bind_ret.
  assert (Er : regs ++ drop 4 (drop 28 (R s)) = regs).
  { assert (En : drop 4 (drop 28 (R s)) = []).
    { apply length_zero_iff_nil.
      pose proof (zlen_drop 4 (drop 28 (R s))) as Hz. unfold zlen in *. lia. }
    rewrite En. apply app_nil_r. }
  rewrite Er.
  eexists. split; [reflexivity|].
  cbn [PC R Log OutBufLength set_R set_PC log_event add_Elapsed set_OutBuf final].
  split; [reflexivity|]. split; [reflexivity|]. split; [|reflexivity].
  change (Log s3) with ((Log s ++ [Out 20 [240]]) ++ [In_ 0 2]).
  rewrite <- !app_assoc. reflexivity.
Qed.

End Reconnect.

(** For a word of 1 or more the remainder of C is the modulus: [PC] is the
    address of the instruction before the reported one. *)
Lemma DwReconnect_word_positive adapter attached DWDRreg FlashSize
    (s : State) (b0 b1 : Z) (regs : list Z) :
  Port s = true -> wf s -> OutBufLength s = 0 -> zlen (R s) = 32 ->
  1 <= rstatus (adapter (Calls s)) ->
  0 <= rstatus (adapter (S (Calls s))) -> rdata (adapter (S (Calls s))) = [b0; b1] ->
  is_byte b0 -> is_byte b1 ->
  10 <= rstatus (adapter (S (S (Calls s)))) ->
  0 <= rstatus (adapter (S (S (S (Calls s))))) ->
  rdata (adapter (S (S (S (Calls s))))) = regs ->
  Forall is_byte regs -> zlen regs = 4 ->
  1 <= 256 * b0 + b1 -> 0 < FlashSize ->
  exists s',
    DwReconnect adapter attached DWDRreg FlashSize s = Ok tt s' /\
    PC s' = (2 * (256 * b0 + b1 - 1)) mod FlashSize /\
    R s' = take 28 (R s) ++ regs.
Proof.
  intros HP W HL HR A0 A1 D1 B0 B1 A2 A3 D3 B3 Z3 Hw HF.
  destruct (DwReconnect_run adapter attached DWDRreg FlashSize s b0 b1 regs
              HP W HL HR A0 A1 D1 B0 B1 A2 A3 D3 B3 Z3 ltac:(lia))
    as (s' & E & P & Rg & _).
  exists s'. split; [exact E|]. split; [|exact Rg].
  rewrite P. apply Z.rem_mod_nonneg; lia.
Qed.

(** C9, the code at the word 00 00: [DwReconnect] sends F0, reads the word
    0, and sets [PC] to [2*(0-1) % FlashSize], which is -2 in C and not
    [2*(0-1) mod FlashSize = FlashSize - 2]; it then reads r28..r31 into
    [R+28].  (Flash of 8192 bytes.) *)
Theorem DwReconnect_word_zero :
  exists s',
    DwReconnect adapter_pc0 true 0x2E 8192 halted = Ok tt s' /\
    Log s' = [Out 0x14 [0xF0]; In_ 0 2;
              Out 0x14 [0xD0; 0x10; 0x1C; 0xD1; 0x10; 0x20; 0x66; 0xC2; 0x01; 0x20];
              In_ 0 4] /\
    drop 28 (R s') = [0x0A; 0x0B; 0x0C; 0x0D] /\
    PC s' = -2 /\
    (2 * (256 * 0 + 0 - 1)) mod 8192 = 8190.
Proof.
  eexists. split; [vm_compute; reflexivity|]. repeat split.
Qed.

(** ** The bulk reads return *)

Lemma load_fits a i : 0 <= i < zlen a -> load a i = Some (nth (Z.to_nat i) a 0).
Proof.
  intros H. unfold load.
  replace ((0 <=? i) && (i <? zlen a)) with true
    by (symmetry; apply andb_true_iff; split; lia).
  reflexivity.
Qed.

Lemma store_fits a i v :
  0 <= i < zlen a -> exists a', store a i v = Some a' /\ zlen a' = zlen a.
Proof.
  intros H. unfold store.
  replace ((0 <=? i) && (i <? zlen a)) with true
    by (symmetry; apply andb_true_iff; split; lia).
  eexists. split; [reflexivity|].
  rewrite zlen_app, zlen_cons, zlen_take, zlen_drop. lia.
Qed.

(** The loop over the cached registers returns: the shadow has its 32
    registers and [buf] has room for them. *)
Lemma DwReadAddr_cached_returns fuel : forall addr len buf s,
  28 <= addr <= 32 -> Z.of_nat fuel = 32 - addr -> 32 - addr < len ->
  zlen (R s) = 32 -> 32 <= zlen buf ->
  match DwReadAddr_cached fuel addr len addr buf s with
  | Ok (_, _, _, buf') _ => zlen buf' = zlen buf
  | Stop _ _ => False
  end.
Proof.
  induction fuel as [|fuel IH]; intros addr len buf s Ha Hf Hl HR Hb;
    cbn [DwReadAddr_cached].
  - replace ((28 <=? addr) && (addr <=? 31) && (0 <? len)) with false
      by (symmetry; apply andb_false_iff; left; apply andb_false_iff; right; lia).
    reflexivity.
  - replace ((28 <=? addr) && (addr <=? 31) && (0 <? len)) with true
      by (symmetry; rewrite !andb_true_iff; repeat split; lia).
    rewrite bind_read, bind_in_bounds, load_fits by lia.
    rewrite bind_in_bounds.
    destruct (store_fits buf addr (nth (Z.to_nat addr) (R s) 0) ltac:(lia))
      as (buf1 & Es & Z1).
    rewrite Es.
    specialize (IH (addr + 1) (len - 1) buf1 s ltac:(lia) ltac:(lia) ltac:(lia)
                  HR ltac:(lia)).
    destruct (DwReadAddr_cached fuel (addr + 1) (len - 1) (addr + 1) buf1 s)
      as [[[[a' l'] p'] buf'] s'|w s']; [lia|exact IH].
Qed.

Section Returns.

Variable adapter : nat -> reply.
Variable attached : bool.
Variables DWDRreg DWDRaddr : Z.
Hypothesis adapter_accepts : accepts adapter.

Lemma usb_control_msg_in_accepts value buf size s :
  Port s = true -> size <= zlen buf ->
  exists st buf',
    usb_control_msg_in adapter value buf size s =
    Ok (st, buf') (log_event (In_ value size) s) /\
    zlen buf' = zlen buf.
Proof.
  intros HP Hs. unfold usb_control_msg_in. rewrite HP. cbv zeta.
  pose proof (adapter_accepts (Calls s)) as Ha.
  replace (rstatus (adapter (Calls s)) <? 0) with false by (symmetry; lia).
  set (d := map u8 (take size (rdata (adapter (Calls s))))).
  pose proof (zlen_nonneg buf).
  assert (Hd : 0 <= zlen d <= zlen buf).
  { unfold d. rewrite zlen_map, zlen_take. lia. }
  replace (zlen d <=? zlen buf) with true by (symmetry; lia).
  do 2 eexists. split; [reflexivity|].
  rewrite zlen_app, zlen_drop. lia.
Qed.

Lemma receive_retry_accepts n : forall status buf inlen s,
  Port s = true -> inlen <= zlen buf ->
  exists st buf' s',
    receive_retry adapter n status buf inlen s = Ok (st, buf') s' /\
    zlen buf' = zlen buf /\ Port s' = true /\ same_buffer s s' /\ same_session s s'.
Proof.
  induction n as [|n IH]; intros status buf inlen s HP Hi; cbn [receive_retry].
  - exists status, buf, s. repeat split; auto.
  - destruct (status <=? 0).
    + unfold delay. rewrite bind_modify.
      destruct (usb_control_msg_in_accepts 0 buf inlen (add_Elapsed 20 s) HP Hi)
        as (st & buf1 & E & Z1).
      rewrite (bind_Ok _ _ _ _ _ E).
      destruct (IH st buf1 inlen (log_event (In_ 0 inlen) (add_Elapsed 20 s))
                  HP ltac:(lia)) as (st' & buf' & s' & E' & Z' & P' & B' & S').
      exists st', buf', s'. split; [exact E'|]. split; [lia|]. split; [exact P'|].
      split; [exact B'|exact S'].
    + exists status, buf, s. repeat split; auto.
Qed.

Lemma DwReceive_accepts buf inlen s :
  Port s = true -> wf s -> 0 < OutBufLength s -> inlen <= 128 -> inlen <= zlen buf ->
  exists st buf' s',
    DwReceive adapter attached buf inlen s = Ok (st, buf') s' /\
    zlen buf' = zlen buf /\ Port s' = true /\ wf s' /\ OutBufLength s' = 0 /\
    same_session s s'.
Proof.
  intros HP W HL Hi Hb. unfold DwReceive.
  rewrite bind_Assert. replace (inlen <=? 128) with true by (symmetry; lia).
  pose proof (adapter_accepts (Calls s)) as Ha.
  rewrite (bind_Ok _ _ _ _ _
             (dwBufferFlush_prompt adapter attached 0x14 s HP W HL
                ltac:(destruct W; lia))).
  set (s1 := set_OutBuf _ _ _).
  destruct (receive_retry_accepts 50 0 buf inlen s1 HP Hb)
    as (st & buf' & s' & E & Z' & P' & (B1 & B2) & S').
  exists st, buf', s'. split; [exact E|]. split; [exact Z'|]. split; [exact P'|].
  split; [|split; [rewrite B2; reflexivity|exact S']].
  destruct W as [W1 W2]. split; [rewrite B1; exact W1|rewrite B2; simpl; lia].
Qed.


(** The bytes of [DwSetReg(reg, val)]. *)
Lemma queues_DwSetReg reg val :
  queues always (DwSetReg adapter attached DWDRreg reg val)
    (map u8 [0xD2; hi (u16 (in_opcode (u8 reg) (u16 DWDRreg)));
             lo (u16 (in_opcode (u8 reg) (u16 DWDRreg))); 0x23] ++ map u8 [val]).
Proof.
  unfold DwSetReg. apply queues_bind; [exact always_stable| |].
  - apply queues_DwInst.
  - apply queues_Bytes. vm_compute. discriminate.
Qed.

(** [DwSetZ] queues the two register loads, ten bytes. *)
Lemma queues_DwSetZ z :
  exists d, zlen d = 10 /\ queues always (DwSetZ adapter attached DWDRreg z) d.
Proof.
  eexists. split; cycle 1.
  - unfold DwSetZ. cbv zeta.
    change (DwSetRegs adapter attached DWDRreg 30 (le16_bytes (u16 z)) 2)
      with (DwSetReg adapter attached DWDRreg 30 (Z.land (u16 z) 255);;
            DwSetReg adapter attached DWDRreg (30 + 1) (Z.land (Z.shiftr (u16 z) 8) 255);;
            ret tt)%dw.
    apply queues_bind; [exact always_stable|apply queues_DwSetReg|].
    apply queues_bind; [exact always_stable|apply queues_DwSetReg|].
    apply queues_ret.
  - reflexivity.
Qed.

(** A bulk read returns, on a connected session with nothing buffered, and
    leaves the session so. *)
Lemma DwUnsafeReadAddr_returns r addr len buf :
  len <= 128 -> len <= zlen buf ->
  triple (ready r) (DwUnsafeReadAddr adapter attached DWDRreg addr len buf)
    (fun buf' s => ready r s /\ zlen buf' = zlen buf) never.
Proof.
  intros Hl Hb s (HP & W & HL & HR). unfold DwUnsafeReadAddr.
  rewrite bind_modify.
  set (s0 := note_BulkRead addr len s).
  assert (W0 : wf s0) by exact W.
  assert (L0 : OutBufLength s0 = 0) by exact HL.
  destruct (queues_DwSetZ addr) as (d & Zd & Qd).
  queued Qd.
  queued (queues_DwSetPC adapter attached 0).
  queued (queues_DwSetBP adapter attached (2 * len)).
  queued (queues_Bytes adapter attached always [0x66; 0xC2; 0x00; 0x20]
            ltac:(vm_compute; discriminate)).
  match goal with |- context [push ?c s0] => set (cmd := c) end.
  assert (Zc : zlen cmd = 20).
  { unfold cmd. rewrite !zlen_app, !zlen_map, Zd. reflexivity. }
  assert (W1 : wf (push cmd s0)) by (apply wf_push; [exact W0|lia]).
  destruct (DwReceive_accepts buf len (push cmd s0) HP W1
              ltac:(rewrite OutBufLength_push; lia) Hl Hb)
    as (st & buf' & s' & E & Z' & P' & W' & L' & S').
  rewrite (bind_Ok _ _ _ _ _ E). unfold ret. cbv beta iota.
  split; [|exact Z'].
  split; [exact P'|]. split; [exact W'|]. split; [exact L'|].
  destruct S' as (S' & _). rewrite S'. exact HR.
Qed.


Lemma at_offset_returns r pos buf addr len :
  0 <= pos -> 0 <= len <= 128 -> pos + len <= zlen buf ->
  triple (ready r)
    (at_offset pos buf (DwUnsafeReadAddr adapter attached DWDRreg addr len))
    (fun buf' s => ready r s /\ zlen buf' = zlen buf) never.
Proof.
  intros Hp Hl Hb. unfold at_offset.
  replace ((0 <=? pos) && (pos <=? zlen buf)) with true
    by (symmetry; apply andb_true_iff; split; lia).
  eapply triple_bind.
  - apply DwUnsafeReadAddr_returns; [lia|rewrite zlen_drop; lia].
  - intros rest. apply triple_ret. intros s [Hs Hz]. split; [exact Hs|].
    rewrite zlen_app, zlen_take, Hz, zlen_drop. lia.
Qed.

(** The loop over the blocks returns, with at most 128 bytes to go. *)
Lemma DwReadAddr_chunks_returns r fuel : forall addr len pos buf,
  0 <= pos -> 0 <= len -> pos + len <= zlen buf -> len <= 128 * (Z.of_nat fuel + 1) ->
  triple (ready r) (DwReadAddr_chunks adapter attached DWDRreg fuel addr len pos buf)
    (fun cur s =>
       ready r s /\
       let '(_, len', pos', buf') := cur in
       0 <= pos' /\ 0 <= len' <= 128 /\ pos' + len' <= zlen buf' /\ zlen buf' = zlen buf)
    never.
Proof.
  induction fuel as [|fuel IH]; intros addr len pos buf Hp Hl Hb Hf;
    cbn [DwReadAddr_chunks]; destruct (128 <? len) eqn:C.
  - lia.
  - apply triple_ret. intros s Hs. split; [exact Hs|]. lia.
  - eapply triple_bind.
    + apply (at_offset_returns r pos buf addr 128); lia.
    + intros buf1. apply triple_assume. intros Z1.
      eapply triple_weaken.
      * apply (IH (addr + 128) (len - 128) (pos + 128) buf1); lia.
      * auto.
      * intros [[[a' l'] p'] buf'] s [Hs H]. split; [exact Hs|]. lia.
      * auto.
  - apply triple_ret. intros s Hs. split; [exact Hs|]. lia.
Qed.

(** [DwReadAddr(0, RAMend, buf)] returns: the adapter takes every transfer,
    the session is connected with nothing buffered, [buf] has [RAMend]
    bytes, and the I/O registers below DWDR fit in one read. *)
Lemma DwReadAddr_returns r RAMend buf :
  32 <= DWDRaddr < RAMend -> DWDRaddr <= 160 -> zlen r = 32 -> RAMend <= zlen buf ->
  triple (ready r) (DwReadAddr adapter attached DWDRreg DWDRaddr 0 RAMend buf)
    (fun buf' s => ready r s /\ zlen buf' = zlen buf) never.
Proof.
  intros HD H160 Hr Hb. unfold DwReadAddr. cbv zeta.
  replace (Z.min RAMend (28 - 0)) with 28 by lia.
  change (0 <? 28) with true. cbv iota.
  set (J := ready r).
  (* the range before r28 *)
  eapply triple_bind with
    (Q1 := fun cur s => J s /\
             let '(a, l, p, b) := cur in
             a = 28 /\ l = RAMend - 28 /\ p = 28 /\ zlen b = zlen buf).
  { eapply triple_bind.
    - apply (at_offset_returns r 0 buf 0 28); lia.
    - intros buf1. apply triple_ret. intros s [Hs Hz]. split; [exact Hs|]. lia. }
  intros [[[a1 l1] p1] buf1]. apply triple_assume. intros (-> & -> & -> & Z1).
  (* the cached registers *)
  eapply triple_bind with
    (Q1 := fun cur s => J s /\
             let '(a, l, p, b) := cur in
             a = 32 /\ l = RAMend - 32 /\ p = 32 /\ zlen b = zlen buf).
  { intros s Hs.
    assert (HR : zlen (R s) = 32) by (destruct Hs as (_ & _ & _ & ->); exact Hr).
    pose proof (DwReadAddr_cached_spec 4 28 (RAMend - 28) buf1 s
                  ltac:(lia) ltac:(lia) ltac:(lia)) as C.
    pose proof (DwReadAddr_cached_returns 4 28 (RAMend - 28) buf1 s
                  ltac:(lia) ltac:(lia) ltac:(lia) HR ltac:(lia)) as T.
    destruct (DwReadAddr_cached 4 28 (RAMend - 28) 28 buf1 s)
      as [[[[a l] p] b] s'|w s']; [|exact T].
    destruct C as (-> & -> & -> & -> & _).
    split; [exact Hs|]. lia. }
  intros [[[a2 l2] p2] buf2]. apply triple_assume. intros (-> & -> & -> & Z2).
  (* from 32 to DWDR *)
  replace (Z.min (RAMend - 32) (DWDRaddr - 32)) with (DWDRaddr - 32) by lia.
  eapply triple_bind with
    (Q1 := fun cur s => J s /\
             let '(a, l, p, b) := cur in
             a = DWDRaddr /\ l = RAMend - DWDRaddr /\ p = DWDRaddr /\
             zlen b = zlen buf).
  { destruct (0 <? DWDRaddr - 32) eqn:E3.
    - eapply triple_bind.
      + apply (at_offset_returns r 32 buf2 32 (DWDRaddr - 32)); lia.
      + intros buf3. apply triple_ret. intros s [Hs Hz]. split; [exact Hs|]. lia.
    - apply triple_ret. intros s Hs. split; [exact Hs|]. lia. }
  intros [[[a3 l3] p3] buf3]. apply triple_assume. intros (-> & -> & -> & Z3).
  (* the dummy value for DWDR *)
  replace ((DWDRaddr =? DWDRaddr) && (0 <? RAMend - DWDRaddr)) with true
    by (symmetry; apply andb_true_iff; split; lia).
  eapply triple_bind with
    (Q1 := fun cur s => J s /\
             let '(a, l, p, b) := cur in
             l = RAMend - DWDRaddr - 1 /\ p = DWDRaddr + 1 /\ zlen b = zlen buf).
  { intros s Hs. rewrite bind_in_bounds.
    destruct (store_fits buf3 DWDRaddr 0 ltac:(lia)) as (buf4 & Es & Z4).
    rewrite Es. split; [exact Hs|]. cbv beta iota. lia. }
  intros [[[a4 l4] p4] buf4]. apply triple_assume. intros (-> & -> & Z4).
  (* beyond DWDR *)
  eapply triple_bind.
  { apply (DwReadAddr_chunks_returns r (Z.to_nat ((RAMend - DWDRaddr - 1) / 128))
             a4 (RAMend - DWDRaddr - 1) (DWDRaddr + 1) buf4); try lia.
    rewrite Z2Nat.id by (apply Z.div_pos; lia).
    pose proof (Z.mul_succ_div_gt (RAMend - DWDRaddr - 1) 128 ltac:(lia)). lia. }
  intros [[[a5 l5] p5] buf5]. apply triple_assume. intros (P5 & L5 & B5 & Z5).
  destruct (0 <? l5) eqn:E5.
  - eapply triple_weaken.
    + apply (at_offset_returns r p5 buf5 a5 l5); lia.
    + auto.
    + intros b s [Hs Hz]. split; [exact Hs|]. lia.
    + auto.
  - apply triple_ret. intros s Hs. split; [exact Hs|]. lia.
Qed.

End Returns.

(** ** Reading the data area around the hazards *)

Section ReadAddrClaim.

Variable adapter : nat -> reply.
Variable attached : bool.
Variables DWDRreg DWDRaddr : Z.

(** C3: [DwReadAddr(0, RAMend, buf)], for [RAMend] beyond DWDR (which lies
    in the I/O space, from address 32 on): every [DwUnsafeReadAddr] that
    the call makes, and however the call ends, reads a range
    [[addr, addr+len)] that contains none of 28, 29, 30, 31 and
    [DWDRaddr]; when the call returns, the bytes of [buf] for the
    addresses 28..31 are those of the shadow [R[28..31]] and the byte for
    [DWDRaddr] is 0, whatever the adapter delivered; and the call does
    return, on a connected session with nothing buffered, when the adapter
    takes every transfer, [buf] has [RAMend] bytes and the I/O registers
    below DWDR fit in one read. *)
Theorem DwReadAddr_hazards (s : State) (RAMend : Z) (buf : list Z) :
  32 <= DWDRaddr < RAMend ->
  let o := DwReadAddr adapter attached DWDRreg DWDRaddr 0 RAMend buf s in
  (exists reads,
     BulkReads (final o) = BulkReads s ++ reads /\
     forall addr len, In (addr, len) reads ->
       forall x, addr <= x < addr + len ->
         x <> 28 /\ x <> 29 /\ x <> 30 /\ x <> 31 /\ x <> DWDRaddr) /\
  match o with
  | Ok buf' s' =>
      R s' = R s /\
      (forall a, 28 <= a <= 31 -> nth (Z.to_nat a) buf' 0 = nth (Z.to_nat a) (R s) 0) /\
      nth (Z.to_nat DWDRaddr) buf' 0 = 0
  | Stop _ _ => True
  end /\
  (accepts adapter -> ready (R s) s -> zlen (R s) = 32 ->
   RAMend <= zlen buf -> DWDRaddr <= 160 ->
   exists buf' s', o = Ok buf' s' /\ zlen buf' = zlen buf).
Proof.
  intros HD o.
  pose proof (DwReadAddr_triple adapter attached DWDRreg DWDRaddr
                (R s) (BulkReads s) RAMend buf HD s) as T.
  fold o in T.
  assert (J0 : reads_clear DWDRaddr (R s) (BulkReads s) s).
  { split; [reflexivity|]. exists []. now rewrite app_nil_r. }
  specialize (T J0).
  assert (G : reads_clear DWDRaddr (R s) (BulkReads s) (final o)).
  { destruct o as [b s'|w s']; [exact (proj1 T)|exact T]. }
  split; [|split].
  - destruct G as (_ & reads & E & F). exists reads. split; [exact E|].
    intros addr len Hin x Hx. rewrite Forall_forall in F.
    specialize (F _ Hin x Hx). unfold hazard in F. lia.
  - destruct o as [b s'|w s']; [|exact Logic.I].
    destruct T as ((HR & _) & V & Z0). auto.
  - intros Ha Hs HR Hb H160.
    pose proof (DwReadAddr_returns adapter attached DWDRreg DWDRaddr Ha
                  (R s) RAMend buf HD H160 HR Hb s Hs) as Rt.
    fold o in Rt. destruct o as [b s'|w s']; [|destruct Rt].
    exists b, s'. split; [reflexivity|exact (proj2 Rt)].
Qed.

End ReadAddrClaim.

Lemma prompt_accepts : accepts prompt.
Proof. intros i. simpl. lia. Qed.

Lemma halted_ready : ready (R halted) halted.
Proof. repeat split; unfold zlen; simpl; lia. Qed.

(** The first 100 bytes of the data area of the halted session, on a device
    with DWDR at 0x4E, with an adapter that delivers nothing: three bulk
    reads, around r28..r31 and around DWDR. *)
Example DwReadAddr_100 :
  exists buf' s',
    DwReadAddr prompt true 0x2E 0x4E 0 100 (repeat 9 100) halted = Ok buf' s' /\
    BulkReads s' = [(0, 28); (32, 46); (79, 21)] /\
    take 6 (drop 27 buf') = [9; 29; 30; 31; 32; 9] /\
    take 3 (drop 77 buf') = [9; 0; 9].
Proof.
  do 2 eexists. split; [vm_compute; reflexivity|]. repeat split.
Qed.

Lemma DwReadAddr_hazards_witness :
  32 <= 0x4E < 100 /\
  let o := DwReadAddr prompt true 0x2E 0x4E 0 100 (repeat 9 100) halted in
  (exists reads,
     BulkReads (final o) = BulkReads halted ++ reads /\
     forall addr len, In (addr, len) reads ->
       forall x, addr <= x < addr + len ->
         x <> 28 /\ x <> 29 /\ x <> 30 /\ x <> 31 /\ x <> 0x4E) /\
  (exists buf' s',
     o = Ok buf' s' /\ zlen buf' = 100 /\
     R s' = R halted /\
     (forall a, 28 <= a <= 31 ->
        nth (Z.to_nat a) buf' 0 = nth (Z.to_nat a) (R halted) 0) /\
     nth (Z.to_nat 0x4E) buf' 0 = 0).
Proof.
  assert (H : 32 <= 0x4E < 100) by lia.
  split; [exact H|].
  pose proof (DwReadAddr_hazards prompt true 0x2E 0x4E halted 100 (repeat 9 100) H) as T.
  cbv zeta in T. destruct T as (T1 & T2 & T3).
  specialize (T3 prompt_accepts). specialize (T3 halted_ready).
  specialize (T3 eq_refl). specialize (T3 ltac:(rewrite zlen_repeat; lia)).
  specialize (T3 ltac:(lia)).
  destruct T3 as (buf' & s' & E & Z').
  cbv zeta. split; [exact T1|].
  exists buf', s'. rewrite E in T2. rewrite zlen_repeat in Z'.
  split; [exact E|]. split; [exact Z'|]. exact T2.
Defined.

(** ** Connecting: what [SetDwireBaud] and [DwBreakAndSync] can do *)

Lemma quiet_dec (r : reply) : {quiet r} + {0 <= rstatus r /\ rdata r <> []}.
Proof.
  unfold quiet. destruct (Z_lt_dec (rstatus r) 0) as [H|H]; [left; now left|].
  destruct (rdata r) as [|b l] eqn:E; [left; now right|].
  right. split; [lia|discriminate].
Qed.

(** Among [n] polls, either all are quiet or there is a first that is not. *)
Lemma first_loud (adapter : nat -> reply) (c : nat) (n : nat) :
  (forall j, (j < n)%nat -> quiet (adapter (c + j)%nat)) \/
  exists k, (k < n)%nat /\
    (forall j, (j < k)%nat -> quiet (adapter (c + j)%nat)) /\
    0 <= rstatus (adapter (c + k)%nat) /\ 0 < zlen (readback (adapter (c + k)%nat)).
Proof.
  induction n as [|n IH].
  - left. intros j Hj. lia.
  - destruct IH as [Hq|(k & Hk & Hq & Hl)].
    + destruct (quiet_dec (adapter (c + n)%nat)) as [Q|[L1 L2]].
      * left. intros j Hj. destruct (Nat.eq_dec j n) as [->|Hne]; [exact Q|].
        apply Hq. lia.
      * right. exists n. split; [lia|]. split; [exact Hq|]. split; [exact L1|].
        unfold readback. rewrite zlen_map, zlen_take.
        destruct (rdata (adapter (c + n)%nat)) as [|b l]; [congruence|].
        rewrite zlen_cons. pose proof (zlen_nonneg l). lia.
    + right. exists k. split; [lia|]. split; [exact Hq|exact Hl].
Qed.

Lemma breaks_app l1 l2 : breaks (l1 ++ l2) = (breaks l1 + breaks l2)%nat.
Proof.
  induction l1 as [|e l1 IH]; [reflexivity|].
  destruct e as [v p|v n]; simpl; [|exact IH].
  destruct v as [|v|v]; try exact IH.
  repeat (destruct v as [v|v|]; try exact IH).
  simpl. now rewrite IH.
Qed.

Lemma breaks_polls size m : breaks (repeat (In_ 0 size) m) = O.
Proof. induction m as [|m IH]; [reflexivity|exact IH]. Qed.

Section Connecting.

Variable adapter : nat -> reply.
Variable attached : bool.

(** The three ways [SetDwireBaud] ends on an open handle. *)
Lemma SetDwireBaud_cases s :
  Port s = true ->
  exists m, (1 <= m <= 5)%nat /\
  match SetDwireBaud adapter s with
  | Ok ok s' =>
      Port s' = true /\ Console s' = Console s /\
      (ok = 0 /\ cyclesPerPulse s' = cyclesPerPulse s /\
         Log s' = Log s ++ repeat (In_ 0 128) m \/
       ok = 1 /\ calibrated s' /\
         exists t, Log s' = Log s ++ repeat (In_ 0 128) m ++ [Out 2 t])
  | Stop w s' =>
      w = Failure "Failed to set debugWIRE port baud rate" /\ Port s' = false /\
      Console s' = Console s /\ calibrated s' /\
      exists t, Log s' = Log s ++ repeat (In_ 0 128) m ++ [Out 2 t]
  end.
Proof.
  intros HP.
  destruct (first_loud adapter (Calls s) 5) as [Hq|(k & Hk & Hq & Hr & Hl)].
  - exists 5%nat. split; [lia|].
    rewrite (SetDwireBaud_gives_up adapter s HP Hq).
    rewrite Port_polled, Console_polled, cyclesPerPulse_polled, Log_polled.
      split; [exact HP|]. split; [reflexivity|]. left. auto.
  - exists (S k). split; [lia|].
    destruct (Z_lt_dec (zlen (readback (adapter (Calls s + k)%nat))) 18) as [Hs|Hs].
    + rewrite (SetDwireBaud_rejects adapter k s HP Hk Hq Hr ltac:(lia)).
      rewrite Port_polled, Console_polled, cyclesPerPulse_polled, Log_polled.
      split; [exact HP|]. split; [reflexivity|]. left. auto.
    + pose proof (SetDwireBaud_calibrates adapter k s HP Hk Hq Hr ltac:(lia)) as E.
      cbv zeta in E. rewrite E.
      pose proof (last9_range (readback (adapter (Calls s + k)%nat))
                    (readback_bytes _) ltac:(lia)) as HS.
      assert (C : 8 <= 6 * last9 (readback (adapter (Calls s + k)%nat)) / 9 + 8 <= 393218).
      { assert (0 <= 6 * last9 (readback (adapter (Calls s + k)%nat)) / 9)
          by (apply Z.div_pos; lia).
        assert (6 * last9 (readback (adapter (Calls s + k)%nat)) / 9 < 393211)
          by (apply Z.div_lt_upper_bound; lia).
        lia. }
      destruct (rstatus (adapter (Calls s + S k)%nat) <? 0).
      * split; [reflexivity|]. split; [reflexivity|].
        split; [cbn [Console set_Port log_event set_cyclesPerPulse];
                apply Console_polled|].
        split; [exact C|].
        eexists. cbn [Log set_Port log_event set_cyclesPerPulse].
        rewrite Log_polled, <- app_assoc. reflexivity.
      * split; [cbn [Port log_event set_cyclesPerPulse]; now rewrite Port_polled|].
        split; [cbn [Console set_Port log_event set_cyclesPerPulse];
                apply Console_polled|].
        right.
        split; [reflexivity|]. split; [exact C|].
        eexists. cbn [Log set_Port log_event set_cyclesPerPulse].
        rewrite Log_polled, <- app_assoc. reflexivity.
Qed.

Lemma breaks_SetDwireBaud s l t m :
  Log s = l ++ repeat (In_ 0 128) m ++ [Out 2 t] -> breaks (Log s) = breaks l.
Proof.
  intros ->. rewrite !breaks_app, breaks_polls. simpl. lia.
Qed.

(** The loop of [DwBreakAndSync] with [n] attempts left. *)
Lemma DwBreakAndSync_loop_bounded n : forall s,
  Port s = true ->
  exists l,
    Log (final (DwBreakAndSync_loop adapter n s)) = Log s ++ l /\
    match DwBreakAndSync_loop adapter n s with
    | Ok _ s' =>
        Port s' = true /\ calibrated s' /\
        exists k, (k < n)%nat /\ breaks l = S k /\
          Console s' = Console s ++ dots k ++
            [PutS "Connected at "; PutD (16500000 / cyclesPerPulse s') 1;
             PutSL " baud."]
    | Stop w s' =>
        Port s' = false /\
        (w = Failure
               "Digispark/LittleWire could not capture pulse timings after 25 break attempts." /\
         breaks l = n /\ Console s' = Console s ++ dots n ++ [PutL] \/
         w = Failure "Failed to set debugWIRE port baud rate" /\
         exists k, (k < n)%nat /\ breaks l = S k /\ Console s' = Console s ++ dots k)
    end.
Proof.
  induction n as [|n IH]; intros s HP.
  - exists []. cbn. rewrite !app_nil_r. split; [reflexivity|].
    split; [reflexivity|]. left. auto.
  - assert (Retry : forall s1,
              Port s1 = true -> Console s1 = Console s ->
              (exists l1, Log s1 = Log s ++ l1 /\ breaks l1 = 1%nat) ->
              DwBreakAndSync_loop adapter (S n) s =
              DwBreakAndSync_loop adapter n (print PutFlush (print (PutC "."%char) s1)) ->
              exists l,
                Log (final (DwBreakAndSync_loop adapter (S n) s)) = Log s ++ l /\
                match DwBreakAndSync_loop adapter (S n) s with
                | Ok _ s' =>
                    Port s' = true /\ calibrated s' /\
                    exists k, (k < S n)%nat /\ breaks l = S k /\
                      Console s' = Console s ++ dots k ++
                        [PutS "Connected at "; PutD (16500000 / cyclesPerPulse s') 1;
                         PutSL " baud."]
                | Stop w s' =>
                    Port s' = false /\
                    (w = Failure
                           "Digispark/LittleWire could not capture pulse timings after 25 break attempts." /\
                     breaks l = S n /\ Console s' = Console s ++ dots (S n) ++ [PutL] \/
                     w = Failure "Failed to set debugWIRE port baud rate" /\
                     exists k, (k < S n)%nat /\ breaks l = S k /\
                       Console s' = Console s ++ dots k)
                end).
    { intros s1 P1 C1 (l1 & L1 & B1) E. rewrite E.
      set (s2 := print PutFlush (print (PutC "."%char) s1)).
      destruct (IH s2 P1) as (l & Hl & Hm).
      assert (C2 : Console s2 = Console s ++ [PutC "."%char; PutFlush]).
      { unfold s2. cbn [Console print]. rewrite C1, <- app_assoc. reflexivity. }
      exists (l1 ++ l). split.
      { rewrite Hl. change (Log s2) with (Log s1). rewrite L1, app_assoc. reflexivity. }
      rewrite breaks_app, B1.
      destruct (DwBreakAndSync_loop adapter n s2) as [[] s'|w s'].
      - destruct Hm as (P' & K' & k & Hk & Bk & Ck).
        split; [exact P'|]. split; [exact K'|].
        exists (S k). split; [lia|]. split; [lia|].
        rewrite Ck, C2. unfold dots. cbn [repeat List.concat].
        rewrite <- !app_assoc. reflexivity.
      - destruct Hm as (P' & [(Ew & Bk & Ck)|(Ew & k & Hk & Bk & Ck)]).
        + split; [exact P'|]. left. split; [exact Ew|]. split; [lia|].
          rewrite Ck, C2. unfold dots. cbn [repeat List.concat].
          rewrite <- !app_assoc. reflexivity.
        + split; [exact P'|]. right. split; [exact Ew|].
          exists (S k). split; [lia|]. split; [lia|].
          rewrite Ck, C2. unfold dots. cbn [repeat List.concat].
          rewrite <- !app_assoc. reflexivity. }
    destruct (Z_lt_dec (rstatus (adapter (Calls s))) 0) as [Hneg|Hpos].
    + (* the break is refused *)
      apply (Retry (log_event (Out 33 []) s)); auto.
      * exists [Out 33 []]. split; reflexivity.
      * cbn [DwBreakAndSync_loop].
        rewrite (bind_Ok _ _ _ _ _
                   (usb_control_msg_out_open adapter 33 [] 0 s HP
                      ltac:(unfold zlen; simpl; lia))).
        replace (0 <=? rstatus (adapter (Calls s))) with false by (symmetry; lia).
        reflexivity.
    + (* the break is taken *)
      assert (Hr : 0 <= rstatus (adapter (Calls s))) by lia.
      assert (PB : Port (broke s) = true) by exact HP.
      destruct (SetDwireBaud_cases (broke s) PB) as (m & Hm & Hc).
      destruct (SetDwireBaud adapter (broke s)) as [ok s1|w s1] eqn:Es.
      * destruct Hc as (P1 & C1 & [(-> & _ & L1)|(-> & K1 & t & L1)]).
        -- apply (Retry s1); auto.
           ++ exists ([Out 33 []] ++ repeat (In_ 0 128) m). split.
              ** rewrite L1. cbn [Log broke log_event add_Elapsed].
                 rewrite <- app_assoc. reflexivity.
              ** rewrite breaks_app, breaks_polls. reflexivity.
           ++ apply DwBreakAndSync_retries; auto.
        -- rewrite (DwBreakAndSync_connects adapter n s s1 HP Hr Es).
           exists ([Out 33 []] ++ repeat (In_ 0 128) m ++ [Out 2 t]). split.
           { cbn [final Log print]. rewrite L1. cbn [Log broke log_event add_Elapsed].
             rewrite <- app_assoc. reflexivity. }
           split; [exact P1|]. split; [exact K1|].
           exists 0%nat. split; [lia|]. split.
           { rewrite !breaks_app, breaks_polls. reflexivity. }
           cbn [Console print cyclesPerPulse]. rewrite C1.
           cbn [Console broke log_event add_Elapsed dots repeat List.concat app].
           rewrite <- !app_assoc. reflexivity.
      * destruct Hc as (-> & P1 & C1 & K1 & t & L1).
        rewrite (DwBreakAndSync_breaks adapter n s HP Hr).
        rewrite bind_bind, (bind_Stop _ _ _ _ _ Es).
        exists ([Out 33 []] ++ repeat (In_ 0 128) m ++ [Out 2 t]). split.
        { cbn [final]. rewrite L1. cbn [Log broke log_event add_Elapsed].
          rewrite <- app_assoc. reflexivity. }
        split; [exact P1|]. right. split; [reflexivity|].
        exists 0%nat. split; [lia|]. split.
        { rewrite !breaks_app, breaks_polls. reflexivity. }
        rewrite C1. cbn [Console broke log_event add_Elapsed dots repeat List.concat].
        now rewrite app_nil_r.
Qed.

End Connecting.

(** ** Every stop is a call of [Fail] *)

Lemma triple_preserves {A : Type} (P I : State -> Prop) (m : M A)
    (Q : A -> State -> Prop) (E : stop -> State -> Prop) :
  triple P m Q E -> preserves I m ->
  triple (fun s => I s /\ P s) m (fun a s => I s /\ Q a s) (fun w s => E w s /\ I s).
Proof.
  intros Hm Hp s [Hi Hs]. specialize (Hm s Hs). specialize (Hp s Hi).
  destruct (m s); simpl in Hp; auto.
Qed.

Lemma live_frame : frame live.
Proof.
  split; [split|]; unfold live, wf; simpl; auto.
  intros b l s H [W HR]. split; [apply H, W|exact HR].
Qed.

Lemma defined_frame {A : Type} (P : State -> Prop) (m : M A) (Q : A -> State -> Prop) :
  triple P m Q abandoned -> preserves live m -> defined P m Q.
Proof. intros Hm Hp. now apply triple_preserves. Qed.

Lemma defined_bind {A B : Type} (P : State -> Prop) (m : M A) (f : A -> M B)
    (Q1 : A -> State -> Prop) (Q : B -> State -> Prop) :
  defined P m Q1 -> (forall a, defined (Q1 a) (f a) Q) -> defined P (bind m f) Q.
Proof. intros Hm Hf. eapply triple_bind; [exact Hm|exact Hf]. Qed.

Lemma defined_weaken {A : Type} (P P' : State -> Prop) (m : M A)
    (Q Q' : A -> State -> Prop) :
  defined P' m Q' ->
  (forall s, live s -> P s -> P' s) -> (forall a s, live s -> Q' a s -> Q a s) ->
  defined P m Q.
Proof.
  intros Hm HP HQ. eapply triple_weaken; [exact Hm| | |].
  - intros s [L H]. split; [exact L|]. now apply HP.
  - intros a s [L H]. split; [exact L|]. now apply HQ.
  - auto.
Qed.

Lemma defined_ret {A : Type} (P : State -> Prop) (a : A) (Q : A -> State -> Prop) :
  (forall s, live s -> P s -> Q a s) -> defined P (ret a) Q.
Proof. intros H. apply triple_ret. intros s [L Hs]. split; [exact L|]. now apply H. Qed.

Lemma defined_assume {A : Type} (P0 : Prop) (P : State -> Prop) (m : M A)
    (Q : A -> State -> Prop) :
  (P0 -> defined P m Q) -> defined (fun s => P0 /\ P s) m Q.
Proof. intros H s (L & H0 & Hs). apply (H H0). now split. Qed.

Section Defined.

Variable adapter : nat -> reply.
Variable attached : bool.

Lemma DwBreakAndSync_loop_safe n :
  triple (fun s => Port s = true) (DwBreakAndSync_loop adapter n)
    (fun _ s => Port s = true) abandoned.
Proof.
  intros s HP.
  destruct (DwBreakAndSync_loop_bounded adapter n s HP) as (l & _ & H).
  destruct (DwBreakAndSync_loop adapter n s) as [[] s'|w s'].
  - apply H.
  - destruct H as (P' & [(-> & _)|(-> & _)]); split; auto; eexists; reflexivity.
Qed.

Lemma ConnectPort_safe :
  triple (fun _ => True) (ConnectPort adapter attached) (fun _ s => Port s = true) abandoned.
Proof.
  intros s _. unfold ConnectPort. rewrite bind_modify, bind_read.
  cbn [Port set_Port]. destruct attached eqn:Ea.
  - rewrite bind_ret. apply DwBreakAndSync_loop_safe. reflexivity.
  - cbn. split; [eexists; reflexivity|reflexivity].
Qed.

Lemma dwUSBSendBytes_safe state out outlen :
  outlen <= zlen out ->
  triple (fun _ => True) (dwUSBSendBytes adapter attached state out outlen)
    (fun _ s => Port s = true) abandoned.
Proof.
  intros Hl s _. unfold dwUSBSendBytes. rewrite bind_read.
  assert (Rest : forall s1, Port s1 = true ->
            match (status <- usb_control_msg_out adapter state out outlen;;
                   status <- send_retry adapter 50 state out outlen status;;
                   (if status <? outlen
                    then Ws "Failed to send bytes to AVR, status ";; Wd status 1;;
                         PortFail ""
                    else ret tt);;
                   delay 3) s1 with
            | Ok _ s' => Port s' = true
            | Stop w s' => abandoned w s'
            end).
  { intros s1 HP.
    rewrite (bind_Ok _ _ _ _ _ (usb_control_msg_out_open _ _ _ _ s1 HP Hl)).
    destruct (send_retry_open adapter 50 state out outlen (rstatus (adapter (Calls s1)))
                (log_event (Out state (take outlen out)) s1) HP Hl)
      as (st' & s' & m & E1 & E2 & _).
    rewrite (bind_Ok _ _ _ _ _ E1).
    destruct (st' <? outlen); cbn.
    - split; [eexists; reflexivity|reflexivity].
    - exact E2. }
  destruct (Port s) eqn:HP.
  - rewrite bind_ret. now apply Rest.
  - pose proof (ConnectPort_safe s Logic.I) as C.
    destruct (ConnectPort adapter attached s) as [[] s1|w s1] eqn:Ec.
    + rewrite (bind_Ok _ _ _ _ _ Ec). now apply Rest.
    + now rewrite (bind_Stop _ _ _ _ _ Ec).
Qed.

(** A flush: the buffer is empty afterwards, and the handle is open if it
    was, or if there was something to send. *)
Lemma dwBufferFlush_safe state :
  defined primed (dwBufferFlush adapter attached state)
    (fun _ s => Port s = true /\ OutBufLength s = 0).
Proof.
  eapply triple_weaken.
  - apply (triple_preserves (fun s => wf s /\ primed s) live
             (dwBufferFlush adapter attached state)
             (fun _ s => Port s = true /\ OutBufLength s = 0) abandoned);
      [|apply dwBufferFlush_frame, live_frame].
    intros s ([W1 W2] & Hp). unfold dwBufferFlush. rewrite bind_read.
    destruct (0 <? OutBufLength s) eqn:E.
    + rewrite bind_read.
      pose proof (dwUSBSendBytes_safe state (OutBufBytes s) (OutBufLength s)
                    ltac:(lia) s Logic.I) as H.
      destruct (dwUSBSendBytes adapter attached state (OutBufBytes s) (OutBufLength s) s)
        as [[] s1|w s1] eqn:Es.
      * rewrite (bind_Ok _ _ _ _ _ Es). cbn. auto.
      * now rewrite (bind_Stop _ _ _ _ _ Es).
    + cbn. destruct Hp as [Hp|Hp]; [|lia]. split; [exact Hp|lia].
  - intros s [L Hp]. split; [exact L|]. split; [apply L|exact Hp].
  - auto.
  - auto.
Qed.

(** A flush when nothing is known of the handle. *)
Lemma dwBufferFlush_safe_any state :
  defined (fun _ => True) (dwBufferFlush adapter attached state)
    (fun _ s => OutBufLength s = 0).
Proof.
  eapply triple_weaken.
  - apply (triple_preserves (fun s => wf s) live
             (dwBufferFlush adapter attached state)
             (fun _ s => OutBufLength s = 0) abandoned);
      [|apply dwBufferFlush_frame, live_frame].
    intros s [W1 W2]. unfold dwBufferFlush. rewrite bind_read.
    destruct (0 <? OutBufLength s) eqn:E.
    + rewrite bind_read.
      pose proof (dwUSBSendBytes_safe state (OutBufBytes s) (OutBufLength s)
                    ltac:(lia) s Logic.I) as H.
      destruct (dwUSBSendBytes adapter attached state (OutBufBytes s) (OutBufLength s) s)
        as [[] s1|w s1] eqn:Es.
      * rewrite (bind_Ok _ _ _ _ _ Es). reflexivity.
      * now rewrite (bind_Stop _ _ _ _ _ Es).
    + cbn. lia.
  - intros s [L _]. split; [exact L|apply L].
  - auto.
  - auto.
Qed.

(** The loop of [DwSend], whatever the adapter does. *)
Lemma DwSend_loop_safe fuel : forall out outlen s,
  wf s -> 0 <= outlen <= zlen out -> outlen <= INT_MAX ->
  zlen out + (if OutBufLength s =? 128 then 1 else 0) <= Z.of_nat fuel ->
  match DwSend_loop adapter attached fuel out outlen s with
  | Ok (out', outlen') s' =>
      wf s' /\ 0 <= outlen' <= zlen out' /\ OutBufLength s' + outlen' <= 128 /\
      (1 <= outlen -> 1 <= outlen') /\ (0 < OutBufLength s -> 0 < OutBufLength s' + outlen') /\
      (Port s = true -> Port s' = true)
  | Stop w s' => abandoned w s'
  end.
Proof.
  induction fuel as [|fuel IH]; intros out outlen s W Ho Hi Hf;
    pose proof W as [W1 W2];
    cbn [DwSend_loop]; rewrite bind_read;
    rewrite size_t_small by (unfold INT_MAX in *; lia);
    destruct (OutBufLength s + outlen >? sizeof_OutBufBytes) eqn:C;
    unfold sizeof_OutBufBytes in *;
    try (cbn; repeat split; auto; lia).
  - destruct (OutBufLength s =? 128) eqn:E; lia.
  - set (len := OutBufLength s) in *.
    rewrite bind_read, bind_in_bounds, memcpy_fits by lia.
    rewrite bind_modify.
    set (bytes' := take len (OutBufBytes s) ++ take (128 - len) out ++
                   drop (len + (128 - len)) (OutBufBytes s)).
    assert (Zb : zlen bytes' = 128).
    { unfold bytes'. rewrite !zlen_app, !zlen_take, zlen_drop. lia. }
    set (s1 := set_OutBuf bytes' len s).
    pose proof (dwUSBSendBytes_safe 4 bytes' 128 ltac:(lia) s1 Logic.I) as Hs.
    pose proof (dwUSBSendBytes_frame adapter attached _ (same_buffer_tframe s1)
                  4 bytes' 128 ltac:(discriminate) s1 ltac:(split; reflexivity)) as Hb.
    destruct (dwUSBSendBytes adapter attached 4 bytes' 128 s1) as [[] s2|w s2] eqn:Es.
    + rewrite (bind_Ok _ _ _ _ _ Es), bind_modify. cbn [final] in Hb.
      destruct Hb as [Hb1 Hb2].
      set (s3 := set_OutBuf _ 0 _).
      assert (W3 : wf s3) by (split; simpl; [rewrite Hb1|]; simpl; lia).
      assert (L3 : OutBufLength s3 = 0) by reflexivity.
      assert (Zd : zlen (drop (128 - len) out) = zlen out - (128 - len))
        by (rewrite zlen_drop; lia).
      assert (F3 : zlen (drop (128 - len) out) +
                   (if OutBufLength s3 =? 128 then 1 else 0) <= Z.of_nat fuel).
      { rewrite L3, Zd. change (0 =? 128) with false. cbv iota.
        destruct (len =? 128) eqn:E; lia. }
      specialize (IH (drop (128 - len) out) (outlen - (128 - len)) s3 W3
                    ltac:(lia) ltac:(lia) F3).
      destruct (DwSend_loop adapter attached fuel (drop (128 - len) out)
                  (outlen - (128 - len)) s3) as [[out' outlen'] s'|w s']; [|exact IH].
      destruct IH as (W' & O' & B' & N' & _ & P').
      split; [exact W'|]. split; [exact O'|]. split; [exact B'|].
      assert (1 <= outlen') by (apply N'; lia).
      split; [auto|]. split; [intros _; destruct W'; lia|].
      intros _. apply P'. exact Hs.
    + now rewrite (bind_Stop _ _ _ _ _ Es).
Qed.

(** [DwSend] is defined for a count within the array: the bytes end up in
    the buffer, and a buffer that was not empty, or a count of one or more,
    leaves it not empty. *)
Lemma DwSend_safe out outlen :
  0 <= outlen <= zlen out -> outlen <= INT_MAX ->
  forall s, wf s ->
  match DwSend adapter attached out outlen s with
  | Ok _ s' =>
      (1 <= outlen \/ 0 < OutBufLength s -> 0 < OutBufLength s') /\
      (Port s = true -> Port s' = true)
  | Stop w s' => abandoned w s'
  end.
Proof.
  intros Ho Hi s W. unfold DwSend.
  pose proof (DwSend_loop_safe (S (List.length out)) out outlen s W Ho Hi
                ltac:(unfold zlen; destruct (OutBufLength s =? 128); lia)) as L.
  destruct (DwSend_loop adapter attached (S (List.length out)) out outlen s)
    as [[out' outlen'] s'|w s'] eqn:E.
  - destruct L as ([W1 W2] & O' & B' & N' & K' & P').
    rewrite (bind_Ok _ _ _ _ _ E).
    rewrite bind_read, bind_Assert.
    rewrite size_t_small by (unfold INT_MAX in *; lia).
    replace (OutBufLength s' + outlen' <=? sizeof_OutBufBytes) with true
      by (symmetry; unfold sizeof_OutBufBytes; lia).
    rewrite bind_read, bind_in_bounds, memcpy_fits by lia.
    cbn. split; [|exact P'].
    intros [H|H]; [specialize (N' H); lia|specialize (K' H); lia].
  - now rewrite (bind_Stop _ _ _ _ _ E).
Qed.

Lemma DwSend_defined out outlen :
  0 <= outlen <= zlen out -> outlen <= INT_MAX ->
  defined (fun _ => True) (DwSend adapter attached out outlen)
    (fun _ s => 1 <= outlen -> 0 < OutBufLength s).
Proof.
  intros Ho Hi. eapply triple_weaken.
  - apply (triple_preserves wf live (DwSend adapter attached out outlen)
             (fun _ s => 1 <= outlen -> 0 < OutBufLength s) abandoned);
      [|apply DwSend_frame, live_frame].
    intros s W. pose proof (DwSend_safe out outlen Ho Hi s W) as H.
    destruct (DwSend adapter attached out outlen s); [|exact H].
    intros H1. apply H. now left.
  - intros s [L _]. split; [exact L|apply L].
  - auto.
  - auto.
Qed.

(** A [DwSend] on a primed session leaves it primed. *)
Lemma DwSend_primed out outlen :
  0 <= outlen <= zlen out -> outlen <= INT_MAX ->
  defined primed (DwSend adapter attached out outlen) (fun _ s => primed s).
Proof.
  intros Ho Hi. eapply triple_weaken.
  - apply (triple_preserves (fun s => wf s /\ primed s) live
             (DwSend adapter attached out outlen)
             (fun _ s => primed s) abandoned);
      [|apply DwSend_frame, live_frame].
    intros s [W Hp]. pose proof (DwSend_safe out outlen Ho Hi s W) as H.
    destruct (DwSend adapter attached out outlen s); [|exact H].
    destruct H as [H1 H2]. destruct Hp as [Hp|Hp]; [left; auto|right; auto].
  - intros s [L Hp]. split; [exact L|]. split; [apply L|exact Hp].
  - auto.
  - auto.
Qed.

(** [DwSend(Bytes(...))] of one byte or more: a read may follow. *)
Lemma DwSendBytes_defined l :
  l <> [] -> zlen l <= INT_MAX ->
  defined (fun _ => True) (DwSendBytes adapter attached (Bytes l)) (fun _ s => primed s).
Proof.
  intros Hn Hi. unfold DwSendBytes, Bytes, fst, snd.
  pose proof (zlen_nonneg l).
  assert (1 <= zlen l) by (destruct l; [congruence|rewrite zlen_cons; pose proof (zlen_nonneg l); lia]).
  eapply defined_weaken.
  - apply DwSend_defined; [rewrite zlen_map; lia|exact Hi].
  - auto.
  - intros a s _ Hs. right. apply Hs. lia.
Qed.

(** An IN transfer on an open handle. *)
Lemma usb_control_msg_in_open value buf size s :
  Port s = true -> size <= zlen buf ->
  exists st buf',
    usb_control_msg_in adapter value buf size s =
    Ok (st, buf') (log_event (In_ value size) s) /\
    zlen buf' = zlen buf /\ st <= Z.max 0 size /\
    (Forall is_byte buf -> Forall is_byte buf').
Proof.
  intros HP Hs. unfold usb_control_msg_in. rewrite HP. cbv zeta.
  pose proof (zlen_nonneg buf).
  destruct (rstatus (adapter (Calls s)) <? 0) eqn:E.
  - do 2 eexists. split; [reflexivity|]. split; [reflexivity|]. split; [lia|auto].
  - set (d := map u8 (take size (rdata (adapter (Calls s))))).
    assert (Hd : 0 <= zlen d <= Z.max 0 size).
    { unfold d. rewrite zlen_map, zlen_take. lia. }
    replace (zlen d <=? zlen buf) with true by (symmetry; lia).
    do 2 eexists. split; [reflexivity|]. split; [|split; [lia|]].
    + rewrite zlen_app, zlen_drop. lia.
    + intros Hb. apply Forall_app. split.
      * unfold d. apply Forall_forall. intros x Hx. apply in_map_iff in Hx.
        destruct Hx as (y & <- & _). unfold is_byte, u8.
        pose proof (Z.mod_pos_bound y 256 ltac:(lia)). lia.
      * apply Forall_forall. intros x Hx. rewrite Forall_forall in Hb.
        apply Hb. eapply In_drop. exact Hx.
Qed.

(** The polling loop of [DwReceive] on an open handle. *)
Lemma receive_retry_open n : forall status buf inlen s,
  Port s = true -> inlen <= zlen buf -> status <= Z.max 0 inlen ->
  exists st buf' s' m,
    receive_retry adapter n status buf inlen s = Ok (st, buf') s' /\
    zlen buf' = zlen buf /\ st <= Z.max 0 inlen /\
    (Forall is_byte buf -> Forall is_byte buf') /\
    (m <= n)%nat /\ s' = polled inlen m s.
Proof.
  induction n as [|n IH]; intros status buf inlen s HP Hi Hst; cbn [receive_retry].
  - exists status, buf, s, 0%nat.
    split; [reflexivity|]. split; [reflexivity|]. split; [exact Hst|].
    split; [auto|]. split; [lia|reflexivity].
  - destruct (status <=? 0).
    + unfold delay. rewrite bind_modify.
      destruct (usb_control_msg_in_open 0 buf inlen (add_Elapsed 20 s) HP Hi)
        as (st & buf1 & E & Z1 & S1 & B1).
      rewrite (bind_Ok _ _ _ _ _ E).
      destruct (IH st buf1 inlen (log_event (In_ 0 inlen) (add_Elapsed 20 s))
                  HP ltac:(lia) S1) as (st' & buf' & s' & m & E' & Z' & S' & B' & M' & P').
      exists st', buf', s', (S m). split; [exact E'|]. split; [lia|].
      split; [exact S'|]. split; [auto|]. split; [lia|exact P'].
    + exists status, buf, s, 0%nat.
      split; [reflexivity|]. split; [reflexivity|]. split; [exact Hst|].
      split; [auto|]. split; [lia|reflexivity].
Qed.

Lemma live_polled size m s : live s -> live (polled size m s).
Proof.
  revert s. induction m as [|m IH]; intros s L; [exact L|].
  apply IH. exact L.
Qed.

Lemma OutBufLength_polled size m s : OutBufLength (polled size m s) = OutBufLength s.
Proof.
  revert s. induction m as [|m IH]; intros s; [reflexivity|].
  simpl. now rewrite IH.
Qed.

(** [DwReceive] is defined on a primed session, for a count within the
    array and the 128 bytes of a transfer. *)
Lemma DwReceive_defined buf inlen :
  inlen <= 128 -> inlen <= zlen buf ->
  defined primed (DwReceive adapter attached buf inlen)
    (fun r s => Port s = true /\ OutBufLength s = 0 /\
                zlen (snd r) = zlen buf /\ fst r <= Z.max 0 inlen /\
                (Forall is_byte buf -> Forall is_byte (snd r))).
Proof.
  intros Hi Hb. unfold DwReceive.
  intros s [L Hp]. rewrite bind_Assert.
  replace (inlen <=? 128) with true by (symmetry; lia).
  pose proof (dwBufferFlush_safe 0x14 s (conj L Hp)) as F.
  destruct (dwBufferFlush adapter attached 0x14 s) as [[] s1|w s1] eqn:Ef.
  - rewrite (bind_Ok _ _ _ _ _ Ef). destruct F as (L1 & P1 & Z1).
    destruct (receive_retry_open 50 0 buf inlen s1 P1 Hb ltac:(lia))
      as (st & buf' & s' & m & E & Zb & S' & B' & _ & ->).
    rewrite E. split; [now apply live_polled|].
    rewrite Port_polled, OutBufLength_polled. cbn [fst snd]. auto.
  - now rewrite (bind_Stop _ _ _ _ _ Ef).
Qed.

Lemma SetDwireBaud_defined :
  defined (fun s => Port s = true /\ OutBufLength s = 0) (SetDwireBaud adapter)
    (fun ok s => Port s = true /\ OutBufLength s = 0 /\
                 (ok = 0 \/ ok = 1 /\ calibrated s)).
Proof.
  intros s (L & P & Z).
  destruct (SetDwireBaud_cases adapter s P) as (m & _ & C).
  pose proof (SetDwireBaud_frame adapter live (frame_transport _ live_frame) s L) as FL.
  pose proof (SetDwireBaud_frame adapter _ (same_buffer_tframe s) s
                ltac:(split; reflexivity)) as FB.
  destruct (SetDwireBaud adapter s) as [ok s'|w s']; cbn [final] in FL, FB.
  - destruct C as (P' & _ & C). split; [exact FL|]. split; [exact P'|].
    split; [destruct FB as [_ ->]; exact Z|].
    destruct C as [(-> & _)|(-> & K & _)]; auto.
  - destruct C as (-> & P' & _). split; [|exact FL].
    split; [eexists; reflexivity|exact P'].
Qed.

Lemma DwSync_defined :
  defined primed (DwSync adapter attached)
    (fun _ s => Port s = true /\ OutBufLength s = 0 /\ calibrated s).
Proof.
  unfold DwSync. eapply defined_bind; [apply dwBufferFlush_safe|]. intros u.
  eapply defined_bind; [apply SetDwireBaud_defined|]. intros ok.
  intros s (L & P & Z & K). destruct (ok =? 0) eqn:E.
  - cbn. split; [split; [eexists; reflexivity|reflexivity]|exact L].
  - cbn. split; [exact L|]. split; [exact P|]. split; [exact Z|].
    destruct K as [->|[_ K]]; [discriminate|exact K].
Qed.

Lemma DwFlush_defined :
  defined (fun _ => True) (DwFlush adapter attached) (fun _ s => OutBufLength s = 0).
Proof. apply dwBufferFlush_safe_any. Qed.

Lemma DwWait_defined :
  defined (fun _ => True) (DwWait adapter attached) (fun _ s => OutBufLength s = 0).
Proof. apply dwBufferFlush_safe_any. Qed.

Lemma nth_byte (l : list Z) (i : nat) : Forall is_byte l -> is_byte (nth i l 0).
Proof.
  intros H. revert i. induction H as [|b l Hb Hl IH]; intros [|i]; simpl;
    try (unfold is_byte; lia); auto.
Qed.

Lemma DwReadByte_defined :
  defined primed (DwReadByte adapter attached)
    (fun v s => Port s = true /\ OutBufLength s = 0 /\ 0 <= v <= 255).
Proof.
  unfold DwReadByte. eapply defined_bind.
  - apply (DwReceive_defined [0] 1); unfold zlen; simpl; lia.
  - intros [st buf]. apply defined_ret. cbn [fst snd].
    intros s _ (P & Z & _ & _ & B). split; [exact P|]. split; [exact Z|].
    apply nth_byte, B. repeat constructor; unfold is_byte; lia.
Qed.

Lemma DwReadWord_defined :
  defined primed (DwReadWord adapter attached)
    (fun v s => Port s = true /\ OutBufLength s = 0 /\ 0 <= v <= 65535).
Proof.
  unfold DwReadWord. eapply defined_bind.
  - apply (DwReceive_defined [0; 0] 2); unfold zlen; simpl; lia.
  - intros [st buf]. apply defined_ret. cbn [fst snd].
    intros s _ (P & Z & _ & _ & B). split; [exact P|]. split; [exact Z|].
    assert (Bb : Forall is_byte buf)
      by (apply B; repeat constructor; unfold is_byte; lia).
    pose proof (nth_byte buf 0 Bb) as B0. pose proof (nth_byte buf 1 Bb) as B1.
    rewrite (word_of_bytes _ _ B0 B1). unfold is_byte in *. lia.
Qed.

(** *** The functions that only send *)

Lemma sends_DwSend out outlen :
  0 <= outlen <= zlen out -> outlen <= INT_MAX ->
  sends (DwSend adapter attached out outlen) (1 <= outlen).
Proof.
  intros Ho Hi s W. pose proof (DwSend_safe out outlen Ho Hi s W) as H.
  pose proof (DwSend_frame adapter attached wf wf_frame out outlen s W) as F.
  destruct (DwSend adapter attached out outlen s); [|exact H].
  split; [exact F|exact H].
Qed.

Lemma sends_Bytes l :
  zlen l <= INT_MAX -> sends (DwSendBytes adapter attached (Bytes l)) (l <> []).
Proof.
  intros Hi s W. unfold DwSendBytes, Bytes, fst, snd.
  pose proof (zlen_nonneg l) as Hz.
  pose proof (sends_DwSend (map u8 l) (zlen l) ltac:(rewrite zlen_map; lia) Hi s W) as H.
  destruct (DwSend adapter attached (map u8 l) (zlen l) s); [|exact H].
  destruct H as (W' & N & P). split; [exact W'|]. split; [|exact P].
  intros [Hn|Hn]; apply N; [left|right; exact Hn].
  destruct l; [congruence|rewrite zlen_cons]. pose proof (zlen_nonneg l). lia.
Qed.

Lemma sends_ret : sends (ret tt) False.
Proof. intros s W. cbn. split; [exact W|]. split; [intros [[]|H]; exact H|auto]. Qed.

Lemma sends_bind m k (a b : Prop) :
  sends m a -> sends k b -> sends (m;; k) (a \/ b).
Proof.
  intros Hm Hk s W. unfold bind. specialize (Hm s W).
  destruct (m s) as [[] s1|w s1]; [|exact Hm].
  destruct Hm as (W1 & N1 & P1). specialize (Hk s1 W1).
  destruct (k s1) as [[] s2|w s2]; [|exact Hk].
  destruct Hk as (W2 & N2 & P2). split; [exact W2|]. split; [|auto].
  intros [[H|H]|H]; apply N2; auto.
Qed.

Lemma sends_weaken m (a b : Prop) : sends m a -> (b -> a) -> sends m b.
Proof.
  intros Hm Hab s W. specialize (Hm s W). destruct (m s); [|exact Hm].
  destruct Hm as (W1 & N1 & P1). split; [exact W1|]. split; [|exact P1].
  intros [H|H]; apply N1; auto.
Qed.

(** A function that sends is defined, and a read may follow it if it was
    possible before or if [some] bytes are sent. *)
Lemma sends_defined m (some : Prop) :
  sends m some -> preserves live m ->
  defined (fun s => some \/ primed s) m (fun _ s => primed s).
Proof.
  intros Hm Hp. eapply triple_weaken.
  - apply (triple_preserves (fun s => wf s /\ (some \/ primed s)) live m
             (fun _ s => primed s) abandoned); [|exact Hp].
    intros s [W H]. specialize (Hm s W). destruct (m s); [|exact Hm].
    destruct Hm as (W1 & N1 & P1). unfold primed in *.
    destruct H as [H|[H|H]]; auto.
  - intros s [L H]. split; [exact L|]. split; [apply L|exact H].
  - auto.
  - auto.
Qed.

End Defined.

(** The loop over the cached registers, for a cursor within the array. *)
Lemma DwReadAddr_cached_total fuel : forall addr len pos buf s,
  zlen (R s) = 32 -> 0 <= pos -> (0 < len -> pos + len <= zlen buf) ->
  len <= 0 \/ 32 - addr <= Z.of_nat fuel ->
  match DwReadAddr_cached fuel addr len pos buf s with
  | Ok (addr', len', pos', buf') s' =>
      s' = s /\ zlen buf' = zlen buf /\ 0 <= pos' /\
      (0 < len' -> pos' + len' <= zlen buf') /\
      (len' <= 0 \/ 32 <= addr' \/ addr' < 28) /\ addr <= addr' /\ len' <= len
  | Stop _ _ => False
  end.
Proof.
  assert (Exit : forall addr len : Z,
            (28 <=? addr) && (addr <=? 31) && (0 <? len) = false ->
            len <= 0 \/ 32 <= addr \/ addr < 28).
  { intros addr len C. rewrite !andb_false_iff in C. lia. }
  induction fuel as [|fuel IH]; intros addr len pos buf s HR Hp Hb Hf;
    cbn [DwReadAddr_cached];
    destruct ((28 <=? addr) && (addr <=? 31) && (0 <? len)) eqn:C.
  - rewrite !andb_true_iff in C. lia.
  - cbn. split; [reflexivity|]. split; [reflexivity|]. split; [exact Hp|].
    split; [exact Hb|]. split; [now apply Exit|lia].
  - rewrite !andb_true_iff in C.
    rewrite bind_read, bind_in_bounds, load_fits by lia.
    rewrite bind_in_bounds.
    destruct (store_fits buf pos (nth (Z.to_nat addr) (R s) 0) ltac:(lia))
      as (buf1 & Es & Z1).
    rewrite Es.
    specialize (IH (addr + 1) (len - 1) (pos + 1) buf1 s HR ltac:(lia)
                  ltac:(lia) ltac:(lia)).
    destruct (DwReadAddr_cached fuel (addr + 1) (len - 1) (pos + 1) buf1 s)
      as [[[[a' l'] p'] buf'] s'|w s']; [|exact IH].
    destruct IH as (-> & Zb & P' & B' & X' & L' & M').
    split; [reflexivity|]. split; [lia|]. split; [exact P'|]. split; [exact B'|].
    split; [exact X'|lia].
  - cbn. split; [reflexivity|]. split; [reflexivity|]. split; [exact Hp|].
    split; [exact Hb|]. split; [now apply Exit|lia].
Qed.

(** A fact that follows from the precondition may be used. *)
Lemma defined_from {A : Type} (P0 : Prop) (P : State -> Prop) (m : M A)
    (Q : A -> State -> Prop) :
  (forall s, live s -> P s -> P0) -> (P0 -> defined P m Q) -> defined P m Q.
Proof. intros H Hm s [L Hs]. apply (Hm (H s L Hs)). now split. Qed.

(** The same, when nothing else of the precondition is needed. *)
Lemma defined_given {A : Type} (P0 : Prop) (P : State -> Prop) (m : M A)
    (Q : A -> State -> Prop) :
  (forall s, live s -> P s -> P0) -> (P0 -> defined (fun _ => True) m Q) ->
  defined P m Q.
Proof. intros H Hm s [L Hs]. apply (Hm (H s L Hs)). now split. Qed.

Lemma defined_pre {A : Type} (P P' : State -> Prop) (m : M A) (Q : A -> State -> Prop) :
  defined P' m Q -> (forall s, live s -> P s -> P' s) -> defined P m Q.
Proof. intros Hm H. eapply defined_weaken; [exact Hm|exact H|auto]. Qed.

Lemma defined_post {A : Type} (P : State -> Prop) (m : M A) (Q Q' : A -> State -> Prop) :
  defined P m Q' -> (forall a s, live s -> Q' a s -> Q a s) -> defined P m Q.
Proof. intros Hm H. eapply defined_weaken; [exact Hm|auto|exact H]. Qed.

(** A value read from the state. *)
Lemma defined_read {A B : Type} (P : State -> Prop) (g : State -> A) (k : A -> M B)
    (Q : B -> State -> Prop) :
  (forall a, defined P (k a) Q) -> defined P (bind (read g) k) Q.
Proof. intros H s Hs. rewrite bind_read. exact (H (g s) s Hs). Qed.

(** The shadow read from a live session has its 32 registers. *)
Lemma defined_read_R {B : Type} (P : State -> Prop) (k : list Z -> M B)
    (Q : B -> State -> Prop) :
  (forall r, zlen r = 32 -> defined P (k r) Q) -> defined P (bind (read R) k) Q.
Proof. intros H s Hs. rewrite bind_read. exact (H (R s) (proj2 (proj1 Hs)) s Hs). Qed.

Section DefinedCommands.

Variable adapter : nat -> reply.
Variable attached : bool.
Variables DWDRreg DWDRaddr FlashSize : Z.

Lemma sends_DwSetPC pc : sends (DwSetPC adapter attached pc) True.
Proof.
  unfold DwSetPC. eapply sends_weaken.
  - apply sends_Bytes. vm_compute. discriminate.
  - intros _. discriminate.
Qed.

Lemma sends_DwSetBP bp : sends (DwSetBP adapter attached bp) True.
Proof.
  unfold DwSetBP. eapply sends_weaken.
  - apply sends_Bytes. vm_compute. discriminate.
  - intros _. discriminate.
Qed.

Lemma sends_DwInst inst : sends (DwInst adapter attached inst) True.
Proof.
  unfold DwInst. eapply sends_weaken.
  - apply sends_Bytes. vm_compute. discriminate.
  - intros _. discriminate.
Qed.

Lemma sends_some l :
  l <> [] -> zlen l <= INT_MAX -> sends (DwSendBytes adapter attached (Bytes l)) True.
Proof.
  intros Hn Hi. eapply sends_weaken; [apply sends_Bytes; exact Hi|auto].
Qed.

Lemma sends_DwSetReg reg val : sends (DwSetReg adapter attached DWDRreg reg val) True.
Proof.
  unfold DwSetReg, DwIn. eapply sends_weaken.
  - apply sends_bind; [apply sends_DwInst|].
    apply (sends_some [val]); [discriminate|vm_compute; discriminate].
  - auto.
Qed.

Lemma zlen_drop_1 (l : list Z) : 1 <= zlen l -> zlen (drop 1 l) = zlen l - 1.
Proof. intros H. rewrite zlen_drop. lia. Qed.

(** The loop of [DwSetRegs]: [count] registers are within [regs], and the
    fuel covers them. *)
Lemma sends_DwSetRegs_loop fuel : forall first regs count,
  count <= Z.of_nat fuel -> count <= zlen regs ->
  sends (DwSetRegs_loop adapter attached DWDRreg fuel first regs count) (1 <= count).
Proof.
  induction fuel as [|fuel IH]; intros first regs count Hf Hr;
    cbn [DwSetRegs_loop]; destruct (0 <? count) eqn:C.
  - lia.
  - eapply sends_weaken; [apply sends_ret|lia].
  - rewrite load_fits by lia. cbn [in_bounds].
    intros s W. rewrite bind_ret. revert s W.
    eapply sends_weaken.
    + apply sends_bind; [apply sends_DwSetReg|].
      apply (IH (first + 1) (drop 1 regs) (count - 1)); [lia|].
      rewrite zlen_drop_1; lia.
    + auto.
  - eapply sends_weaken; [apply sends_ret|lia].
Qed.

Lemma sends_DwSetRegs first regs count :
  count <= zlen regs -> count <= INT_MAX ->
  sends (DwSetRegs adapter attached DWDRreg first regs count) (1 <= count).
Proof.
  intros Hr Hi. unfold DwSetRegs. destruct (count <=? 3) eqn:C.
  - apply sends_DwSetRegs_loop; [simpl; lia|exact Hr].
  - eapply sends_weaken.
    + apply sends_bind; [apply sends_DwSetPC|].
      apply sends_bind; [apply sends_DwSetBP|].
      apply sends_bind.
      * apply (sends_some [0x66; 0xC2; 0x05; 0x20]); [discriminate|vm_compute; discriminate].
      * apply sends_DwSend; lia.
    + auto.
Qed.

Lemma sends_DwSetZ z : sends (DwSetZ adapter attached DWDRreg z) True.
Proof.
  unfold DwSetZ. cbv zeta. eapply sends_weaken.
  - apply sends_DwSetRegs; [unfold zlen; simpl; lia|unfold INT_MAX; lia].
  - lia.
Qed.

Lemma sends_defined_some m :
  sends m True -> preserves live m ->
  defined (fun _ => True) m (fun _ s => primed s).
Proof.
  intros Hm Hp. eapply defined_weaken; [apply (sends_defined m True Hm Hp)| |].
  - intros s _ _. left. exact Logic.I.
  - intros a s _ H. exact H.
Qed.

Lemma sends_defined_primed m (some : Prop) :
  sends m some -> preserves live m -> defined primed m (fun _ s => primed s).
Proof.
  intros Hm Hp. eapply defined_weaken; [apply (sends_defined m some Hm Hp)| |].
  - intros s _ H. right. exact H.
  - intros a s _ H. exact H.
Qed.

Lemma DwSetPC_defined pc :
  defined (fun _ => True) (DwSetPC adapter attached pc) (fun _ s => primed s).
Proof. apply sends_defined_some; [apply sends_DwSetPC|apply DwSetPC_frame, live_frame]. Qed.

Lemma DwSetBP_defined bp :
  defined primed (DwSetBP adapter attached bp) (fun _ s => primed s).
Proof.
  eapply sends_defined_primed; [apply sends_DwSetBP|apply DwSetBP_frame, live_frame].
Qed.

Lemma DwSendBytes_primed l :
  zlen l <= INT_MAX ->
  defined primed (DwSendBytes adapter attached (Bytes l)) (fun _ s => primed s).
Proof.
  intros Hi. eapply sends_defined_primed;
    [apply sends_Bytes; exact Hi|apply DwSendBytes_frame, live_frame].
Qed.

Lemma DwOut_defined ioreg reg :
  defined (fun _ => True) (DwOut adapter attached ioreg reg) (fun _ s => primed s).
Proof.
  unfold DwOut. apply sends_defined_some; [apply sends_DwInst|apply DwInst_frame, live_frame].
Qed.

Lemma DwSetRegs_defined first regs count :
  1 <= count <= zlen regs -> count <= INT_MAX ->
  defined (fun _ => True) (DwSetRegs adapter attached DWDRreg first regs count)
    (fun _ s => primed s).
Proof.
  intros Hc Hi. apply sends_defined_some; [|apply DwSetRegs_frame, live_frame].
  eapply sends_weaken; [apply sends_DwSetRegs; lia|lia].
Qed.

Lemma DwSetZ_defined z :
  defined (fun _ => True) (DwSetZ adapter attached DWDRreg z) (fun _ s => primed s).
Proof. apply sends_defined_some; [apply sends_DwSetZ|apply DwSetZ_frame, live_frame]. Qed.

(** [DwGetRegs] is defined for a count within [regs] and the 128 bytes of
    a transfer; it leaves the handle open and the buffer empty. *)
Lemma DwGetRegs_defined first regs count :
  count <= 128 -> count <= zlen regs ->
  defined (fun _ => True) (DwGetRegs adapter attached DWDRreg first regs count)
    (fun regs' s => Port s = true /\ OutBufLength s = 0 /\ zlen regs' = zlen regs /\
                    (Forall is_byte regs -> Forall is_byte regs')).
Proof.
  intros Hc Hr. unfold DwGetRegs.
  eapply defined_bind with (Q1 := fun _ s => primed s).
  - destruct (count =? 1).
    + apply DwOut_defined.
    + eapply defined_bind; [apply DwSetPC_defined|]. intros u.
      eapply defined_bind; [apply DwSetBP_defined|]. intros u'.
      apply DwSendBytes_primed. vm_compute. discriminate.
  - intros u. eapply defined_bind; [apply (DwReceive_defined adapter attached regs count Hc Hr)|].
    intros [st regs']. apply defined_ret. cbn [fst snd].
    intros s _ (P & Z & Zr & _ & B). auto.
Qed.

(** A bulk read is defined for a count within [buf] and a transfer. *)
Lemma DwUnsafeReadAddr_defined addr len buf :
  len <= 128 -> len <= zlen buf ->
  defined (fun _ => True) (DwUnsafeReadAddr adapter attached DWDRreg addr len buf)
    (fun buf' s => Port s = true /\ OutBufLength s = 0 /\ zlen buf' = zlen buf).
Proof.
  intros Hl Hb. unfold DwUnsafeReadAddr.
  eapply defined_bind with (Q1 := fun _ _ => True).
  { intros s [L _]. cbn. split; [exact L|exact Logic.I]. }
  intros u. eapply defined_bind; [apply DwSetZ_defined|]. intros u1.
  eapply defined_bind.
  { eapply sends_defined_primed; [apply sends_DwSetPC|apply DwSetPC_frame, live_frame]. }
  intros u2. eapply defined_bind; [apply DwSetBP_defined|]. intros u3.
  eapply defined_bind; [apply DwSendBytes_primed; vm_compute; discriminate|]. intros u4.
  eapply defined_bind; [apply (DwReceive_defined adapter attached buf len Hl Hb)|].
  intros [st buf']. apply defined_ret. cbn [fst snd].
  intros s _ (P & Z & Zr & _). auto.
Qed.

Lemma at_offset_defined pos buf addr len :
  0 <= pos -> 0 <= len <= 128 -> pos + len <= zlen buf ->
  defined (fun _ => True)
    (at_offset pos buf (DwUnsafeReadAddr adapter attached DWDRreg addr len))
    (fun buf' s => Port s = true /\ OutBufLength s = 0 /\ zlen buf' = zlen buf).
Proof.
  intros Hp Hl Hb. unfold at_offset.
  replace ((0 <=? pos) && (pos <=? zlen buf)) with true
    by (symmetry; apply andb_true_iff; split; lia).
  eapply defined_bind.
  - apply DwUnsafeReadAddr_defined; [lia|rewrite zlen_drop; lia].
  - intros rest. apply defined_ret. intros s _ (P & Z & Zr).
    split; [exact P|]. split; [exact Z|].
    rewrite zlen_app, zlen_take, Zr, zlen_drop. lia.
Qed.

(** The loop over the blocks, for a cursor within the array. *)
Lemma DwReadAddr_chunks_defined fuel : forall addr len pos buf,
  0 <= pos -> (0 < len -> pos + len <= zlen buf) -> len <= 128 * (Z.of_nat fuel + 1) ->
  defined (fun _ => True)
    (DwReadAddr_chunks adapter attached DWDRreg fuel addr len pos buf)
    (fun cur s =>
       let '(_, len', pos', buf') := cur in
       0 <= pos' /\ len' <= 128 /\ (0 < len' -> pos' + len' <= zlen buf') /\
       zlen buf' = zlen buf).
Proof.
  induction fuel as [|fuel IH]; intros addr len pos buf Hp Hb Hf;
    cbn [DwReadAddr_chunks]; destruct (128 <? len) eqn:C.
  - lia.
  - apply defined_ret. intros s _ _. repeat split; auto; lia.
  - eapply defined_bind.
    + apply (at_offset_defined pos buf addr 128); lia.
    + intros buf1.
      apply (defined_from (zlen buf1 = zlen buf)); [intros s _ H; apply H|].
      intros Z1. assert (G : 128 < len) by lia.
      eapply defined_pre; [eapply defined_post|].
      * apply (IH (addr + 128) (len - 128) (pos + 128) buf1).
        -- lia.
        -- intros _. specialize (Hb ltac:(lia)). lia.
        -- rewrite Nat2Z.inj_succ in Hf. lia.
      * intros [[[a' l'] p'] buf'] s _ H. cbv beta iota in H |- *.
        destruct H as (H1 & H2 & H3 & H4).
        split; [exact H1|]. split; [exact H2|]. split; [exact H3|lia].
      * intros s _ _. exact Logic.I.
  - apply defined_ret. intros s _ _. repeat split; auto; lia.
Qed.

(** [DwReadAddr] is defined for any range from a non-negative address that
    fits in [buf], on a device whose I/O registers below DWDR fit in one
    transfer. *)
Lemma DwReadAddr_defined addr len buf :
  0 <= addr -> len <= zlen buf -> 32 <= DWDRaddr <= 160 ->
  defined (fun _ => True) (DwReadAddr adapter attached DWDRreg DWDRaddr addr len buf)
    (fun buf' s => zlen buf' = zlen buf).
Proof.
  intros Ha Hl HD. unfold DwReadAddr. cbv zeta.
  pose proof (zlen_nonneg buf) as Hz.
  (* the range before r28 *)
  eapply defined_bind with
    (Q1 := fun cur s =>
             let '(a, l, p, b) := cur in
             zlen b = zlen buf /\ 0 <= p /\ (0 < l -> p + l <= zlen b) /\
             (l <= 0 \/ 28 <= a)).
  { destruct (0 <? Z.min len (28 - addr)) eqn:E1.
    - eapply defined_bind.
      + apply (at_offset_defined 0 buf addr (Z.min len (28 - addr))); lia.
      + intros buf1. apply defined_ret. intros s _ (_ & _ & Z1).
        split; [exact Z1|]. split; [lia|]. split; lia.
    - apply defined_ret. intros s _ _.
      split; [reflexivity|]. split; [lia|]. split; lia. }
  intros [[[a1 l1] p1] buf1].
  apply (defined_given (zlen buf1 = zlen buf /\ 0 <= p1 /\
                       (0 < l1 -> p1 + l1 <= zlen buf1) /\ (l1 <= 0 \/ 28 <= a1)));
    [intros s _ H; exact H|].
  intros (Z1 & P1 & B1 & X1).
  (* the cached registers *)
  eapply defined_bind with
    (Q1 := fun cur s =>
             let '(a, l, p, b) := cur in
             zlen b = zlen buf /\ 0 <= p /\ (0 < l -> p + l <= zlen b) /\
             (l <= 0 \/ 32 <= a)).
  { intros s [L _].
    assert (F4 : l1 <= 0 \/ 32 - a1 <= Z.of_nat 4) by lia.
    pose proof (DwReadAddr_cached_total 4 a1 l1 p1 buf1 s (proj2 L) P1 B1 F4) as C.
    destruct (DwReadAddr_cached 4 a1 l1 p1 buf1 s)
      as [[[[a l] p] b] s'|w s']; [|destruct C].
    destruct C as (-> & Zb & P' & B' & X' & L' & M').
    split; [exact L|].
    split; [lia|]. split; [exact P'|]. split; [exact B'|]. lia. }
  intros [[[a2 l2] p2] buf2].
  apply (defined_given (zlen buf2 = zlen buf /\ 0 <= p2 /\
                       (0 < l2 -> p2 + l2 <= zlen buf2) /\ (l2 <= 0 \/ 32 <= a2)));
    [intros s _ H; exact H|].
  intros (Z2 & P2 & B2 & X2).
  (* from 32 to DWDR *)
  eapply defined_bind with
    (Q1 := fun cur s =>
             let '(a, l, p, b) := cur in
             zlen b = zlen buf /\ 0 <= p /\ (0 < l -> p + l <= zlen b)).
  { destruct (0 <? Z.min l2 (DWDRaddr - a2)) eqn:E3.
    - eapply defined_bind.
      + apply (at_offset_defined p2 buf2 a2 (Z.min l2 (DWDRaddr - a2))); lia.
      + intros buf3. apply defined_ret. intros s _ (_ & _ & Z3).
        split; [lia|]. split; lia.
    - apply defined_ret. intros s _ _. auto. }
  intros [[[a3 l3] p3] buf3].
  apply (defined_given (zlen buf3 = zlen buf /\ 0 <= p3 /\
                       (0 < l3 -> p3 + l3 <= zlen buf3)));
    [intros s _ H; exact H|].
  intros (Z3 & P3 & B3).
  (* the dummy value for DWDR *)
  eapply defined_bind with
    (Q1 := fun cur s =>
             let '(a, l, p, b) := cur in
             zlen b = zlen buf /\ 0 <= p /\ (0 < l -> p + l <= zlen b)).
  { destruct ((a3 =? DWDRaddr) && (0 <? l3)) eqn:E4.
    - apply andb_true_iff in E4.
      destruct (store_fits buf3 p3 0 ltac:(lia)) as (buf4 & Es & Z4).
      rewrite Es. cbn [in_bounds].
      intros s [L _]. rewrite bind_ret. cbn. split; [exact L|].
      split; [lia|]. split; lia.
    - apply defined_ret. intros s _ _. auto. }
  intros [[[a4 l4] p4] buf4].
  apply (defined_given (zlen buf4 = zlen buf /\ 0 <= p4 /\
                       (0 < l4 -> p4 + l4 <= zlen buf4)));
    [intros s _ H; exact H|].
  intros (Z4 & P4 & B4).
  (* beyond DWDR *)
  eapply defined_bind.
  { apply (DwReadAddr_chunks_defined (Z.to_nat (l4 / 128)) a4 l4 p4 buf4 P4 B4).
    destruct (Z_le_gt_dec l4 0) as [N|N]; [lia|].
    rewrite Z2Nat.id by (apply Z.div_pos; lia).
    pose proof (Z.mul_succ_div_gt l4 128 ltac:(lia)). lia. }
  intros [[[a5 l5] p5] buf5].
  apply (defined_given (0 <= p5 /\ l5 <= 128 /\ (0 < l5 -> p5 + l5 <= zlen buf5) /\
                       zlen buf5 = zlen buf4));
    [intros s _ H; exact H|].
  intros (P5 & L5 & B5 & Z5).
  destruct (0 <? l5) eqn:E5.
  - eapply defined_pre; [eapply defined_post|].
    + apply (at_offset_defined p5 buf5 a5 l5); lia.
    + intros b s _ (_ & _ & Zb). lia.
    + intros s _ _. exact Logic.I.
  - apply defined_ret. intros s _ _. lia.
Qed.

Lemma live_set_R r s : live s -> zlen r = 32 -> live (set_R r s).
Proof. intros [W _] Hr. split; [exact W|exact Hr]. Qed.

Lemma live_set_PC v s : live s -> live (set_PC v s).
Proof. intros L. exact L. Qed.

(** The loop of [DwWriteAddr]: [limit - addr] bytes are within [buf]. *)
Lemma DwWriteAddr_loop_defined fuel : forall addr limit buf,
  limit - addr <= Z.of_nat fuel -> limit - addr <= zlen buf ->
  defined primed (DwWriteAddr_loop adapter attached DWDRreg DWDRaddr fuel addr limit buf)
    (fun _ s => primed s).
Proof.
  induction fuel as [|fuel IH]; intros addr limit buf Hf Hb;
    cbn [DwWriteAddr_loop]; destruct (addr <? limit) eqn:C.
  - lia.
  - apply defined_ret. auto.
  - rewrite load_fits by lia. cbn [in_bounds].
    intros s Hs. rewrite bind_ret. revert s Hs.
    eapply defined_bind with (Q1 := fun _ s => primed s).
    + destruct ((addr <? 28) || ((31 <? addr) && negb (addr =? DWDRaddr))) eqn:E.
      * eapply defined_bind.
        -- eapply sends_defined_primed; [apply sends_DwSetPC|apply DwSetPC_frame, live_frame].
        -- intros u. apply DwSendBytes_primed. vm_compute. discriminate.
      * eapply defined_bind with (Q1 := fun _ s => primed s).
        -- destruct ((28 <=? addr) && (addr <=? 31)) eqn:E2.
           ++ apply andb_true_iff in E2.
              intros s [L Hp]. rewrite bind_read, bind_in_bounds.
              destruct (store_fits (R s) addr (nth (Z.to_nat 0) buf 0)
                          ltac:(destruct L as [_ ->]; lia)) as (r' & Es & Zr).
              rewrite Es. cbn. split; [|exact Hp].
              apply live_set_R; [exact L|]. destruct L as [_ HR]. lia.
           ++ apply defined_ret. auto.
        -- intros u. eapply sends_defined_primed;
             [apply sends_DwSetZ|apply DwSetZ_frame, live_frame].
    + intros u. apply (IH (addr + 1) limit (drop 1 buf)); [lia|].
      rewrite zlen_drop_1; lia.
  - apply defined_ret. auto.
Qed.

(** [DwWriteAddr] is defined for a count within [buf]. *)
Lemma DwWriteAddr_defined addr len buf :
  len <= zlen buf ->
  defined (fun _ => True) (DwWriteAddr adapter attached DWDRreg DWDRaddr addr len buf)
    (fun _ s => primed s).
Proof.
  intros Hb. unfold DwWriteAddr.
  eapply defined_bind; [apply DwSetZ_defined|]. intros u1.
  eapply defined_bind; [apply DwSetBP_defined|]. intros u2.
  eapply defined_bind; [apply DwSendBytes_primed; vm_compute; discriminate|]. intros u3.
  cbv zeta. apply DwWriteAddr_loop_defined; lia.
Qed.

(** [DwReconnect] is defined; it leaves the handle open, the buffer empty
    and [PC] within the range of the C remainder. *)
Lemma DwReconnect_defined :
  FlashSize <> 0 ->
  defined (fun _ => True) (DwReconnect adapter attached DWDRreg FlashSize)
    (fun _ s => Port s = true /\ OutBufLength s = 0).
Proof.
  intros HF. unfold DwReconnect.
  eapply defined_bind.
  { apply (sends_defined_some (DwSendBytes adapter attached (Bytes [0xF0]))).
    - apply sends_some; [discriminate|vm_compute; discriminate].
    - apply DwSendBytes_frame, live_frame. }
  intros u. eapply defined_bind; [apply DwReadWord_defined|]. intros w.
  replace (FlashSize =? 0) with false by (symmetry; now apply Z.eqb_neq).
  eapply defined_bind with (Q1 := fun _ _ => True);
    [apply defined_ret; intros s0 _ _; exact Logic.I|].
  intros u0.
  eapply defined_bind with (Q1 := fun _ _ => True).
  { intros s [L _]. cbn. split; [exact L|exact Logic.I]. }
  intros u1 s [L _]. rewrite bind_read.
  destruct L as [W HR].
  assert (Zd : zlen (drop 28 (R s)) = 4) by (rewrite zlen_drop; lia).
  pose proof (DwGetRegs_defined 28 (drop 28 (R s)) 4 ltac:(lia) ltac:(lia) s
                (conj (conj W HR) Logic.I)) as G.
  destruct (DwGetRegs adapter attached DWDRreg 28 (drop 28 (R s)) 4 s)
    as [regs s1|w1 s1] eqn:Eg.
  - rewrite (bind_Ok _ _ _ _ _ Eg). destruct G as (L1 & P1 & Z1 & Zr & _).
    unfold modify. split; [|auto]. apply live_set_R; [exact L1|].
    rewrite zlen_app, zlen_take. lia.
  - now rewrite (bind_Stop _ _ _ _ _ Eg).
Qed.

Lemma DwReset_defined :
  FlashSize <> 0 ->
  defined (fun _ => True) (DwReset adapter attached DWDRreg FlashSize)
    (fun _ s => Port s = true /\ OutBufLength s = 0).
Proof.
  intros HF. unfold DwReset.
  eapply defined_bind.
  { apply (sends_defined_some (DwSendBytes adapter attached (Bytes [0x07]))).
    - apply sends_some; [discriminate|vm_compute; discriminate].
    - apply DwSendBytes_frame, live_frame. }
  intros u. eapply defined_bind; [apply DwSync_defined|]. intros u1.
  eapply defined_pre; [apply DwReconnect_defined; exact HF|].
    intros s0 _ _. exact Logic.I.
Qed.

Lemma DwDisable_defined :
  defined (fun _ => True) (DwDisable adapter attached)
    (fun _ s => Port s = true /\ OutBufLength s = 0).
Proof.
  unfold DwDisable.
  eapply defined_bind.
  { apply (sends_defined_some (DwSendBytes adapter attached (Bytes [0x06]))).
    - apply sends_some; [discriminate|vm_compute; discriminate].
    - apply DwSendBytes_frame, live_frame. }
  intros u. unfold DwFlush. exact (dwBufferFlush_safe adapter attached 0x14).
Qed.

Lemma DwTrace_defined :
  FlashSize <> 0 ->
  defined (fun _ => True) (DwTrace adapter attached DWDRreg FlashSize)
    (fun _ s => Port s = true /\ OutBufLength s = 0).
Proof.
  intros HF. unfold DwTrace. apply defined_read_R. intros r Hr.
  apply (defined_bind _ _ _ (fun _ s => primed s));
    [apply DwSetRegs_defined; unfold INT_MAX; lia|]. intros u.
  apply defined_read. intros pc.
  apply (defined_bind _ _ _ (fun _ s => primed s)).
  { exact (sends_defined_primed _ True (sends_DwSetPC _)
             (DwSetPC_frame adapter attached live live_frame _)). }
  intros u1.
  apply (defined_bind _ _ _ (fun _ s => primed s));
    [apply DwSendBytes_primed; vm_compute; discriminate|].
  intros u2.
  apply (defined_bind _ _ _
           (fun _ s => Port s = true /\ OutBufLength s = 0 /\ calibrated s));
    [exact (DwSync_defined adapter attached)|]. intros u3.
  apply (defined_pre _ (fun _ => True)); [exact (DwReconnect_defined HF)|].
  intros s0 _ _. exact Logic.I.
Qed.

Lemma DwGo_defined :
  defined (fun _ => True) (DwGo adapter attached DWDRreg)
    (fun _ s => Port s = true /\ OutBufLength s = 0).
Proof.
  unfold DwGo. apply defined_read_R. intros r Hr.
  apply (defined_bind _ _ _ (fun _ s => primed s));
    [apply DwSetRegs_defined; unfold INT_MAX; lia|]. intros u.
  apply defined_read. intros pc.
  apply (defined_bind _ _ _ (fun _ s => primed s)).
  { exact (sends_defined_primed _ True (sends_DwSetPC _)
             (DwSetPC_frame adapter attached live live_frame _)). }
  intros u1. apply defined_read. intros bp. apply defined_read. intros te.
  apply (defined_bind _ _ _ (fun _ s => primed s)).
  { destruct (bp <? 0).
    - apply DwSendBytes_primed. vm_compute. discriminate.
    - apply (defined_bind _ _ _ (fun _ s => primed s)); [exact (DwSetBP_defined _)|].
      intros u2. apply DwSendBytes_primed. vm_compute. discriminate. }
  intros u2.
  apply (defined_bind _ _ _ (fun _ s => primed s));
    [apply DwSendBytes_primed; vm_compute; discriminate|].
  intros u3. unfold DwWait. exact (dwBufferFlush_safe adapter attached 0x0C).
Qed.

End DefinedCommands.

(** ** The pipeline is defined, whatever the adapter does *)

Lemma defined_ends_well {A : Type} (P : State -> Prop) (m : M A)
    (Q : A -> State -> Prop) (s : State) :
  defined P m Q -> live s -> P s -> ends_well (m s) Q.
Proof. intros H L Hs. exact (H s (conj L Hs)). Qed.

Section PipelineDefined.

Variable adapter : nat -> reply.
Variable attached : bool.

(** X1: on a session whose buffer is well formed, whatever the adapter
    answers and whether the handle is open or not, the operations of the
    pipeline end well: they return, or they stop through [Fail] with the
    handle closed; no array is accessed outside its bounds, no [Assert]
    fails and no transfer is made on a closed handle.  [DwSend] takes any
    count within its array (and small enough for the [int] sum with the
    buffer length); [DwSync], [DwReceive], [DwReadByte] and
    [DwReadWord] need a handle that is open or a buffer that is not empty
    (the flush opens the handle), and leave the handle open and the buffer
    empty; a byte read is in 0..255 and a word in 0..65535.  Without that
    a read runs on the closed handle. *)
Theorem pipeline_defined (s : State) :
  live s ->
  (forall out outlen,
     0 <= outlen <= zlen out -> outlen <= INT_MAX - 128 ->
     ends_well (DwSend adapter attached out outlen s)
       (fun _ s' => 1 <= outlen -> 0 < OutBufLength s')) /\
  ends_well (DwFlush adapter attached s) (fun _ s' => OutBufLength s' = 0) /\
  ends_well (DwWait adapter attached s) (fun _ s' => OutBufLength s' = 0) /\
  (primed s ->
   ends_well (DwSync adapter attached s)
     (fun _ s' => Port s' = true /\ OutBufLength s' = 0 /\ calibrated s') /\
   (forall buf inlen,
      0 <= inlen <= 128 -> inlen <= zlen buf ->
      ends_well (DwReceive adapter attached buf inlen s)
        (fun r s' => Port s' = true /\ OutBufLength s' = 0 /\
                     zlen (snd r) = zlen buf /\ fst r <= inlen)) /\
   ends_well (DwReadByte adapter attached s)
     (fun v s' => Port s' = true /\ OutBufLength s' = 0 /\ 0 <= v <= 255) /\
   ends_well (DwReadWord adapter attached s)
     (fun v s' => Port s' = true /\ OutBufLength s' = 0 /\ 0 <= v <= 65535)) /\
  (Port s = false -> OutBufLength s = 0 ->
   forall buf inlen, 0 <= inlen <= 128 ->
     DwReceive adapter attached buf inlen s = Stop NullPort (add_Elapsed 20 s)).
Proof.
  intros L. split; [|split; [|split; [|split]]].
  - intros out outlen Ho Hi.
    exact (defined_ends_well _ _ _ s
             (DwSend_defined adapter attached out outlen Ho ltac:(lia)) L Logic.I).
  - exact (defined_ends_well _ _ _ s (DwFlush_defined adapter attached) L Logic.I).
  - exact (defined_ends_well _ _ _ s (DwWait_defined adapter attached) L Logic.I).
  - intros Hp. split; [|split; [|split]].
    + exact (defined_ends_well _ _ _ s (DwSync_defined adapter attached) L Hp).
    + intros buf inlen Hi Hb.
      pose proof (defined_ends_well _ _ _ s
                    (DwReceive_defined adapter attached buf inlen ltac:(lia) Hb) L Hp) as H.
      unfold ends_well in *.
      destruct (DwReceive adapter attached buf inlen s) as [r s'|w s']; [|exact H].
      destruct H as (L' & P' & Z' & Zb & St & _).
      split; [exact L'|]. split; [exact P'|]. split; [exact Z'|]. split; [exact Zb|lia].
    + exact (defined_ends_well _ _ _ s (DwReadByte_defined adapter attached) L Hp).
    + exact (defined_ends_well _ _ _ s (DwReadWord_defined adapter attached) L Hp).
  - intros HP HL buf inlen Hi. unfold DwReceive.
    rewrite bind_Assert. replace (inlen <=? 128) with true by (symmetry; lia).
    rewrite (bind_Ok _ _ _ _ _ (dwBufferFlush_empty adapter attached 0x14 s ltac:(lia))).
    cbn [receive_retry]. change (0 <=? 0) with true. cbv iota.
    unfold delay. rewrite bind_modify. unfold bind, usb_control_msg_in.
    cbn [Port add_Elapsed]. rewrite HP. reflexivity.
Qed.

End PipelineDefined.

Lemma halted_live : live halted.
Proof. repeat split; unfold zlen; simpl; lia. Qed.

(** The halted session, with an adapter that has nothing to say: three
    bytes are buffered, then a word is read as 0. *)
Lemma pipeline_defined_witness :
  live halted /\
  ends_well (DwSend prompt true [1; 2; 3] 3 halted)
    (fun _ s' => 1 <= 3 -> 0 < OutBufLength s') /\
  ends_well (DwFlush prompt true halted) (fun _ s' => OutBufLength s' = 0).
Proof.
  split; [exact halted_live|].
  pose proof (pipeline_defined prompt true halted halted_live) as H.
  destruct H as (H1 & H2 & _).
  split; [|exact H2].
  apply H1; [unfold zlen; simpl; lia|unfold INT_MAX; lia].
Defined.

(** ** What the writes leave in the buffer *)

(** A function that sends leaves the buffer not empty, if it was not or
    if [some] bytes are sent. *)
Lemma sends_defined_pending (m : M unit) (some : Prop) :
  sends m some -> preserves live m ->
  defined (fun s => some \/ 0 < OutBufLength s) m (fun _ s => 0 < OutBufLength s).
Proof.
  intros Hm Hp. eapply triple_weaken.
  - apply (triple_preserves (fun s => wf s /\ (some \/ 0 < OutBufLength s)) live m
             (fun _ s => 0 < OutBufLength s) abandoned); [|exact Hp].
    intros s [W H]. specialize (Hm s W). destruct (m s); [|exact Hm].
    destruct Hm as (W1 & N1 & P1). apply N1. exact H.
  - intros s [L H]. split; [exact L|]. split; [apply L|exact H].
  - auto.
  - auto.
Qed.

Section Pending.

Variable adapter : nat -> reply.
Variable attached : bool.
Variables DWDRreg DWDRaddr : Z.

Lemma DwSetRegs_pending first regs count :
  1 <= count <= zlen regs -> count <= INT_MAX ->
  defined (fun _ => True) (DwSetRegs adapter attached DWDRreg first regs count)
    (fun _ s => 0 < OutBufLength s).
Proof.
  intros Hc Hi. eapply defined_pre.
  - apply (sends_defined_pending _ (1 <= count));
      [apply sends_DwSetRegs; lia|apply DwSetRegs_frame, live_frame].
  - intros s _ _. left. lia.
Qed.

Lemma DwSetZ_pending z :
  defined (fun _ => True) (DwSetZ adapter attached DWDRreg z)
    (fun _ s => 0 < OutBufLength s).
Proof.
  eapply defined_pre.
  - apply (sends_defined_pending _ True);
      [apply sends_DwSetZ|apply DwSetZ_frame, live_frame].
  - intros s _ _. left. exact Logic.I.
Qed.

(** Sending on a buffer that is not empty leaves it not empty. *)
Lemma sends_keeps_pending (m : M unit) (some : Prop) :
  sends m some -> preserves live m ->
  defined (fun s => 0 < OutBufLength s) m (fun _ s => 0 < OutBufLength s).
Proof.
  intros Hm Hp. eapply defined_pre; [apply (sends_defined_pending m some Hm Hp)|].
  intros s _ H. right. exact H.
Qed.

(** The loop of [DwWriteAddr] never flushes the last bytes it queues. *)
Lemma DwWriteAddr_loop_pending fuel : forall addr limit buf,
  limit - addr <= Z.of_nat fuel -> limit - addr <= zlen buf ->
  defined (fun s => 0 < OutBufLength s)
    (DwWriteAddr_loop adapter attached DWDRreg DWDRaddr fuel addr limit buf)
    (fun _ s => 0 < OutBufLength s).
Proof.
  induction fuel as [|fuel IH]; intros addr limit buf Hf Hb;
    cbn [DwWriteAddr_loop]; destruct (addr <? limit) eqn:C.
  - lia.
  - apply defined_ret. auto.
  - rewrite load_fits by lia. cbn [in_bounds].
    intros s Hs. rewrite bind_ret. revert s Hs.
    eapply defined_bind with (Q1 := fun _ s => 0 < OutBufLength s).
    + destruct ((addr <? 28) || ((31 <? addr) && negb (addr =? DWDRaddr))) eqn:E.
      * eapply defined_bind.
        -- eapply sends_keeps_pending; [apply sends_DwSetPC|apply DwSetPC_frame, live_frame].
        -- intros u. eapply sends_keeps_pending;
             [apply (sends_Bytes adapter attached); vm_compute; discriminate
             |apply DwSendBytes_frame, live_frame].
      * eapply defined_bind with (Q1 := fun _ s => 0 < OutBufLength s).
        -- destruct ((28 <=? addr) && (addr <=? 31)) eqn:E2.
           ++ apply andb_true_iff in E2.
              intros s [L Hp]. rewrite bind_read, bind_in_bounds.
              destruct (store_fits (R s) addr (nth (Z.to_nat 0) buf 0)
                          ltac:(destruct L as [_ ->]; lia)) as (r' & Es & Zr).
              rewrite Es. cbn. split; [|exact Hp].
              apply live_set_R; [exact L|]. destruct L as [_ HR]. lia.
           ++ apply defined_ret. auto.
        -- intros u. eapply sends_keeps_pending;
             [apply sends_DwSetZ|apply DwSetZ_frame, live_frame].
    + intros u. apply (IH (addr + 1) limit (drop 1 buf)); [lia|].
      rewrite zlen_drop_1; lia.
  - apply defined_ret. auto.
Qed.

(** [DwWriteAddr], for a count within [buf], leaves its last commands in
    the buffer. *)
Lemma DwWriteAddr_pending addr len buf :
  len <= zlen buf ->
  defined (fun _ => True) (DwWriteAddr adapter attached DWDRreg DWDRaddr addr len buf)
    (fun _ s => 0 < OutBufLength s).
Proof.
  intros Hb. unfold DwWriteAddr.
  eapply defined_bind; [apply DwSetZ_pending|]. intros u1.
  eapply defined_bind.
  { eapply sends_keeps_pending; [apply sends_DwSetBP|apply DwSetBP_frame, live_frame]. }
  intros u2.
  eapply defined_bind.
  { eapply sends_keeps_pending;
      [apply (sends_Bytes adapter attached); vm_compute; discriminate
      |apply DwSendBytes_frame, live_frame]. }
  intros u3. cbv zeta. apply DwWriteAddr_loop_pending; lia.
Qed.

End Pending.

(** ** The commands are defined, whatever the adapter does *)

Section CommandsDefined.

Variable adapter : nat -> reply.
Variable attached : bool.
Variables DWDRreg DWDRaddr FlashSize : Z.


(** X3: on a live session, whatever the adapter answers and whether the
    handle is open or not, [DwReconnect], [DwReset], [DwDisable], [DwTrace]
    and [DwGo] end well: they return with the handle open and the outbound
    buffer empty, or they stop through [Fail] with the handle closed; the
    shadow keeps its 32 registers.  ([FlashSize] is not 0: the remainder of
    [DwReconnect] is defined.) *)
Theorem start_stop_defined (s : State) :
  live s -> FlashSize <> 0 ->
  ends_well (DwReconnect adapter attached DWDRreg FlashSize s)
    (fun _ s' => Port s' = true /\ OutBufLength s' = 0) /\
  ends_well (DwReset adapter attached DWDRreg FlashSize s)
    (fun _ s' => Port s' = true /\ OutBufLength s' = 0) /\
  ends_well (DwDisable adapter attached s)
    (fun _ s' => Port s' = true /\ OutBufLength s' = 0) /\
  ends_well (DwTrace adapter attached DWDRreg FlashSize s)
    (fun _ s' => Port s' = true /\ OutBufLength s' = 0) /\
  ends_well (DwGo adapter attached DWDRreg s)
    (fun _ s' => Port s' = true /\ OutBufLength s' = 0).
Proof.
  intros L HF. split; [|split; [|split; [|split]]].
  - exact (defined_ends_well _ _ _ s
             (DwReconnect_defined adapter attached DWDRreg FlashSize HF) L Logic.I).
  - exact (defined_ends_well _ _ _ s
             (DwReset_defined adapter attached DWDRreg FlashSize HF) L Logic.I).
  - exact (defined_ends_well _ _ _ s (DwDisable_defined adapter attached) L Logic.I).
  - exact (defined_ends_well _ _ _ s
             (DwTrace_defined adapter attached DWDRreg FlashSize HF) L Logic.I).
  - exact (defined_ends_well _ _ _ s (DwGo_defined adapter attached DWDRreg) L Logic.I).
Qed.

End CommandsDefined.


(** [DwGo] on the halted session. *)
Lemma start_stop_defined_witness :
  live halted /\ 8192 <> 0 /\
  ends_well (DwGo prompt true 0x2E halted)
    (fun _ s' => Port s' = true /\ OutBufLength s' = 0).
Proof.
  split; [exact halted_live|]. split; [discriminate|].
  pose proof (start_stop_defined prompt true 0x2E 8192 halted halted_live) as H.
  specialize (H ltac:(discriminate)).
  destruct H as (_ & _ & _ & _ & H). exact H.
Defined.

(** ** Connecting *)

Section ConnectOutcomes.

Variable adapter : nat -> reply.

(** X4: [ConnectPort] without an adapter fails at once, with no transfer.
    With an adapter it makes between 1 and 25 breaks (mode 33), whatever
    the adapter answers.  It returns after the first break whose timings
    [SetDwireBaud] accepts, with the handle open and [cyclesPerPulse]
    between 8 and 393218, so that the baud rate it prints,
    [16500000 / cyclesPerPulse], is a division by a non-zero number and
    lies between 41 and 2062500; one dot is printed for every break that
    failed before.  It stops only through [Fail], with the handle closed:
    after 25 failed breaks (25 dots and a new line), or when the adapter
    refuses the timing (mode 2). *)
Theorem ConnectPort_outcomes (s : State) :
  ConnectPort adapter false s =
    Stop (Failure "Couldn't connect to digispark.") (set_Port false s) /\
  let o := ConnectPort adapter true s in
  exists l,
    Log (final o) = Log s ++ l /\ (1 <= breaks l <= 25)%nat /\
    match o with
    | Ok _ s' =>
        Port s' = true /\ 8 <= cyclesPerPulse s' <= 393218 /\
        41 <= 16500000 / cyclesPerPulse s' <= 2062500 /\
        Console s' = Console s ++ dots (breaks l - 1) ++
          [PutS "Connected at "; PutD (16500000 / cyclesPerPulse s') 1; PutSL " baud."]
    | Stop w s' =>
        Port s' = false /\
        (w = Failure
               "Digispark/LittleWire could not capture pulse timings after 25 break attempts." /\
         breaks l = 25%nat /\ Console s' = Console s ++ dots 25 ++ [PutL] \/
         w = Failure "Failed to set debugWIRE port baud rate" /\
         Console s' = Console s ++ dots (breaks l - 1))
    end.
Proof.
  split; [reflexivity|]. intros o.
  assert (Eo : o = DwBreakAndSync_loop adapter 25 (set_Port true s)) by reflexivity.
  destruct (DwBreakAndSync_loop_bounded adapter 25 (set_Port true s) eq_refl)
    as (l & Hl & H).
  rewrite <- Eo in Hl, H. exists l. split; [exact Hl|].
  destruct o as [[] s'|w s'].
  - destruct H as (P' & K' & k & Hk & Bk & Ck).
    split; [lia|]. split; [exact P'|]. split; [exact K'|]. split.
    + unfold calibrated in K'. split.
      * apply Z.div_le_lower_bound; lia.
      * apply Z.div_le_upper_bound; lia.
    + rewrite Bk. replace (S k - 1)%nat with k by lia. exact Ck.
  - destruct H as (P' & [(Ew & Bk & Ck)|(Ew & k & Hk & Bk & Ck)]).
    + split; [lia|]. split; [exact P'|]. left. auto.
    + split; [lia|]. split; [exact P'|]. right. split; [exact Ew|].
      rewrite Bk. replace (S k - 1)%nat with k by lia. exact Ck.
Qed.

End ConnectOutcomes.

(** ** The bytes leave in the order they were sent *)

Lemma take_split {A : Type} (a n : Z) (l : list A) :
  0 <= a <= n -> take a l ++ take (n - a) (drop a l) = take n l.
Proof.
  intros H. unfold take, drop.
  replace (Z.to_nat n) with (Z.to_nat a + Z.to_nat (n - a))%nat by lia.
  generalize (Z.to_nat (n - a)). generalize (Z.to_nat a). clear H.
  intros x. revert l. induction x as [|x IH]; intros l y; [reflexivity|].
  destruct l as [|b l]; simpl.
  - now rewrite firstn_nil.
  - now rewrite IH.
Qed.

Lemma drop_all {A : Type} (n : Z) (l : list A) : zlen l <= n -> drop n l = [].
Proof. unfold zlen, drop. intros H. apply skipn_all2. lia. Qed.

Section Fifo.

Variable adapter : nat -> reply.
Variable attached : bool.
Hypothesis adapter_accepts : accepts adapter.

(** The loop of [DwSend]: every round ships one block of 128 bytes, made
    of what was buffered and of the next bytes of [out]. *)
Lemma DwSend_loop_fifo fuel : forall out outlen s,
  wf s -> Port s = true -> 0 <= outlen <= zlen out -> outlen <= INT_MAX - 128 ->
  zlen out + (if OutBufLength s =? 128 then 1 else 0) <= Z.of_nat fuel ->
  exists out' outlen' s' blocks,
    DwSend_loop adapter attached fuel out outlen s = Ok (out', outlen') s' /\
    wf s' /\ Port s' = true /\ same_session s s' /\
    0 <= outlen' <= zlen out' /\ OutBufLength s' + outlen' <= 128 /\
    Log s' = Log s ++ map (Out 4) blocks /\
    Forall (fun b => zlen b = 128) blocks /\
    List.concat blocks ++ buffered s' ++ take outlen' out' = buffered s ++ take outlen out /\
    (OutBufLength s + outlen <= 128 -> blocks = []) /\
    (128 < OutBufLength s + outlen -> blocks <> [] /\ 1 <= outlen').
Proof.
  induction fuel as [|fuel IH]; intros out outlen s W HP Ho Hi Hf;
    pose proof W as [W1 W2];
    cbn [DwSend_loop]; rewrite bind_read;
    rewrite size_t_small by (unfold INT_MAX in *; lia);
    destruct (OutBufLength s + outlen >? sizeof_OutBufBytes) eqn:C;
    unfold sizeof_OutBufBytes in *.
  - destruct (OutBufLength s =? 128) eqn:E; lia.
  - exists out, outlen, s, [].
    split; [reflexivity|]. split; [exact W|]. split; [exact HP|].
    split; [repeat split|]. split; [lia|]. split; [lia|].
    split; [cbn [map]; now rewrite app_nil_r|]. split; [constructor|].
    split; [reflexivity|]. split; [reflexivity|lia].
  - set (len := OutBufLength s) in *.
    rewrite bind_read, bind_in_bounds, memcpy_fits by lia.
    rewrite bind_modify.
    set (bytes' := take len (OutBufBytes s) ++ take (128 - len) out ++
                   drop (len + (128 - len)) (OutBufBytes s)).
    assert (Eb : bytes' = buffered s ++ take (128 - len) out).
    { unfold bytes', buffered. fold len.
      rewrite (drop_all (len + (128 - len))) by lia. now rewrite app_nil_r. }
    assert (Zb : zlen bytes' = 128).
    { unfold bytes'. rewrite !zlen_app, !zlen_take, zlen_drop. lia. }
    set (s1 := set_OutBuf bytes' len s).
    pose proof (adapter_accepts (Calls s1)) as Ha.
    rewrite (bind_Ok _ _ _ _ _
               (dwUSBSendBytes_prompt adapter attached 4 bytes' 128 s1 HP
                  ltac:(lia) ltac:(lia) ltac:(lia))).
    rewrite bind_modify. rewrite (take_all 128 bytes') by lia.
    set (s3 := set_OutBuf _ 0 _).
    assert (W3 : wf s3) by (split; simpl; lia).
    assert (L3 : OutBufLength s3 = 0) by reflexivity.
    assert (Zd : zlen (drop (128 - len) out) = zlen out - (128 - len))
      by (rewrite zlen_drop; lia).
    assert (F3 : zlen (drop (128 - len) out) +
                 (if OutBufLength s3 =? 128 then 1 else 0) <= Z.of_nat fuel).
    { rewrite L3, Zd. change (0 =? 128) with false. cbv iota.
      destruct (len =? 128) eqn:E; lia. }
    destruct (IH (drop (128 - len) out) (outlen - (128 - len)) s3 W3 HP
                ltac:(lia) ltac:(lia) F3)
      as (out' & outlen' & s' & blocks & E & W' & P' & S' & O' & B' & Lg & Fb & Cc & _ & N').
    exists out', outlen', s', (bytes' :: blocks).
    split; [exact E|]. split; [exact W'|]. split; [exact P'|]. split; [exact S'|].
    split; [exact O'|]. split; [exact B'|]. split.
    { rewrite Lg. cbn [Log s3 s1 set_OutBuf add_Elapsed log_event map].
      rewrite <- app_assoc. reflexivity. }
    split; [constructor; [exact Zb|exact Fb]|]. split.
    { cbn [List.concat]. rewrite <- app_assoc, Cc.
      change (buffered s3) with (take 0 bytes'). unfold take at 1. cbn [Z.to_nat firstn app].
      rewrite Eb, <- app_assoc. f_equal. apply take_split. lia. }
    split; [lia|]. intros _. split; [discriminate|].
    destruct (Z_le_gt_dec (OutBufLength s3 + (outlen - (128 - len))) 128) as [Q|Q].
    + assert (outlen' = outlen - (128 - len)); [|lia].
      (* the loop stops at once *)
      rewrite DwSend_loop_exit in E
        by (rewrite size_t_small; unfold sizeof_OutBufBytes, INT_MAX in *; lia).
      now injection E as _ <- _.
    + apply N'. lia.
  - exists out, outlen, s, [].
    split; [reflexivity|]. split; [exact W|]. split; [exact HP|].
    split; [repeat split|]. split; [lia|]. split; [lia|].
    split; [cbn [map]; now rewrite app_nil_r|]. split; [constructor|].
    split; [reflexivity|]. split; [reflexivity|lia].
Qed.

(** X5: [DwSend] of [N] bytes on a connected session, whatever is already
    buffered, with an adapter that takes every block: the call returns; it
    makes only transfers of mode 4, of 128 bytes each, and none if the
    bytes fit in the buffer; and the bytes shipped, in the order of the
    transfers, followed by the bytes left in the buffer, are the bytes that
    were buffered followed by the [N] bytes of [out]: nothing is lost,
    repeated or reordered.  When a block was shipped the buffer is left
    with 1 to 128 bytes.  The session is otherwise unchanged. *)
Theorem DwSend_fifo (out : list Z) (N : Z) (s : State) :
  wf s -> Port s = true -> 0 <= N <= zlen out -> N <= INT_MAX - 128 ->
  exists s' blocks,
    DwSend adapter attached out N s = Ok tt s' /\
    Log s' = Log s ++ map (Out 4) blocks /\
    Forall (fun b => zlen b = 128) blocks /\
    List.concat blocks ++ buffered s' = buffered s ++ take N out /\
    (OutBufLength s + N <= 128 -> blocks = []) /\
    (128 < OutBufLength s + N -> blocks <> [] /\ 1 <= OutBufLength s' <= 128) /\
    wf s' /\ Port s' = true /\ same_session s s'.
Proof.
  intros W HP Ho Hi. unfold DwSend.
  destruct (DwSend_loop_fifo (S (List.length out)) out N s W HP Ho Hi
              ltac:(unfold zlen; destruct (OutBufLength s =? 128); lia))
    as (out' & outlen' & s1 & blocks & E & W1 & P1 & S1 & O1 & B1 & Lg & Fb & Cc & K0 & K1).
  rewrite (bind_Ok _ _ _ _ _ E).
  pose proof W1 as [W11 W12].
  rewrite bind_read, bind_Assert.
  rewrite size_t_small by (unfold INT_MAX in *; lia).
  replace (OutBufLength s1 + outlen' <=? sizeof_OutBufBytes) with true
    by (symmetry; unfold sizeof_OutBufBytes; lia).
  rewrite bind_read, bind_in_bounds, memcpy_fits by lia.
  assert (Zt : zlen (take outlen' out') = outlen') by (rewrite zlen_take; lia).
  assert (Ep : modify (set_OutBuf
                 (take (OutBufLength s1) (OutBufBytes s1) ++ take outlen' out' ++
                  drop (OutBufLength s1 + outlen') (OutBufBytes s1))
                 (OutBufLength s1 + outlen')) s1 =
               Ok tt (push (take outlen' out') s1)).
  { unfold modify, push. rewrite Zt. reflexivity. }
  rewrite Ep. exists (push (take outlen' out') s1), blocks.
  split; [reflexivity|]. split; [exact Lg|]. split; [exact Fb|]. split.
  { rewrite buffered_push by (auto; lia). exact Cc. }
  split; [exact K0|]. split.
  { intros G. destruct (K1 G) as [Kn Kl]. split; [exact Kn|].
    rewrite OutBufLength_push, Zt. lia. }
  split; [apply wf_push; [exact W1|lia]|]. split; [exact P1|exact S1].
Qed.

End Fifo.

(** 300 bytes on top of the 3 that are buffered: two blocks leave, 47 bytes
    stay. *)
Lemma DwSend_fifo_witness :
  let s := push [1; 2; 3] halted in
  wf s /\ Port s = true /\ 0 <= 300 <= zlen (repeat 7 300) /\
  exists s' blocks,
    DwSend prompt true (repeat 7 300) 300 s = Ok tt s' /\
    Log s' = Log s ++ map (Out 4) blocks /\
    List.concat blocks ++ buffered s' = buffered s ++ take 300 (repeat 7 300).
Proof.
  intros s.
  assert (W : wf s).
  { apply wf_push; [apply halted_live|]. change (0 + 3 <= 128). lia. }
  assert (L : 0 <= 300 <= zlen (repeat 7 300)) by (rewrite zlen_repeat; lia).
  split; [exact W|]. split; [reflexivity|]. split; [exact L|].
  pose proof (DwSend_fifo prompt true prompt_accepts (repeat 7 300) 300 s) as H.
  specialize (H W). specialize (H eq_refl). specialize (H L).
  specialize (H ltac:(unfold INT_MAX; lia)).
  destruct H as (s' & blocks & E & Lg & _ & Cc & _).
  exists s', blocks. split; [exact E|]. split; [exact Lg|exact Cc].
Defined.

(** ** Go, in general *)

Lemma u8_byte b : is_byte b -> u8 b = b.
Proof. unfold is_byte, u8. intros H. apply Z.mod_small. lia. Qed.

Lemma land_255 x : is_byte (Z.land x 255).
Proof.
  assert (E : Z.land x 255 = x mod 256)
    by (change 255 with (Z.ones 8); rewrite Z.land_ones by lia; reflexivity).
  unfold is_byte. rewrite E. pose proof (Z.mod_pos_bound x 256 ltac:(lia)). lia.
Qed.

Lemma hi_byte w : is_byte (hi w).
Proof. apply land_255. Qed.

Lemma lo_byte w : is_byte (lo w).
Proof. apply land_255. Qed.

Lemma lor_byte a b : is_byte a -> is_byte b -> is_byte (Z.lor a b).
Proof.
  unfold is_byte. intros Ha Hb.
  assert (G : forallb (fun x => forallb (fun y => Z.lor x y <=? 255) (below 256))
                (below 256) = true) by (vm_compute; reflexivity).
  pose proof (below_spec 256 _ G a ltac:(lia)) as G1. cbv beta in G1.
  pose proof (below_spec 256 _ G1 b ltac:(lia)) as G2. cbv beta in G2.
  split; [apply Z.lor_nonneg; lia|lia].
Qed.

(** The retries of [dwUSBSendBytes] repeat the same transfer, at most as
    many times as the loop allows. *)
Lemma send_retry_count adapter n state out outlen status s :
  Port s = true -> outlen <= zlen out ->
  exists status' s' m,
    send_retry adapter n state out outlen status s = Ok status' s' /\
    Log s' = Log s ++ repeat (Out state (take outlen out)) m /\ (m <= n)%nat.
Proof.
  intros HP Hl. revert status s HP.
  induction n as [|n IH]; intros status s HP; cbn [send_retry].
  - exists status, s, 0%nat.
    split; [reflexivity|]. split; [cbn [repeat]; now rewrite app_nil_r|lia].
  - destruct (status <=? 0).
    + unfold delay. rewrite bind_modify.
      rewrite (bind_Ok _ _ _ _ _
                 (usb_control_msg_out_open adapter state out outlen (add_Elapsed 20 s)
                    HP Hl)).
      destruct (IH (rstatus (adapter (Calls (add_Elapsed 20 s))))
                  (log_event (Out state (take outlen out)) (add_Elapsed 20 s)) HP)
        as (st' & s' & m & E1 & E3 & Hm).
      exists st', s', (S m). split; [exact E1|]. split; [|lia].
      rewrite E3. cbn [Log log_event add_Elapsed repeat]. now rewrite <- app_assoc.
    + exists status, s, 0%nat.
    split; [reflexivity|]. split; [cbn [repeat]; now rewrite app_nil_r|lia].
Qed.

Section GoTrace.

Variable adapter : nat -> reply.
Variable attached : bool.
Variable DWDRreg : Z.

Lemma queues_DwSetPC_bytes pc :
  queues always (DwSetPC adapter attached pc)
    [0xD0; Z.lor (hi (u16 pc)) 0x10; lo (u16 pc)].
Proof.
  pose proof (queues_DwSetPC adapter attached pc) as H. cbn [map] in H.
  rewrite (u8_byte 0xD0), (u8_byte (Z.lor _ _)), (u8_byte (lo _)) in H;
    [exact H|apply lo_byte|apply lor_byte; [apply hi_byte|unfold is_byte; lia]
    |unfold is_byte; lia].
Qed.

Lemma queues_DwSetBP_bytes bp :
  queues always (DwSetBP adapter attached bp)
    [0xD1; Z.lor (hi (u16 bp)) 0x10; lo (u16 bp)].
Proof.
  pose proof (queues_DwSetBP adapter attached bp) as H. cbn [map] in H.
  rewrite (u8_byte 0xD1), (u8_byte (Z.lor _ _)), (u8_byte (lo _)) in H;
    [exact H|apply lo_byte|apply lor_byte; [apply hi_byte|unfold is_byte; lia]
    |unfold is_byte; lia].
Qed.

Lemma queues_byte b :
  is_byte b -> queues always (DwSendBytes adapter attached (Bytes [b])) [b].
Proof.
  intros Hb.
  pose proof (queues_Bytes adapter attached always [b] ltac:(vm_compute; discriminate)) as H.
  cbn [map] in H. now rewrite (u8_byte b Hb) in H.
Qed.

(** A flush of a buffer that is not empty, on an open handle: one
    transfer, repeated while the adapter is not ready. *)
Lemma dwBufferFlush_attempts state s :
  wf s -> Port s = true -> 0 < OutBufLength s ->
  exists n,
    Log (final (dwBufferFlush adapter attached state s)) =
      Log s ++ repeat (Out state (buffered s)) (S n) /\
    (n <= 50)%nat /\
    match dwBufferFlush adapter attached state s with
    | Ok _ s' => OutBufLength s' = 0 /\ Port s' = true /\ same_session s s'
    | Stop w s' => abandoned w s' /\ same_session s s' /\ same_buffer s s'
    end.
Proof.
  intros W HP HL. pose proof W as [W1 W2].
  pose proof (dwBufferFlush_frame adapter attached _ (same_session_frame s) state s
                ltac:(repeat split)) as FS.
  unfold dwBufferFlush in *. rewrite bind_read in *.
  replace (0 <? OutBufLength s) with true in * by (symmetry; lia).
  rewrite bind_read in *.
  pose proof (dwUSBSendBytes_safe adapter attached state (OutBufBytes s) (OutBufLength s)
                ltac:(lia) s Logic.I) as Sf.
  pose proof (dwUSBSendBytes_frame adapter attached _ (same_buffer_tframe s) state
                (OutBufBytes s) (OutBufLength s) ltac:(lia) s ltac:(split; reflexivity)) as FB.
  assert (At : exists n,
             Log (final (dwUSBSendBytes adapter attached state (OutBufBytes s)
                           (OutBufLength s) s)) =
             Log s ++ repeat (Out state (buffered s)) (S n) /\ (n <= 50)%nat).
  { unfold dwUSBSendBytes. rewrite bind_read, HP, bind_ret.
    rewrite (bind_Ok _ _ _ _ _
               (usb_control_msg_out_open adapter state (OutBufBytes s) (OutBufLength s)
                  s HP ltac:(lia))).
    destruct (send_retry_count adapter 50 state (OutBufBytes s) (OutBufLength s)
                (rstatus (adapter (Calls s)))
                (log_event (Out state (take (OutBufLength s) (OutBufBytes s))) s)
                HP ltac:(lia)) as (st' & s' & m & E1 & E3 & Hm).
    rewrite (bind_Ok _ _ _ _ _ E1). exists m. split; [|exact Hm].
    cbn [Log log_event] in E3. rewrite <- app_assoc in E3.
    destruct (st' <? OutBufLength s); cbn; exact E3. }
  destruct At as (n & Hn & Hm). exists n.
  destruct (dwUSBSendBytes adapter attached state (OutBufBytes s) (OutBufLength s) s)
    as [[] s1|w s1] eqn:Es.
  - rewrite (bind_Ok _ _ _ _ _ Es) in *. cbn [final] in *.
    split; [exact Hn|]. split; [exact Hm|]. cbn. split; [reflexivity|].
    split; [exact Sf|exact FS].
  - rewrite (bind_Stop _ _ _ _ _ Es) in *. cbn [final] in *.
    split; [exact Hn|]. split; [exact Hm|]. split; [exact Sf|]. split; [exact FS|exact FB].
Qed.

(** [DwGo] queues its commands, then [DwWait] flushes them. *)
Lemma DwGo_queues s :
  wf s -> OutBufLength s = 0 -> 4 <= zlen (R s) ->
  let pc := u16 (Z.quot (PC s) 2) in
  let bp := u16 (Z.quot (BP s) 2) in
  let bytes :=
    ([0xD0; 0x10; 0x1C; 0xD1; 0x10; 0x20; 0x66; 0xC2; 0x05; 0x20] ++ take 4 (R s)) ++
    [0xD0; Z.lor (hi pc) 0x10; lo pc] ++
    (if BP s <? 0 then [] else [0xD1; Z.lor (hi bp) 0x10; lo bp]) ++
    [if BP s <? 0 then (if TimerEnable s then 0x40 else 0x60)
     else (if TimerEnable s then 0x41 else 0x61)] ++ [0x30] in
  zlen bytes <= 22 /\
  DwGo adapter attached DWDRreg s = DwWait adapter attached (push bytes s).
Proof.
  intros W HL HR pc bp bytes.
  assert (Z4 : zlen (take 4 (R s)) = 4) by (rewrite zlen_take; lia).
  assert (Zb : zlen bytes <= 22).
  { unfold bytes. destruct (BP s <? 0); room. }
  split; [exact Zb|].
  unfold DwGo. rewrite bind_read.
  queued (queues_DwSetRegs_28 adapter attached DWDRreg (R s) HR).
  rewrite bind_read. change (PC (push _ s)) with (PC s).
  queued (queues_DwSetPC_bytes (Z.quot (PC s) 2)).
  rewrite !bind_read.
  change (BP (push _ s)) with (BP s).
  change (TimerEnable (push _ s)) with (TimerEnable s).
  fold pc. unfold bytes.
  assert (Ctx : forall te : bool,
            is_byte (if te then 0x40 else 0x60) /\ is_byte (if te then 0x41 else 0x61))
    by (intros []; unfold is_byte; lia).
  destruct (BP s <? 0) eqn:Eb.
  - queued (queues_byte (if TimerEnable s then 0x40 else 0x60) (proj1 (Ctx _))).
    queued (queues_byte 0x30 ltac:(unfold is_byte; lia)).
    rewrite <- !app_assoc. reflexivity.
  - rewrite !bind_bind.
    queued (queues_DwSetBP_bytes (Z.quot (BP s) 2)).
    queued (queues_byte (if TimerEnable s then 0x41 else 0x61) (proj2 (Ctx _))).
    queued (queues_byte 0x30 ltac:(unfold is_byte; lia)).
    fold bp. rewrite <- !app_assoc. reflexivity.
Qed.

(** X6: [DwGo] on a connected session with nothing buffered, whatever
    [PC], [BP] and [TimerEnable] are: one transfer of mode 0x0C (send and
    wait) carries, in this order, the restore of r28..r31 (D0 10 1C,
    D1 10 20, 66 C2 05 20 and the four bytes at [R]), the start address
    (D0, then the 16-bit [PC/2] with bit 12 set, high byte first), the
    breakpoint when [BP >= 0] (D1, then [BP/2] in the same way) and none
    when [BP < 0], the context byte (0x40, plus 1 with a breakpoint, plus
    0x20 with the timers disabled) and 30.  The transfer is repeated while
    the adapter is not ready, 51 times at most, and nothing else goes over
    the bus.  The call returns with the buffer empty, or stops through
    [Fail] with the handle closed; the shadow, [PC] and [BP] are as
    before. *)
Theorem DwGo_trace (s : State) :
  wf s -> OutBufLength s = 0 -> Port s = true -> 4 <= zlen (R s) ->
  let pc := u16 (Z.quot (PC s) 2) in
  let bp := u16 (Z.quot (BP s) 2) in
  let bytes :=
    ([0xD0; 0x10; 0x1C; 0xD1; 0x10; 0x20; 0x66; 0xC2; 0x05; 0x20] ++ take 4 (R s)) ++
    [0xD0; Z.lor (hi pc) 0x10; lo pc] ++
    (if BP s <? 0 then [] else [0xD1; Z.lor (hi bp) 0x10; lo bp]) ++
    [if BP s <? 0 then (if TimerEnable s then 0x40 else 0x60)
     else (if TimerEnable s then 0x41 else 0x61)] ++ [0x30] in
  exists n,
    (n <= 50)%nat /\
    Log (final (DwGo adapter attached DWDRreg s)) = Log s ++ repeat (Out 0x0C bytes) (S n) /\
    match DwGo adapter attached DWDRreg s with
    | Ok _ s' => OutBufLength s' = 0 /\ Port s' = true /\ same_session s s'
    | Stop w s' => failed w /\ Port s' = false /\ same_session s s'
    end.
Proof.
  intros W HL HP HR pc bp bytes.
  destruct (DwGo_queues s W HL HR) as [Zb E]. fold pc bp bytes in Zb, E.
  rewrite E. unfold DwWait.
  assert (Zp : 14 <= zlen bytes).
  { unfold bytes. rewrite !zlen_app, zlen_take, !zlen_cons.
    pose proof (zlen_nonneg (if BP s <? 0 then [] else [0xD1; Z.lor (hi bp) 0x10; lo bp])).
    change (zlen (@nil Z)) with 0. lia. }
  assert (W1 : wf (push bytes s)) by (apply wf_push; [exact W|lia]).
  destruct (dwBufferFlush_attempts 0x0C (push bytes s) W1 HP
              ltac:(rewrite OutBufLength_push; lia)) as (n & Hn & Hm & H).
  rewrite (buffered_push_empty bytes s W HL ltac:(lia)) in Hn.
  exists n. split; [exact Hm|]. split; [exact Hn|].
  destruct (dwBufferFlush adapter attached 12 (push bytes s)) as [[] s'|w s'].
  - exact H.
  - destruct H as ([Hf Hc] & Hs & _). auto.
Qed.

End GoTrace.

(** [DwGo] without a breakpoint and with the timers disabled, from word
    address 0x80. *)
Lemma DwGo_trace_witness :
  let s := mkState true 0 (repeat 0 128) 0 (map Z.of_nat (seq 1 32)) 0x100 (-1) false
             O [] [] 0 [] in
  wf s /\ 4 <= zlen (R s) /\
  Log (final (DwGo prompt true 0x2E s)) =
    [Out 0x0C [0xD0; 0x10; 0x1C; 0xD1; 0x10; 0x20; 0x66; 0xC2; 0x05; 0x20; 1; 2; 3; 4;
               0xD0; 0x10; 0x80; 0x60; 0x30]].
Proof.
  intros s.
  assert (W : wf s) by (unfold wf, zlen; simpl; lia).
  assert (HR : 4 <= zlen (R s)) by (unfold zlen; simpl; lia).
  split; [exact W|]. split; [exact HR|].
  pose proof (DwGo_trace prompt true 0x2E s W eq_refl eq_refl HR) as H.
  cbv zeta in H. destruct H as (n & Hn & Hl & Hm).
  assert (E0 : n = 0%nat).
  { assert (El : List.length (Log (final (DwGo prompt true 0x2E s))) = 1%nat)
      by (vm_compute; reflexivity).
    rewrite Hl, length_app, repeat_length in El. simpl in El. lia. }
  subst n. exact Hl.
Defined.

(** ** Writing the data area: the shadow *)

Lemma R_frame (P : list Z -> Prop) : frame (fun s => P (R s)).
Proof. split; [split|]; simpl; auto. Qed.

Lemma nth_drop (n i : Z) (l : list Z) :
  0 <= n -> 0 <= i -> nth (Z.to_nat i) (drop n l) 0 = nth (Z.to_nat (n + i)) l 0.
Proof.
  intros Hn Hi. unfold drop. rewrite nth_skipn. f_equal. lia.
Qed.

(** What a store changes in an array. *)
Lemma store_nth a i v a' :
  store a i v = Some a' ->
  zlen a' = zlen a /\
  forall j, 0 <= j -> nth (Z.to_nat j) a' 0 = if j =? i then v else nth (Z.to_nat j) a 0.
Proof.
  unfold store. destruct ((0 <=? i) && (i <? zlen a)) eqn:E; [|discriminate].
  apply andb_true_iff in E. destruct E as [E1 E2]. intros [= <-].
  assert (Zt : List.length (take i a) = Z.to_nat i).
  { unfold take. rewrite length_firstn. unfold zlen in E2. lia. }
  split.
  - rewrite zlen_app, zlen_cons, zlen_take, zlen_drop. lia.
  - intros j Hj. destruct (j =? i) eqn:Ej.
    + assert (j = i) by lia. subst j.
      rewrite app_nth2 by lia. now rewrite Zt, Nat.sub_diag.
    + destruct (Z_lt_dec j i) as [L|L].
      * rewrite app_nth1 by lia. apply nth_take. lia.
      * rewrite app_nth2 by lia. rewrite Zt.
        replace (Z.to_nat j - Z.to_nat i)%nat with (S (Z.to_nat (j - i - 1))) by lia.
        cbn [nth]. rewrite nth_drop by lia. f_equal. lia.
Qed.

Lemma returns_True {A : Type} (m : M A) : returns m (fun _ => True).
Proof. intros s. destruct (m s); exact Logic.I. Qed.

Section WriteShadow.

Variable adapter : nat -> reply.
Variable attached : bool.
Variables DWDRreg DWDRaddr : Z.
Variable r0 : list Z.
Variable addr0 : Z.
Variable buf0 : list Z.

Let J (cur : Z) : State -> Prop := fun s => shadow_written r0 addr0 buf0 cur (R s).

Lemma J_frame cur : frame (J cur).
Proof. apply (R_frame (shadow_written r0 addr0 buf0 cur)). Qed.

(** An address outside r28..r31 leaves the shadow as it is. *)
Lemma J_skip cur s : ~ 28 <= cur <= 31 -> J cur s -> J (cur + 1) s.
Proof.
  intros Hc [Z HJ]. split; [exact Z|]. intros a Ha. rewrite (HJ a Ha).
  destruct (Z.eq_dec a cur) as [->|Hne].
  - replace (28 <=? cur) with false by lia. reflexivity.
  - replace (a <? cur + 1) with (a <? cur) by lia. reflexivity.
Qed.

(** A byte stored in r28..r31. *)
Lemma J_store cur s r' :
  28 <= cur <= 31 -> addr0 <= cur -> J cur s ->
  store (R s) cur (nth (Z.to_nat (cur - addr0)) buf0 0) = Some r' ->
  J (cur + 1) (set_R r' s).
Proof.
  intros Hc Ha [Z HJ] Es. apply store_nth in Es. destruct Es as [Zr Hn].
  split; [cbn [R set_R]; lia|]. intros a Hr. cbn [R set_R].
  rewrite Hn by lia. destruct (a =? cur) eqn:E.
  - assert (a = cur) by lia. subst a.
    replace ((28 <=? cur) && (addr0 <=? cur) && (cur <? cur + 1)) with true
      by (symmetry; rewrite !andb_true_iff; lia).
    reflexivity.
  - rewrite (HJ a Hr). replace (a <? cur + 1) with (a <? cur) by lia. reflexivity.
Qed.

(** The loop of [DwWriteAddr] at [cur], the rest of the caller's array
    being [drop (cur - addr0) buf0]. *)
Lemma DwWriteAddr_loop_shadow fuel : forall cur limit,
  addr0 <= cur ->
  triple (J cur)
    (DwWriteAddr_loop adapter attached DWDRreg DWDRaddr fuel cur limit
       (drop (cur - addr0) buf0))
    (fun _ s => J (Z.max cur limit) s)
    (fun _ s => exists c, cur <= c /\ J c s).
Proof.
  induction fuel as [|fuel IH]; intros cur limit Ha;
    cbn [DwWriteAddr_loop]; destruct (cur <? limit) eqn:C.
  - intros s Hs. exists cur. split; [lia|exact Hs].
  - apply triple_ret. intros s Hs. now replace (Z.max cur limit) with cur by lia.
  - eapply triple_bind with (Q1 := fun v s => J cur s /\
                                     v = nth (Z.to_nat (cur - addr0)) buf0 0).
    { intros s Hs. destruct (load (drop (cur - addr0) buf0) 0) as [v|] eqn:El.
      - apply load_Some in El. rewrite (nth_drop (cur - addr0) 0) in El by lia.
        rewrite Z.add_0_r in El. cbn. auto.
      - cbn. exists cur. split; [lia|exact Hs]. }
    intros v. apply triple_assume. intros ->.
    eapply triple_bind with (Q1 := fun _ s => J (cur + 1) s).
    + destruct ((cur <? 28) || ((31 <? cur) && negb (cur =? DWDRaddr))) eqn:E.
      * assert (Hc : ~ 28 <= cur <= 31).
        { apply orb_true_iff in E. destruct E as [E|E]; [lia|].
          apply andb_true_iff in E. lia. }
        eapply triple_weaken.
        -- apply (triple_of_preserves (J cur)) with (Q := fun _ => True).
           ++ apply preserves_bind; [apply DwSetPC_frame, J_frame|].
              intros u. apply DwSendBytes_frame, J_frame.
           ++ apply returns_True.
        -- auto.
        -- intros u s [Hs _]. now apply J_skip.
        -- intros w s Hs. exists cur. split; [lia|exact Hs].
      * eapply triple_bind with (Q1 := fun _ s => J (cur + 1) s).
        -- destruct ((28 <=? cur) && (cur <=? 31)) eqn:E2.
           ++ apply andb_true_iff in E2. intros s Hs. rewrite bind_read, bind_in_bounds.
              destruct (store (R s) cur (nth (Z.to_nat (cur - addr0)) buf0 0))
                as [r'|] eqn:Es.
              ** cbn. apply (J_store cur s r'); auto. lia.
              ** exists cur. split; [lia|exact Hs].
           ++ apply triple_ret. intros s Hs. apply J_skip; [|exact Hs].
              rewrite andb_false_iff in E2. lia.
        -- intros u. eapply triple_weaken.
           ++ apply (triple_of_preserves (J (cur + 1))) with (Q := fun _ => True).
              ** apply DwSetZ_frame, J_frame.
              ** apply returns_True.
           ++ auto.
           ++ intros u' s [Hs _]. exact Hs.
           ++ intros w s Hs. exists (cur + 1). split; [lia|exact Hs].
    + intros u. eapply triple_weaken.
      * replace (drop 1 (drop (cur - addr0) buf0)) with (drop (cur + 1 - addr0) buf0)
          by (rewrite drop_drop by lia; f_equal; lia).
        apply (IH (cur + 1) limit). lia.
      * auto.
      * intros u' s Hs. now replace (Z.max cur limit) with (Z.max (cur + 1) limit) by lia.
      * intros w s (c & Hc & Hs). exists c. split; [lia|exact Hs].
  - apply triple_ret. intros s Hs. now replace (Z.max cur limit) with cur by lia.
Qed.

End WriteShadow.

Section WriteAddrShadow.

Variable adapter : nat -> reply.
Variable attached : bool.
Variables DWDRreg DWDRaddr : Z.

(** X7: [DwWriteAddr(addr, len, buf)] and the shadow, whatever the adapter
    does.  When the call returns, each register r28..r31 whose address lies
    in [[addr, addr+len)] holds in the shadow the byte of [buf] for that
    address, and every other entry of the shadow is as before.  When the
    call stops it is through [Fail], and the entries below r28 are as
    before.  (The bytes for r28..r31 do not go over the wire as data: for
    them the loop only moves the pointer Z on.) *)
Theorem DwWriteAddr_shadow (addr len : Z) (buf : list Z) (s : State) :
  live s -> 0 <= len <= zlen buf ->
  match DwWriteAddr adapter attached DWDRreg DWDRaddr addr len buf s with
  | Ok _ s' =>
      zlen (R s') = 32 /\
      forall a, 0 <= a < 32 ->
        nth (Z.to_nat a) (R s') 0 =
        if (28 <=? a) && (addr <=? a) && (a <? addr + len)
        then nth (Z.to_nat (a - addr)) buf 0
        else nth (Z.to_nat a) (R s) 0
  | Stop w s' =>
      failed w /\ zlen (R s') = 32 /\
      forall a, 0 <= a < 28 -> nth (Z.to_nat a) (R s') 0 = nth (Z.to_nat a) (R s) 0
  end.
Proof.
  intros L Hl.
  pose proof (DwWriteAddr_defined adapter attached DWDRreg DWDRaddr addr len buf
                ltac:(lia) s (conj L Logic.I)) as D.
  assert (T : triple (fun s' => shadow_written (R s) addr buf addr (R s'))
                (DwWriteAddr adapter attached DWDRreg DWDRaddr addr len buf)
                (fun _ s' => shadow_written (R s) addr buf (addr + len) (R s'))
                (fun _ s' => exists c, addr <= c /\ shadow_written (R s) addr buf c (R s'))).
  { unfold DwWriteAddr.
    assert (F : forall m : M unit,
              preserves (fun s' => shadow_written (R s) addr buf addr (R s')) m ->
              triple (fun s' => shadow_written (R s) addr buf addr (R s')) m
                (fun _ s' => shadow_written (R s) addr buf addr (R s'))
                (fun _ s' => exists c, addr <= c /\ shadow_written (R s) addr buf c (R s'))).
    { intros m Hm s1 H1. specialize (Hm s1 H1).
      destruct (m s1); cbn [final] in Hm; [exact Hm|].
      exists addr. split; [lia|exact Hm]. }
    eapply triple_bind; [apply F, DwSetZ_frame, R_frame|]. intros u1.
    eapply triple_bind; [apply F, DwSetBP_frame, R_frame|]. intros u2.
    eapply triple_bind; [apply F, DwSendBytes_frame, R_frame|]. intros u3.
    cbv zeta. eapply triple_weaken.
    - pose proof (DwWriteAddr_loop_shadow adapter attached DWDRreg DWDRaddr (R s) addr buf
                    (Z.to_nat len) addr (addr + len) ltac:(lia)) as Hloop.
      rewrite Z.sub_diag in Hloop. exact Hloop.
    - auto.
    - intros u s' Hs. now replace (Z.max addr (addr + len)) with (addr + len) in Hs by lia.
    - auto. }
  assert (J0 : shadow_written (R s) addr buf addr (R s)).
  { split; [apply L|]. intros a Ha.
    replace ((28 <=? a) && (addr <=? a) && (a <? addr)) with false; [reflexivity|].
    symmetry. rewrite !andb_false_iff. lia. }
  specialize (T s J0).
  destruct (DwWriteAddr adapter attached DWDRreg DWDRaddr addr len buf s) as [[] s'|w s'].
  - exact T.
  - destruct D as [[Hf _] _]. destruct T as (c & Hc & Zr & Hn).
    split; [exact Hf|]. split; [exact Zr|].
    intros a Ha. rewrite Hn by lia.
    replace (28 <=? a) with false by lia. reflexivity.
Qed.

End WriteAddrShadow.

(** Four bytes written from r29 on: the shadow takes the first three, the
    fourth goes to address 32. *)
Lemma DwWriteAddr_shadow_witness :
  live halted /\ 0 <= 4 <= zlen [0xA; 0xB; 0xC; 0xD] /\
  exists s',
    DwWriteAddr prompt true 0x2E 0x4E 29 4 [0xA; 0xB; 0xC; 0xD] halted = Ok tt s' /\
    drop 27 (R s') = [28; 29; 0xA; 0xB; 0xC] /\
    buffered s' = [0xD2; 0xB5; 0xEE; 0x23; 29; 0xD2; 0xB5; 0xFE; 0x23; 0;
                   0xD1; 0x10; 0x03; 0x66; 0xC2; 0x04;
                   0xD2; 0xB5; 0xEE; 0x23; 30; 0xD2; 0xB5; 0xFE; 0x23; 0;
                   0xD2; 0xB5; 0xEE; 0x23; 31; 0xD2; 0xB5; 0xFE; 0x23; 0;
                   0xD2; 0xB5; 0xEE; 0x23; 32; 0xD2; 0xB5; 0xFE; 0x23; 0;
                   0xD0; 0x10; 0x01; 0x20; 0xD].
Proof.
  assert (Hl : 0 <= 4 <= zlen [0xA; 0xB; 0xC; 0xD]) by (unfold zlen; simpl; lia).
  split; [exact halted_live|]. split; [exact Hl|].
  pose proof (DwWriteAddr_shadow prompt true 0x2E 0x4E 29 4 [0xA; 0xB; 0xC; 0xD] halted
                halted_live Hl) as H.
  destruct (DwWriteAddr prompt true 0x2E 0x4E 29 4 [0xA; 0xB; 0xC; 0xD] halted)
    as [[] s'|w s'] eqn:E.
  - exists s'. split; [reflexivity|].
    assert (E' : Ok tt s' =
                 DwWriteAddr prompt true 0x2E 0x4E 29 4 [0xA; 0xB; 0xC; 0xD] halted)
      by (symmetry; exact E).
    vm_compute in E'. injection E' as ->. split; reflexivity.
  - exfalso. vm_compute in E. discriminate E.
Defined.

(** ** Polling for the breakpoint *)

Section ReachedBreakpoint.

Variable adapter : nat -> reply.

(** X8: [dwReachedBreakpoint] on an open handle makes one IN transfer of
    10 bytes and nothing else: no delay, no flush, the outbound buffer and
    the session untouched.  It answers 0 when the transfer fails, and
    whether the first byte delivered is not 0 when bytes are delivered.
    When the transfer succeeds without delivering a byte, the answer is
    whether the first byte of the local array, which the function never
    initialised, is not 0. *)
Theorem dwReachedBreakpoint_answer (dwBuf0 : list Z) (s : State) :
  Port s = true -> zlen dwBuf0 = 10 ->
  let r := adapter (Calls s) in
  exists v,
    dwReachedBreakpoint_on adapter dwBuf0 s = Ok v (log_event (In_ 0 10) s) /\
    (rstatus r < 0 -> v = 0) /\
    (forall b rest, 0 <= rstatus r -> rdata r = b :: rest ->
       v = if b mod 256 =? 0 then 0 else 1) /\
    (0 <= rstatus r -> rdata r = [] -> v = if nth 0 dwBuf0 0 =? 0 then 0 else 1).
Proof.
  intros HP Hz r. unfold dwReachedBreakpoint_on, bind, usb_control_msg_in.
  rewrite HP. cbv zeta. fold r.
  destruct (rstatus r <? 0) eqn:E.
  - replace (0 <=? rstatus r) with false by (symmetry; lia).
    exists 0. split; [reflexivity|]. split; [reflexivity|]. split; intros; lia.
  - destruct (rdata r) as [|b rest] eqn:Ed.
    + unfold take. rewrite firstn_nil. cbn [map]. change (zlen (@nil Z)) with 0.
      replace (0 <=? zlen dwBuf0) with true by (symmetry; lia).
      change (0 <=? 0) with true. cbv iota.
      change (drop 0 dwBuf0) with dwBuf0. cbn [app].
      rewrite load_fits by lia. cbn [in_bounds ret].
      eexists. split; [reflexivity|]. split; [intros; lia|].
      split; [intros b rest _ Hd; discriminate Hd|]. intros _ _. reflexivity.
    + set (d := map u8 (take 10 (b :: rest))).
      assert (Hd : 1 <= zlen d <= 10).
      { unfold d. rewrite zlen_map, zlen_take, zlen_cons.
        pose proof (zlen_nonneg rest). lia. }
      replace (zlen d <=? zlen dwBuf0) with true by (symmetry; lia).
      replace (0 <=? zlen d) with true by (symmetry; lia).
      assert (El : load (d ++ drop (zlen d) dwBuf0) 0 = Some (u8 b)).
      { rewrite load_fits by (rewrite zlen_app; pose proof (zlen_nonneg (drop (zlen d) dwBuf0)); lia).
        reflexivity. }
      rewrite El. cbn [in_bounds ret].
      eexists. split; [reflexivity|]. split; [intros; lia|].
      split; [|intros _ Hn; discriminate Hn].
      intros b' rest' _ [= <- <-]. reflexivity.
Qed.

End ReachedBreakpoint.

(** An adapter that answers the poll with nothing: the answer is what the
    array held, 0 for one caller and 1 for another. *)
Lemma dwReachedBreakpoint_answer_witness :
  Port halted = true /\ zlen (repeat 0 10) = 10 /\ zlen (repeat 7 10) = 10 /\
  (exists s', dwReachedBreakpoint_on prompt (repeat 0 10) halted = Ok 0 s') /\
  (exists s', dwReachedBreakpoint_on prompt (repeat 7 10) halted = Ok 1 s').
Proof.
  split; [reflexivity|]. split; [reflexivity|]. split; [reflexivity|].
  pose proof (dwReachedBreakpoint_answer prompt (repeat 0 10) halted eq_refl eq_refl) as H0.
  pose proof (dwReachedBreakpoint_answer prompt (repeat 7 10) halted eq_refl eq_refl) as H7.
  cbv zeta in H0, H7.
  destruct H0 as (v0 & E0 & _ & _ & N0). destruct H7 as (v7 & E7 & _ & _ & N7).
  specialize (N0 ltac:(simpl; lia) eq_refl). specialize (N7 ltac:(simpl; lia) eq_refl).
  subst v0 v7. split; eexists; [exact E0|exact E7].
Defined.

(** ** The polls of a read *)

Lemma Elapsed_polled size m s : Elapsed (polled size m s) = Elapsed s + 20 * Z.of_nat m.
Proof.
  revert s. induction m as [|m IH]; intros s.
  - simpl. lia.
  - cbn [polled]. rewrite IH. cbn [Elapsed log_event add_Elapsed]. lia.
Qed.

Section ReceivePolls.

Variable adapter : nat -> reply.
Variable attached : bool.

(** A poll that delivers nothing returns the adapter's error, or 0, and
    leaves the array as it is. *)
Lemma poll_quiet buf inlen s :
  Port s = true -> delivery inlen (adapter (Calls s)) = [] ->
  usb_control_msg_in adapter 0 buf inlen s =
    Ok (poll_status (adapter (Calls s)), buf) (log_event (In_ 0 inlen) s) /\
  poll_status (adapter (Calls s)) <= 0.
Proof.
  intros HP Hd. unfold usb_control_msg_in, delivery, poll_status in *.
  rewrite HP. cbv zeta.
  destruct (rstatus (adapter (Calls s)) <? 0) eqn:E.
  - split; [reflexivity|lia].
  - rewrite Hd. pose proof (zlen_nonneg buf).
    change (zlen (@nil Z)) with 0.
    replace (0 <=? zlen buf) with true by (symmetry; lia).
    split; [reflexivity|lia].
Qed.

(** A poll that delivers stores the bytes at the start of the array and
    returns their count. *)
Lemma poll_delivers buf inlen s :
  Port s = true -> 0 <= inlen <= zlen buf ->
  delivery inlen (adapter (Calls s)) <> [] ->
  usb_control_msg_in adapter 0 buf inlen s =
    Ok (zlen (delivery inlen (adapter (Calls s))),
        delivery inlen (adapter (Calls s)) ++
        drop (zlen (delivery inlen (adapter (Calls s)))) buf)
       (log_event (In_ 0 inlen) s) /\
  0 < zlen (delivery inlen (adapter (Calls s))) <= inlen.
Proof.
  intros HP Hi Hd. unfold usb_control_msg_in, delivery in *.
  rewrite HP. cbv zeta.
  destruct (rstatus (adapter (Calls s)) <? 0) eqn:E; [congruence|].
  set (d := map u8 (take inlen (rdata (adapter (Calls s))))) in *.
  assert (Z1 : zlen d <= inlen) by (unfold d; rewrite zlen_map, zlen_take; lia).
  assert (Z0 : 0 < zlen d).
  { destruct d; [congruence|rewrite zlen_cons]. pose proof (zlen_nonneg d). lia. }
  replace (zlen d <=? zlen buf) with true by (symmetry; lia).
  split; [reflexivity|lia].
Qed.

(** The loop is over once a poll has delivered. *)
Lemma receive_retry_done n st buf inlen s :
  0 < st -> receive_retry adapter n st buf inlen s = Ok (st, buf) s.
Proof.
  intros H. destruct n; cbn [receive_retry]; [reflexivity|].
  replace (st <=? 0) with false by (symmetry; lia). reflexivity.
Qed.

(** The polls before the first that delivers change nothing but the log
    and the clock; that one ends the loop. *)
Lemma receive_retry_first inlen m : forall n status buf s,
  status <= 0 -> Port s = true -> 0 <= inlen <= zlen buf -> (m < n)%nat ->
  (forall i, (i < m)%nat -> delivery inlen (adapter (Calls s + i)) = []) ->
  delivery inlen (adapter (Calls s + m)) <> [] ->
  receive_retry adapter n status buf inlen s =
    Ok (zlen (delivery inlen (adapter (Calls s + m))),
        delivery inlen (adapter (Calls s + m)) ++
        drop (zlen (delivery inlen (adapter (Calls s + m)))) buf)
       (polled inlen (S m) s).
Proof.
  induction m as [|m IH]; intros n status buf s Hst HP Hi Hn Hq Hd;
    (destruct n as [|n]; [lia|]); cbn [receive_retry];
    replace (status <=? 0) with true by (symmetry; lia);
    unfold delay; rewrite bind_modify;
    set (s0 := add_Elapsed 20 s);
    assert (C0 : Calls s0 = Calls s) by reflexivity;
    assert (P0 : Port s0 = true) by exact HP.
  - rewrite Nat.add_0_r in Hd |- *. rewrite <- C0 in Hd |- *.
    destruct (poll_delivers buf inlen s0 P0 Hi Hd) as [E Z].
    rewrite (bind_Ok _ _ _ _ _ E). cbv beta iota.
    rewrite receive_retry_done by lia. reflexivity.
  - assert (Q0 : delivery inlen (adapter (Calls s0)) = []).
    { rewrite C0, <- (Nat.add_0_r (Calls s)). apply Hq. lia. }
    destruct (poll_quiet buf inlen s0 P0 Q0) as [E Z].
    rewrite (bind_Ok _ _ _ _ _ E). cbv beta iota.
    set (s1 := log_event (In_ 0 inlen) s0).
    assert (C1 : forall i, (Calls s1 + i = Calls s + S i)%nat)
      by (intros i; unfold s1, s0; simpl; lia).
    rewrite (IH n (poll_status (adapter (Calls s0))) buf s1 Z HP Hi ltac:(lia)).
    + rewrite C1. reflexivity.
    + intros i Hi'. rewrite C1. apply Hq. lia.
    + rewrite C1. exact Hd.
Qed.

(** When no poll delivers, the loop runs to its end. *)
Lemma receive_retry_none inlen n : forall status buf s,
  status <= 0 -> Port s = true ->
  (forall i, (i < n)%nat -> delivery inlen (adapter (Calls s + i)) = []) ->
  receive_retry adapter n status buf inlen s =
    Ok (match n with
        | O => status
        | S n' => poll_status (adapter (Calls s + n'))
        end, buf) (polled inlen n s).
Proof.
  induction n as [|n IH]; intros status buf s Hst HP Hq; cbn [receive_retry].
  - reflexivity.
  - replace (status <=? 0) with true by (symmetry; lia).
    unfold delay. rewrite bind_modify.
    set (s0 := add_Elapsed 20 s).
    assert (Q0 : delivery inlen (adapter (Calls s0)) = []).
    { change (Calls s0) with (Calls s). rewrite <- (Nat.add_0_r (Calls s)).
      apply Hq. lia. }
    destruct (poll_quiet buf inlen s0 HP Q0) as [E Z].
    rewrite (bind_Ok _ _ _ _ _ E). cbv beta iota.
    set (s1 := log_event (In_ 0 inlen) s0).
    assert (C1 : forall i, (Calls s1 + i = Calls s + S i)%nat)
      by (intros i; unfold s1, s0; simpl; lia).
    rewrite (IH (poll_status (adapter (Calls s0))) buf s1 Z HP).
    + cbn [polled]. fold s0. fold s1. destruct n as [|n'].
      * change (Calls s0) with (Calls s). now rewrite Nat.add_0_r.
      * rewrite C1. reflexivity.
    + intros i Hi'. rewrite C1. apply Hq. lia.
Qed.

(** X9: [DwReceive] on a connected session with nothing to flush, for a
    count within the array and a transfer, only polls the adapter: IN
    transfers of [inlen] bytes, 20 ms apart.  A poll delivers what the
    adapter answers to it, cut at [inlen] bytes, unless the answer is an
    error.  If the first poll that delivers bytes is among the first 50,
    [DwReceive] stops there: it returns the count of those bytes (1 to
    [inlen]) and the array with them at its start, the rest as it was.  If
    none of the first 50 polls delivers, it gives up after exactly 50 polls
    and 1000 ms, returns the status of the last poll (the adapter's error, or
    0) and leaves the array as it was: the caller gets no error. *)
Theorem DwReceive_polls (buf : list Z) (inlen : Z) (s : State) :
  Port s = true -> OutBufLength s = 0 -> 0 <= inlen <= 128 -> inlen <= zlen buf ->
  let answer := fun i : nat => delivery inlen (adapter (Calls s + i)) in
  (forall m, (m < 50)%nat ->
     (forall i, (i < m)%nat -> answer i = []) -> answer m <> [] ->
     DwReceive adapter attached buf inlen s =
       Ok (zlen (answer m), answer m ++ drop (zlen (answer m)) buf)
          (polled inlen (S m) s) /\
     0 < zlen (answer m) <= inlen) /\
  ((forall i, (i < 50)%nat -> answer i = []) ->
     DwReceive adapter attached buf inlen s =
       Ok (poll_status (adapter (Calls s + 49)), buf) (polled inlen 50 s) /\
     poll_status (adapter (Calls s + 49)) <= 0) /\
  (forall m, Log (polled inlen m s) = Log s ++ repeat (In_ 0 inlen) m /\
             Elapsed (polled inlen m s) = Elapsed s + 20 * Z.of_nat m).
Proof.
  intros HP HL Hi Hb answer.
  assert (Start : DwReceive adapter attached buf inlen s =
                  receive_retry adapter 50 0 buf inlen s).
  { unfold DwReceive. rewrite bind_Assert.
    replace (inlen <=? 128) with true by (symmetry; lia).
    now rewrite (bind_Ok _ _ _ _ _
                   (dwBufferFlush_empty adapter attached 0x14 s ltac:(lia))). }
  split; [|split].
  - intros m Hm Hq Hd. split.
    + rewrite Start.
      exact (receive_retry_first inlen m 50 0 buf s ltac:(lia) HP ltac:(lia) Hm Hq Hd).
    + unfold answer, delivery in *.
      destruct (rstatus (adapter (Calls s + m)) <? 0); [congruence|].
      set (d := map u8 (take inlen (rdata (adapter (Calls s + m))))) in *.
      assert (Z1 : zlen d <= inlen) by (unfold d; rewrite zlen_map, zlen_take; lia).
      destruct d; [congruence|rewrite zlen_cons in *]. pose proof (zlen_nonneg d). lia.
  - intros Hq. split.
    + rewrite Start.
      exact (receive_retry_none inlen 50 0 buf s ltac:(lia) HP Hq).
    + unfold poll_status. destruct (rstatus (adapter (Calls s + 49)) <? 0) eqn:E; lia.
  - intros m. split; [apply Log_polled|apply Elapsed_polled].
Qed.

End ReceivePolls.

(** A word asked of an adapter that answers the first poll with nothing,
    the second with an error and the third with AB CD: three polls, and
    the two bytes in the array. *)
Lemma DwReceive_polls_witness :
  Port halted = true /\ OutBufLength halted = 0 /\ 0 <= 2 <= 128 /\ 2 <= zlen [0; 0] /\
  DwReceive adapter_late true [0; 0] 2 halted = Ok (2, [0xAB; 0xCD]) (polled 2 3 halted) /\
  Log (polled 2 3 halted) = repeat (In_ 0 2) 3 /\ Elapsed (polled 2 3 halted) = 60.
Proof.
  assert (Hi : 0 <= 2 <= 128) by lia.
  assert (Hb : 2 <= zlen [0; 0]) by (unfold zlen; simpl; lia).
  split; [reflexivity|]. split; [reflexivity|]. split; [exact Hi|]. split; [exact Hb|].
  pose proof (DwReceive_polls adapter_late true [0; 0] 2 halted eq_refl eq_refl Hi Hb) as H.
  cbv zeta in H. destruct H as (H & _ & T).
  specialize (H 2%nat ltac:(lia)).
  assert (Q : forall i, (i < 2)%nat -> delivery 2 (adapter_late (Calls halted + i)) = []).
  { intros i Hlt. destruct i as [|[|i]]; [reflexivity|reflexivity|lia]. }
  specialize (H Q). specialize (H ltac:(discriminate)).
  destruct H as [H _]. split; [exact H|]. exact (T 3%nat).
Defined.

(** ** Reading beyond DWDR, block by block *)

Lemma triple_and {A : Type} (P1 P2 : State -> Prop) (m : M A)
    (Q1 Q2 : A -> State -> Prop) (E1 E2 : stop -> State -> Prop) :
  triple P1 m Q1 E1 -> triple P2 m Q2 E2 ->
  triple (fun s => P1 s /\ P2 s) m (fun a s => Q1 a s /\ Q2 a s)
    (fun w s => E1 w s /\ E2 w s).
Proof.
  intros H1 H2 s [Hs1 Hs2]. specialize (H1 s Hs1). specialize (H2 s Hs2).
  destruct (m s); auto.
Qed.

Lemma BulkReads_frame (P : list (Z * Z) -> Prop) : frame (fun s => P (BulkReads s)).
Proof. split; [split|]; simpl; auto. Qed.

Lemma tiles_snoc a b l n : tiles a b l -> tiles a (b + n) (l ++ [(b, n)]).
Proof.
  revert a. induction l as [|[x k] l IH]; intros a; simpl.
  - intros ->. auto.
  - intros [-> H]. split; [reflexivity|]. now apply IH.
Qed.

Section ReadTiles.

Variable adapter : nat -> reply.
Variable attached : bool.
Variables DWDRreg DWDRaddr : Z.
Hypothesis adapter_accepts : accepts adapter.

(** A bulk read is noted in the history, however it ends. *)
Lemma at_offset_notes l pos buf addr len :
  0 <= pos <= zlen buf ->
  triple (fun s => BulkReads s = l)
    (at_offset pos buf (DwUnsafeReadAddr adapter attached DWDRreg addr len))
    (fun _ s => BulkReads s = l ++ [(addr, len)]) (fun _ _ => True).
Proof.
  intros Hp. unfold at_offset.
  replace ((0 <=? pos) && (pos <=? zlen buf)) with true
    by (symmetry; apply andb_true_iff; split; lia).
  eapply triple_bind with (Q1 := fun _ s => BulkReads s = l ++ [(addr, len)]).
  - unfold DwUnsafeReadAddr. intros s Hs. rewrite bind_modify.
    set (I := fun s' => BulkReads s' = l ++ [(addr, len)]).
    assert (F : frame I) by apply (BulkReads_frame (fun x => x = l ++ [(addr, len)])).
    assert (P : preserves I
                  (DwSetZ adapter attached DWDRreg addr;;
                   DwSetPC adapter attached 0;;
                   DwSetBP adapter attached (2 * len);;
                   DwSendBytes adapter attached (Bytes [0x66; 0xC2; 0x00; 0x20]);;
                   '(_, buf') <- DwReceive adapter attached (drop pos buf) len;;
                   ret buf')).
    { apply preserves_bind; [now apply DwSetZ_frame|]. intros _.
      apply preserves_bind; [now apply DwSetPC_frame|]. intros _.
      apply preserves_bind; [now apply DwSetBP_frame|]. intros _.
      apply preserves_bind; [now apply DwSendBytes_frame|]. intros _.
      apply preserves_bind; [now apply DwReceive_frame|]. intros [st buf'].
      apply preserves_ret. }
    specialize (P (note_BulkRead addr len s)
                  ltac:(unfold I; cbn [BulkReads note_BulkRead]; now rewrite Hs)).
    match goal with |- match ?o with _ => _ end => destruct o end;
      [exact P|exact Logic.I].
  - intros rest. apply triple_ret. auto.
Qed.

(** The loop over the blocks: full blocks that follow one another. *)
Lemma DwReadAddr_chunks_tiles r l fuel : forall addr len pos buf,
  0 <= pos -> 0 <= len -> pos + len <= zlen buf -> len <= 128 * (Z.of_nat fuel + 1) ->
  triple (fun s => ready r s /\ BulkReads s = l)
    (DwReadAddr_chunks adapter attached DWDRreg fuel addr len pos buf)
    (fun cur s =>
       let '(addr', len', pos', buf') := cur in
       ready r s /\
       exists reads,
         BulkReads s = l ++ reads /\ tiles addr addr' reads /\
         Forall (fun rd => snd rd = 128) reads /\
         addr' = addr + 128 * zlen reads /\ len' = len - 128 * zlen reads /\
         0 <= pos' /\ 0 <= len' <= 128 /\ (0 < len -> 0 < len') /\
         pos' + len' <= zlen buf' /\ zlen buf' = zlen buf)
    never.
Proof.
  revert l.
  induction fuel as [|fuel IH]; intros l addr len pos buf Hp Hl Hb Hf;
    cbn [DwReadAddr_chunks]; destruct (128 <? len) eqn:C.
  - lia.
  - apply triple_ret. intros s [Hs Hr]. split; [exact Hs|].
    exists []. rewrite app_nil_r. change (zlen (@nil (Z * Z))) with 0.
    split; [exact Hr|]. split; [reflexivity|]. split; [constructor|]. lia.
  - eapply triple_bind.
    + eapply triple_weaken.
      * apply (triple_and _ _ _ _ _ _ _
                 (at_offset_returns adapter attached DWDRreg adapter_accepts r pos buf
                    addr 128 Hp ltac:(lia) ltac:(lia))
                 (at_offset_notes l pos buf addr 128 ltac:(lia))).
      * auto.
      * intros a s H. exact H.
      * intros w s [[] _].
    + intros buf1. intros s ([Hs Z1] & Hr).
      assert (G : 128 < len) by lia.
      pose proof (IH (l ++ [(addr, 128)]) (addr + 128) (len - 128) (pos + 128) buf1
                    ltac:(lia) ltac:(lia) ltac:(lia)
                    ltac:(rewrite Nat2Z.inj_succ in Hf; lia) s (conj Hs Hr)) as T.
      destruct (DwReadAddr_chunks adapter attached DWDRreg fuel (addr + 128)
                  (len - 128) (pos + 128) buf1 s) as [[[[a' l'] p'] b'] s'|w s'];
        [|exact T].
      destruct T as (Hs' & reads & Er & Ht & Ff & Ea & El & Hp' & Hl' & Hn & Hb' & Zb).
      split; [exact Hs'|]. exists ((addr, 128) :: reads).
      rewrite zlen_cons.
      split; [rewrite Er, <- app_assoc; reflexivity|].
      split; [split; [reflexivity|exact Ht]|].
      split; [constructor; [reflexivity|exact Ff]|].
      split; [lia|]. split; [lia|]. split; [exact Hp'|]. split; [exact Hl'|].
      split; [intros _; apply Hn; lia|]. split; [exact Hb'|lia].
  - apply triple_ret. intros s [Hs Hr]. split; [exact Hs|].
    exists []. rewrite app_nil_r. change (zlen (@nil (Z * Z))) with 0.
    split; [exact Hr|]. split; [reflexivity|]. split; [constructor|]. lia.
Qed.

(** Beyond r31 and DWDR the first four phases of [DwReadAddr] do nothing. *)
Lemma DwReadAddr_beyond addr len buf s :
  31 < addr -> DWDRaddr < addr -> 0 <= len ->
  DwReadAddr adapter attached DWDRreg DWDRaddr addr len buf s =
  ('(addr, len, pos, buf) <-
     DwReadAddr_chunks adapter attached DWDRreg (Z.to_nat (len / 128)) addr len 0 buf;;
   if 0 <? len then at_offset pos buf (DwUnsafeReadAddr adapter attached DWDRreg addr len)
   else ret buf) s.
Proof.
  intros Ha Hd Hl. unfold DwReadAddr. cbv zeta.
  replace (0 <? Z.min len (28 - addr)) with false by (symmetry; lia).
  rewrite bind_ret.
  assert (Ec : DwReadAddr_cached 4 addr len 0 buf s = Ok (addr, len, 0, buf) s).
  { cbn [DwReadAddr_cached].
    replace ((28 <=? addr) && (addr <=? 31) && (0 <? len)) with false; [reflexivity|].
    symmetry. rewrite !andb_false_iff. lia. }
  rewrite (bind_Ok _ _ _ _ _ Ec).
  replace (0 <? Z.min len (DWDRaddr - addr)) with false by (symmetry; lia).
  rewrite bind_ret.
  replace ((addr =? DWDRaddr) && (0 <? len)) with false
    by (symmetry; rewrite andb_false_iff; lia).
  rewrite bind_ret. reflexivity.
Qed.

(** X10: [DwReadAddr(addr, len, buf)] for a range beyond r31 and DWDR, on
    a connected session with nothing buffered and an adapter that takes
    every transfer: the call returns, and the bulk reads it makes follow
    one another from [addr] to [addr + len] with no gap and no overlap;
    each reads at least 1 and at most 128 bytes, all but the last read
    128, and there are [(len + 127) / 128] of them (none for an empty
    range).  The array keeps its size and the shadow is as before. *)
Theorem DwReadAddr_tiles (r : list Z) (addr len : Z) (buf : list Z) (s : State) :
  ready r s -> 31 < addr -> DWDRaddr < addr -> 0 <= len <= zlen buf ->
  exists buf' s' full last,
    DwReadAddr adapter attached DWDRreg DWDRaddr addr len buf s = Ok buf' s' /\
    BulkReads s' = BulkReads s ++ full ++ last /\
    tiles addr (addr + len) (full ++ last) /\
    Forall (fun rd => snd rd = 128) full /\
    Forall (fun rd => 1 <= snd rd <= 128) last /\
    zlen (full ++ last) = (len + 127) / 128 /\
    (zlen last <= 1) /\
    zlen buf' = zlen buf /\ ready r s'.
Proof.
  intros Hs Ha Hd Hl.
  rewrite (DwReadAddr_beyond addr len buf s Ha Hd ltac:(lia)).
  assert (Hf : len <= 128 * (Z.of_nat (Z.to_nat (len / 128)) + 1)).
  { rewrite Z2Nat.id by (apply Z.div_pos; lia).
    pose proof (Z.mul_succ_div_gt len 128 ltac:(lia)). lia. }
  pose proof (DwReadAddr_chunks_tiles r (BulkReads s) (Z.to_nat (len / 128)) addr len 0 buf
                ltac:(lia) ltac:(lia) ltac:(lia) Hf s (conj Hs eq_refl)) as T.
  destruct (DwReadAddr_chunks adapter attached DWDRreg (Z.to_nat (len / 128)) addr len 0 buf s)
    as [[[[a' l'] p'] b'] s1|w s1] eqn:Ec; [|destruct T].
  rewrite (bind_Ok _ _ _ _ _ Ec).
  destruct T as (Hs1 & full & Er & Ht & Ff & Ea & El & Hp' & Hl' & Hn & Hb' & Zb).
  pose proof (zlen_nonneg full) as Zf.
  destruct (0 <? l') eqn:C.
  - pose proof (triple_and _ _ _ _ _ _ _
                  (at_offset_returns adapter attached DWDRreg adapter_accepts r p' b'
                     a' l' Hp' ltac:(lia) Hb')
                  (at_offset_notes (BulkReads s1) p' b' a' l' ltac:(lia))
                  s1 (conj Hs1 eq_refl)) as T2.
    destruct (at_offset p' b' (DwUnsafeReadAddr adapter attached DWDRreg a' l') s1)
      as [buf' s'|w s']; [|destruct T2 as [[] _]].
    destruct T2 as [[Hs' Z'] Hr'].
    exists buf', s', full, [(a', l')].
    split; [reflexivity|]. split; [rewrite Hr', Er, <- app_assoc; reflexivity|].
    split; [replace (addr + len) with (a' + l') by lia; now apply tiles_snoc|].
    split; [exact Ff|]. split; [constructor; [cbn [snd]; lia|constructor]|].
    split.
    { rewrite zlen_app, zlen_cons. change (zlen (@nil (Z * Z))) with 0.
      replace (zlen full + (1 + 0)) with (zlen full + 1) by lia.
      apply Z.div_unique with (r := l' - 1); lia. }
    split; [rewrite zlen_cons; change (zlen (@nil (Z * Z))) with 0; lia|].
    split; [lia|exact Hs'].
  - assert (L0 : len = 0) by lia. assert (F0 : zlen full = 0) by lia.
    exists b', s1, full, []. rewrite app_nil_r.
    split; [reflexivity|]. split; [exact Er|].
    split; [replace (addr + len) with a' by lia; exact Ht|].
    split; [exact Ff|]. split; [constructor|].
    split; [rewrite L0, F0; reflexivity|].
    split; [change (zlen (@nil (Z * Z))) with 0; lia|]. split; [lia|exact Hs1].
Qed.

End ReadTiles.

(** 300 bytes of SRAM from 0x60: two reads of 128 bytes and one of 44. *)
Lemma DwReadAddr_tiles_witness :
  ready (R halted) halted /\ 31 < 0x60 /\ 0x4E < 0x60 /\ 0 <= 300 <= zlen (repeat 9 300) /\
  exists buf' s',
    DwReadAddr prompt true 0x2E 0x4E 0x60 300 (repeat 9 300) halted = Ok buf' s' /\
    BulkReads s' = [(0x60, 128); (0xE0, 128); (0x160, 44)].
Proof.
  assert (Hl : 0 <= 300 <= zlen (repeat 9 300)) by (rewrite zlen_repeat; lia).
  split; [exact halted_ready|]. split; [lia|]. split; [lia|]. split; [exact Hl|].
  pose proof (DwReadAddr_tiles prompt true 0x2E 0x4E prompt_accepts (R halted) 0x60 300
                (repeat 9 300) halted halted_ready ltac:(lia) ltac:(lia) Hl) as H.
  destruct H as (buf' & s' & full & last & E & Er & _).
  exists buf', s'. split; [exact E|].
  assert (Ev : BulkReads (final (DwReadAddr prompt true 0x2E 0x4E 0x60 300
                                   (repeat 9 300) halted)) =
               [(0x60, 128); (0xE0, 128); (0x160, 44)]) by (vm_compute; reflexivity).
  rewrite E in Ev. exact Ev.
Defined.

(** ** The addresses of [DwSetPC] and [DwSetBP] *)

Lemma address_bytes_low :
  forallb (fun a => (nth 0 (address_bytes a) 0 =? 0x10 + a / 256) &&
                    (nth 1 (address_bytes a) 0 =? a mod 256) &&
                    (nth 0 (address_bytes (a + 0x1000)) 0 =? 0x10 + a / 256) &&
                    (nth 1 (address_bytes (a + 0x1000)) 0 =? a mod 256))
    (below 4096) = true.
Proof. vm_compute. reflexivity. Qed.

Section Addresses.

Variable adapter : nat -> reply.
Variable attached : bool.

(** X11: the address of [DwSetPC] and [DwSetBP] goes out as two bytes, the
    high byte with bit 4 set ([hi(a) | 0x10]).  For an address below
    0x1000 the bytes are [0x10 + a / 256] and [a mod 256], so the address
    can be read back from them and two such addresses never give the same
    command; but the address [a + 0x1000] gives the same command as [a]:
    bit 12 of an address is lost. *)
Theorem address_bit_12 (a : Z) :
  0 <= a < 0x1000 ->
  DwSetPC adapter attached a =
    DwSendBytes adapter attached (Bytes [0xD0; 0x10 + a / 256; a mod 256]) /\
  DwSetBP adapter attached a =
    DwSendBytes adapter attached (Bytes [0xD1; 0x10 + a / 256; a mod 256]) /\
  DwSetPC adapter attached (a + 0x1000) = DwSetPC adapter attached a /\
  DwSetBP adapter attached (a + 0x1000) = DwSetBP adapter attached a /\
  (forall a', 0 <= a' < 0x1000 -> address_bytes a' = address_bytes a -> a' = a).
Proof.
  intros Ha.
  assert (B : forall x, 0 <= x < 0x1000 ->
            Z.lor (hi (u16 x)) 0x10 = 0x10 + x / 256 /\
            lo (u16 x) = x mod 256 /\
            Z.lor (hi (u16 (x + 0x1000))) 0x10 = 0x10 + x / 256 /\
            lo (u16 (x + 0x1000)) = x mod 256).
  { intros x Hx.
    pose proof (below_spec 4096 _ address_bytes_low x ltac:(lia)) as G.
    cbv beta in G. rewrite !andb_true_iff in G.
    destruct G as [[[G1 G2] G3] G4].
    unfold address_bytes in G1, G2, G3, G4. cbn [nth] in G1, G2, G3, G4.
    apply Z.eqb_eq in G1, G2, G3, G4.
    split; [exact G1|]. split; [exact G2|]. split; [exact G3|exact G4]. }
  destruct (B a Ha) as (H1 & L1 & H2 & L2).
  unfold DwSetPC, DwSetBP. cbv zeta. rewrite H1, L1, H2, L2.
  split; [reflexivity|]. split; [reflexivity|]. split; [reflexivity|].
  split; [reflexivity|].
  intros a' Ha' E. destruct (B a' Ha') as (H1' & L1' & _).
  assert (Eh : Z.lor (hi (u16 a')) 0x10 = Z.lor (hi (u16 a)) 0x10).
  { exact (f_equal (fun l => nth 0 l 0) E). }
  assert (El : lo (u16 a') = lo (u16 a)).
  { exact (f_equal (fun l => nth 1 l 0) E). }
  rewrite H1', H1 in Eh. rewrite L1', L1 in El.
  pose proof (Z.div_mod a 256 ltac:(lia)) as D.
  pose proof (Z.div_mod a' 256 ltac:(lia)) as D'.
  assert (Eq : a' / 256 = a / 256) by (clear - Eh; lia).
  rewrite D', D, Eq, El. reflexivity.
Qed.

End Addresses.

(** The word addresses 0x0080 and 0x1080 set the same program counter. *)
Lemma address_bit_12_witness :
  0 <= 0x80 < 0x1000 /\
  DwSetPC prompt true 0x1080 = DwSetPC prompt true 0x80 /\
  DwSetPC prompt true 0x80 = DwSendBytes prompt true (Bytes [0xD0; 0x10; 0x80]).
Proof.
  assert (H : 0 <= 0x80 < 0x1000) by lia.
  split; [exact H|].
  pose proof (address_bit_12 prompt true 0x80 H) as (E1 & _ & E3 & _).
  split; [exact E3|exact E1].
Defined.

(** ** The bound on the outbound buffer *)

Lemma wf_polled size m s : wf s -> wf (polled size m s).
Proof.
  revert s. induction m as [|m IH]; intros s W; [exact W|].
  apply IH. exact W.
Qed.

Section BufferBound.

Variable adapter : nat -> reply.
Variable attached : bool.

(** A flush empties the buffer, or stops through [Fail]. *)
Lemma dwBufferFlush_bounded state s :
  wf s ->
  match dwBufferFlush adapter attached state s with
  | Ok _ s' => wf s' /\ OutBufLength s' = 0 /\ (primed s -> Port s' = true)
  | Stop w s' => failed w /\ wf s'
  end.
Proof.
  intros W. pose proof W as [W1 W2].
  pose proof (dwBufferFlush_frame adapter attached wf wf_frame state s W) as F.
  unfold dwBufferFlush in *. rewrite bind_read in F |- *.
  destruct (0 <? OutBufLength s) eqn:E.
  - rewrite bind_read in F |- *.
    pose proof (dwUSBSendBytes_safe adapter attached state (OutBufBytes s)
                  (OutBufLength s) ltac:(lia) s Logic.I) as H.
    destruct (dwUSBSendBytes adapter attached state (OutBufBytes s) (OutBufLength s) s)
      as [[] s1|w s1] eqn:Es.
    + rewrite (bind_Ok _ _ _ _ _ Es) in F |- *. cbn in F |- *.
      split; [exact F|]. split; [reflexivity|]. intros _. exact H.
    + rewrite (bind_Stop _ _ _ _ _ Es) in F |- *. cbn in F.
      split; [exact (proj1 H)|exact F].
  - cbn in F |- *. split; [exact W|]. split; [lia|].
    intros [Hp|Hp]; [exact Hp|lia].
Qed.

Lemma DwSend_bounded out outlen s :
  wf s -> 0 <= outlen <= zlen out -> outlen <= INT_MAX ->
  bounded (DwSend adapter attached out outlen s).
Proof.
  intros W Ho Hi.
  pose proof (DwSend_frame adapter attached wf wf_frame out outlen s W) as F.
  pose proof (DwSend_safe adapter attached out outlen Ho Hi s W) as H.
  split; [exact F|].
  destruct (DwSend adapter attached out outlen s); [exact Logic.I|exact (proj1 H)].
Qed.

Lemma dwBufferFlush_bounded' state s :
  wf s -> bounded (dwBufferFlush adapter attached state s).
Proof.
  intros W. pose proof (dwBufferFlush_bounded state s W) as H.
  destruct (dwBufferFlush adapter attached state s); split; cbn; try apply H.
  exact Logic.I.
Qed.

Lemma DwReceive_bounded buf inlen s :
  wf s -> primed s -> inlen <= 128 -> inlen <= zlen buf ->
  bounded (DwReceive adapter attached buf inlen s).
Proof.
  intros W Hp Hi Hb. unfold DwReceive. rewrite bind_Assert.
  replace (inlen <=? 128) with true by (symmetry; lia).
  pose proof (dwBufferFlush_bounded 0x14 s W) as F.
  destruct (dwBufferFlush adapter attached 0x14 s) as [[] s1|w s1] eqn:Ef.
  - rewrite (bind_Ok _ _ _ _ _ Ef). destruct F as (W1 & Z1 & P1).
    destruct (receive_retry_open adapter 50 0 buf inlen s1 (P1 Hp) Hb ltac:(lia))
      as (st & buf' & s' & m & E & _ & _ & _ & _ & ->).
    rewrite E. split; [apply wf_polled; exact W1|exact Logic.I].
  - rewrite (bind_Stop _ _ _ _ _ Ef). split; cbn; apply F.
Qed.

Lemma DwSync_bounded s :
  wf s -> primed s -> bounded (DwSync adapter attached s).
Proof.
  intros W Hp. unfold DwSync.
  pose proof (dwBufferFlush_bounded 0x24 s W) as F.
  destruct (dwBufferFlush adapter attached 0x24 s) as [[] s1|w s1] eqn:Ef.
  - rewrite (bind_Ok _ _ _ _ _ Ef). destruct F as (W1 & Z1 & P1).
    destruct (SetDwireBaud_cases adapter s1 (P1 Hp)) as (m & _ & C).
    pose proof (SetDwireBaud_frame adapter wf (frame_transport _ wf_frame) s1 W1) as FW.
    destruct (SetDwireBaud adapter s1) as [ok s2|w s2] eqn:Eb; cbn [final] in FW.
    + rewrite (bind_Ok _ _ _ _ _ Eb). destruct (ok =? 0); cbn.
      * split; [exact FW|eexists; reflexivity].
      * split; [exact FW|exact Logic.I].
    + rewrite (bind_Stop _ _ _ _ _ Eb). destruct C as (-> & _).
      split; [exact FW|eexists; reflexivity].
  - rewrite (bind_Stop _ _ _ _ _ Ef). split; cbn; apply F.
Qed.

(** C5: the invariant [0 <= OutBufLength <= 128] holds when the program
    starts, and every operation of the pipeline ([DwSend] of any bytes,
    [DwFlush], [DwReceive], [DwSync], [DwWait]) keeps it, however the
    operation ends.  The bound is the code's own: for a count within the
    caller's array (and, for a read, a session on which a read may follow:
    the handle is open or there is something to flush), the operation
    returns or stops through [Fail]; no copy leaves the 128 bytes of the
    buffer and the [Assert] of [DwSend] never fails. *)
Theorem OutBufLength_bound :
  0 <= OutBufLength initial <= 128 /\
  forall s,
    zlen (OutBufBytes s) = 128 -> 0 <= OutBufLength s <= 128 ->
    ((forall out outlen,
        0 <= OutBufLength (final (DwSend adapter attached out outlen s)) <= 128) /\
     0 <= OutBufLength (final (DwFlush adapter attached s)) <= 128 /\
     (forall buf inlen,
        0 <= OutBufLength (final (DwReceive adapter attached buf inlen s)) <= 128) /\
     0 <= OutBufLength (final (DwSync adapter attached s)) <= 128 /\
     0 <= OutBufLength (final (DwWait adapter attached s)) <= 128) /\
    ((forall out outlen,
        0 <= outlen <= zlen out -> outlen <= INT_MAX - 128 ->
        bounded (DwSend adapter attached out outlen s)) /\
     bounded (DwFlush adapter attached s) /\
     (forall buf inlen,
        primed s -> 0 <= inlen <= 128 -> inlen <= zlen buf ->
        bounded (DwReceive adapter attached buf inlen s)) /\
     (primed s -> bounded (DwSync adapter attached s)) /\
     bounded (DwWait adapter attached s)).
Proof.
  split; [simpl; lia|].
  intros s H1 H2. assert (W : wf s) by (split; assumption).
  split; split; [|split; [|split; [|split]]| |split; [|split; [|split]]].
  - intros out outlen.
    exact (proj2 (DwSend_frame adapter attached wf wf_frame out outlen s W)).
  - exact (proj2 (DwFlush_frame adapter attached wf wf_frame s W)).
  - intros buf inlen.
    exact (proj2 (DwReceive_frame adapter attached wf wf_frame buf inlen s W)).
  - exact (proj2 (DwSync_frame adapter attached wf wf_frame s W)).
  - exact (proj2 (DwWait_frame adapter attached wf wf_frame s W)).
  - intros out outlen Ho Hi. apply DwSend_bounded; [exact W|exact Ho|lia].
  - unfold DwFlush. apply dwBufferFlush_bounded'. exact W.
  - intros buf inlen Hp Hi Hb. apply DwReceive_bounded; [exact W|exact Hp|lia|exact Hb].
  - intros Hp. apply DwSync_bounded; assumption.
  - unfold DwWait. apply dwBufferFlush_bounded'. exact W.
Qed.

End BufferBound.

(** 300 bytes sent on the halted session: two blocks of 128 bytes are
    shipped and 44 bytes stay in the buffer. *)
Lemma OutBufLength_bound_witness :
  zlen (OutBufBytes halted) = 128 /\ 0 <= OutBufLength halted <= 128 /\
  0 <= 300 <= zlen (repeat 7 300) /\ 300 <= INT_MAX - 128 /\
  bounded (DwSend prompt true (repeat 7 300) 300 halted) /\
  exists s', DwSend prompt true (repeat 7 300) 300 halted = Ok tt s' /\
             OutBufLength s' = 44.
Proof.
  assert (H1 : zlen (OutBufBytes halted) = 128) by reflexivity.
  assert (H2 : 0 <= OutBufLength halted <= 128) by (simpl; lia).
  assert (H3 : 0 <= 300 <= zlen (repeat 7 300)) by (rewrite zlen_repeat; lia).
  assert (H4 : 300 <= INT_MAX - 128) by (unfold INT_MAX; lia).
  split; [exact H1|]. split; [exact H2|]. split; [exact H3|]. split; [exact H4|].
  pose proof (proj2 (OutBufLength_bound prompt true)) as H.
  specialize (H halted). specialize (H H1). specialize (H H2).
  destruct H as (_ & H & _). split; [exact (H (repeat 7 300) 300 H3 H4)|].
  eexists. split; vm_compute; reflexivity.
Defined.
(** ** What a read puts on the bus *)

Section ReadPrecondition.

Variable adapter : nat -> reply.
Variable attached : bool.

(** One IN transfer shows in the log, unless the handle is closed. *)
Lemma usb_control_msg_in_log value buf size s :
  match usb_control_msg_in adapter value buf size s with
  | Ok _ s' => Log s' = Log s ++ [In_ value size]
  | Stop _ s' => Log s' = Log s \/ Log s' = Log s ++ [In_ value size]
  end.
Proof.
  unfold usb_control_msg_in. destruct (Port s); [|now left]. cbv zeta.
  destruct (rstatus (adapter (Calls s)) <? 0); [reflexivity|].
  destruct (_ <=? _); [reflexivity|now right].
Qed.

(** The polling loop of [DwReceive] only polls. *)
Lemma receive_retry_log n : forall status buf inlen s,
  exists m, Log (final (receive_retry adapter n status buf inlen s)) =
            Log s ++ repeat (In_ 0 inlen) m.
Proof.
  induction n as [|n IH]; intros status buf inlen s; cbn [receive_retry].
  - exists 0%nat. cbn. now rewrite app_nil_r.
  - destruct (status <=? 0).
    + unfold delay. rewrite bind_modify.
      pose proof (usb_control_msg_in_log 0 buf inlen (add_Elapsed 20 s)) as H.
      destruct (usb_control_msg_in adapter 0 buf inlen (add_Elapsed 20 s))
        as [[st1 buf1] s1|w s1] eqn:E.
      * rewrite (bind_Ok _ _ _ _ _ E). cbv beta iota.
        destruct (IH st1 buf1 inlen s1) as (m & Hm).
        exists (S m). rewrite Hm, H. cbn [Log add_Elapsed repeat].
        now rewrite <- app_assoc.
      * rewrite (bind_Stop _ _ _ _ _ E). cbn [final].
        destruct H as [H|H]; rewrite H; cbn [Log add_Elapsed].
        -- exists 0%nat. cbn. now rewrite app_nil_r.
        -- now exists 1%nat.
    + exists 0%nat. cbn. now rewrite app_nil_r.
Qed.

(** C6: every transfer of mode 0x14 carries at least one outbound byte.  A
    flush of an empty buffer sends nothing; the operations of the pipeline
    add to the bus no transfer of mode 0x14 with an empty payload; and
    [DwSend] of one byte or more, when it returns, leaves the buffer
    non-empty (it does return, on a connected session with an adapter
    that takes what it is sent), so that a read that follows has something
    to flush.  A read ([DwReceive]) on a buffer that is not empty begins
    with the transfer of mode 0x14 that carries the buffered bytes (repeated
    while the adapter is not ready), and only then polls for the answer; a
    read on an empty buffer makes no transfer of mode 0x14, it only polls. *)
Theorem read_precondition (s : State) :
  (OutBufLength s <= 0 -> dwBufferFlush adapter attached 0x14 s = Ok tt s) /\
  (Forall carries (Log s) ->
   Forall carries (Log (final (DwFlush adapter attached s))) /\
   (forall buf inlen, Forall carries (Log (final (DwReceive adapter attached buf inlen s)))) /\
   (forall out outlen, Forall carries (Log (final (DwSend adapter attached out outlen s)))) /\
   Forall carries (Log (final (DwSync adapter attached s))) /\
   Forall carries (Log (final (DwWait adapter attached s)))) /\
  (forall out outlen,
     wf s -> 1 <= outlen ->
     match DwSend adapter attached out outlen s with
     | Ok _ s' => 1 <= OutBufLength s'
     | Stop _ _ => True
     end) /\
  (forall out outlen,
     wf s -> Port s = true -> 1 <= outlen <= zlen out -> outlen <= INT_MAX ->
     accepts adapter ->
     exists s', DwSend adapter attached out outlen s = Ok tt s' /\ 1 <= OutBufLength s') /\
  (forall buf inlen,
     wf s -> Port s = true -> 0 < OutBufLength s -> inlen <= 128 ->
     buffered s <> [] /\
     exists n m,
       Log (final (DwReceive adapter attached buf inlen s)) =
       Log s ++ repeat (Out 0x14 (buffered s)) (S n) ++ repeat (In_ 0 inlen) m) /\
  (forall buf inlen,
     OutBufLength s <= 0 ->
     exists m,
       Log (final (DwReceive adapter attached buf inlen s)) =
       Log s ++ repeat (In_ 0 inlen) m).
Proof.
  split; [apply dwBufferFlush_empty|]. split; [|split; [|split; [|split]]].
  - intros C. split; [|split; [|split; [|split]]].
    + exact (DwFlush_frame adapter attached _ carrying_frame s C).
    + intros buf inlen.
      exact (DwReceive_frame adapter attached _ carrying_frame buf inlen s C).
    + intros out outlen.
      exact (DwSend_frame adapter attached _ carrying_frame out outlen s C).
    + exact (DwSync_frame adapter attached _ carrying_frame s C).
    + exact (DwWait_frame adapter attached _ carrying_frame s C).
  - intros out outlen W Ho. now apply DwSend_residue.
  - intros out outlen W HP Ho Hi Ha.
    destruct (DwSend_returns adapter attached Ha out outlen s W HP ltac:(lia) Hi)
      as (s' & E & _ & _ & N).
    exists s'. split; [exact E|]. apply N. lia.
  - intros buf inlen W HP HL Hi. split.
    + intros Hn. apply (f_equal zlen) in Hn. unfold buffered in Hn.
      rewrite zlen_take in Hn. destruct W as [W1 W2]. change (zlen (@nil Z)) with 0 in Hn.
      lia.
    + unfold DwReceive. rewrite bind_Assert.
      replace (inlen <=? 128) with true by (symmetry; lia).
      destruct (dwBufferFlush_attempts adapter attached 0x14 s W HP HL)
        as (n & Lg & _ & _).
      exists n.
      destruct (dwBufferFlush adapter attached 0x14 s) as [[] s1|w s1] eqn:Ef;
        cbn [final] in Lg.
      * rewrite (bind_Ok _ _ _ _ _ Ef).
        destruct (receive_retry_log 50 0 buf inlen s1) as (m & Hm).
        exists m. rewrite Hm, Lg. now rewrite <- app_assoc.
      * rewrite (bind_Stop _ _ _ _ _ Ef). exists 0%nat. cbn [final repeat].
        rewrite Lg. now rewrite app_nil_r.
  - intros buf inlen HL. unfold DwReceive.
    destruct (inlen <=? 128) eqn:Ei; cbn [Assert].
    + rewrite bind_ret.
      rewrite (bind_Ok _ _ _ _ _ (dwBufferFlush_empty adapter attached 0x14 s HL)).
      apply receive_retry_log.
    + exists 0%nat. cbn. now rewrite app_nil_r.
Qed.

End ReadPrecondition.

(** The request F0 sent on the halted session stays in the buffer; the
    read of a word that follows ships it with mode 0x14, then polls. *)
Lemma read_precondition_witness :
  DwSend prompt true [0xF0] 1 halted = Ok tt (push [0xF0] halted) /\
  wf (push [0xF0] halted) /\ Port (push [0xF0] halted) = true /\
  0 < OutBufLength (push [0xF0] halted) /\ 2 <= 128 /\
  buffered (push [0xF0] halted) = [0xF0] /\
  (exists n m,
     Log (final (DwReceive prompt true [0; 0] 2 (push [0xF0] halted))) =
     Log (push [0xF0] halted) ++
     repeat (Out 0x14 (buffered (push [0xF0] halted))) (S n) ++ repeat (In_ 0 2) m) /\
  Log (final (DwReceive prompt true [0; 0] 2 (push [0xF0] halted))) =
    Out 0x14 [0xF0] :: repeat (In_ 0 2) 50.
Proof.
  assert (W : wf (push [0xF0] halted))
    by (split; [vm_compute; reflexivity|split; vm_compute; discriminate]).
  assert (HL : 0 < OutBufLength (push [0xF0] halted)) by (vm_compute; reflexivity).
  split; [vm_compute; reflexivity|].
  split; [exact W|]. split; [reflexivity|]. split; [exact HL|]. split; [lia|].
  split; [reflexivity|].
  pose proof (read_precondition prompt true (push [0xF0] halted)) as H.
  destruct H as (_ & _ & _ & _ & H & _).
  specialize (H [0; 0] 2 W eq_refl HL ltac:(lia)).
  split; [exact (proj2 H)|vm_compute; reflexivity].
Defined.

(** ** The shadow between [DwReconnect] and [DwGo] *)

Lemma take_take_app (l regs : list Z) :
  28 <= zlen l -> take 4 (take 28 l ++ regs) = take 4 l.
Proof.
  intros H. unfold take, zlen in *. rewrite firstn_app, firstn_firstn, length_firstn.
  replace (Z.to_nat 4 - Nat.min (Z.to_nat 28) (List.length l))%nat with 0%nat by lia.
  replace (Nat.min (Z.to_nat 4) (Z.to_nat 28)) with (Z.to_nat 4) by lia.
  cbn [firstn]. apply app_nil_r.
Qed.

Section ShadowRestore.

Variable adapter : nat -> reply.
Variable attached : bool.
Variables DWDRreg FlashSize : Z.

(** [DwReconnect] writes the shadow from r28 on, and nothing below. *)
Lemma DwReconnect_shadow s :
  match DwReconnect adapter attached DWDRreg FlashSize s with
  | Ok _ s' => exists regs, R s' = take 28 (R s) ++ regs
  | Stop _ _ => True
  end.
Proof.
  unfold DwReconnect.
  pose proof (DwSendBytes_frame adapter attached _ (R_frame (fun r => r = R s))
                (Bytes [0xF0]) s eq_refl) as F1.
  destruct (DwSendBytes adapter attached (Bytes [0xF0]) s) as [[] s1|w1 s1] eqn:E1;
    [|rewrite (bind_Stop _ _ _ _ _ E1); exact Logic.I].
  rewrite (bind_Ok _ _ _ _ _ E1). cbn [final] in F1.
  pose proof (DwReadWord_frame adapter attached _ (R_frame (fun r => r = R s)) s1 F1) as F2.
  destruct (DwReadWord adapter attached s1) as [w s2|w2 s2] eqn:E2;
    [|rewrite (bind_Stop _ _ _ _ _ E2); exact Logic.I].
  rewrite (bind_Ok _ _ _ _ _ E2). cbn [final] in F2.
  destruct (FlashSize =? 0); [exact Logic.I|].
  rewrite bind_ret, bind_modify, bind_read. cbn [R set_PC]. rewrite F2.
  set (s3 := set_PC _ s2).
  pose proof (DwGetRegs_frame adapter attached DWDRreg _ (R_frame (fun r => r = R s))
                28 (drop 28 (R s)) 4 s3 F2) as F3.
  destruct (DwGetRegs adapter attached DWDRreg 28 (drop 28 (R s)) 4 s3)
    as [regs s4|w4 s4] eqn:E3;
    [|rewrite (bind_Stop _ _ _ _ _ E3); exact Logic.I].
  rewrite (bind_Ok _ _ _ _ _ E3). cbn. exists regs. reflexivity.
Qed.


End ShadowRestore.

